(** * PDFtoMarkdown: the concurrent page-processing pipeline

    A shallow embedding of [ProcessingTask] (src/gui/main_window.py):
    [process_image] (the retrying worker), [run] (the scheduler that
    collects the futures as they complete and sorts the results) and
    [format_results] (the formatter), followed by the properties the
    specification states about them.

    The embedding goes on to the code around the pipeline: the transcriber
    [OpenAIClient.process_image] (src/openai_client.py), the configuration
    [ConfigManager] (src/config_manager.py), the dialog [AssistantManager]
    (src/gui/assistant_manager.py), [PDFProcessor.convert_pdf_to_images]
    (src/pdf_processor.py) and the slots of [MainWindow] that process a
    file (src/gui/main_window.py). Their properties come last. *)

From Stdlib Require Import ZArith QArith Qround Qpower Qabs.
From Stdlib Require Import String Ascii List Bool Arith Lia.
From Stdlib Require Import Permutation Sorted DecimalString SpecFloat Lqa.
From Stdlib Require Import DecimalPos.
From Equations Require Import Equations.
Import ListNotations.

Local Open Scope string_scope.
Local Open Scope Z_scope.

(** ** Python values *)

(** [str(n)] for a Python [int]. *)
Definition str_of_Z (z : Z) : string := NilZero.string_of_int (Z.to_int z).

(** A raised [Exception], kept as [str(e)]: the code never looks at more. *)
Definition exn := string.

(** The pair [(success, text)] a worker returns and a future holds. The
    text is a [str] or [None]: on a success it is what the transcriber
    returned, and the transcriber returns the content of the message as the
    service gave it. *)
Definition outcome := (bool * option string)%type.

Inductive result (A : Type) : Type :=
| Ok (a : A)
| Raised (e : exn).
Arguments Ok {A} a.
Arguments Raised {A} e.

(** ** Statements

    Method bodies are written in a state monad over the variables and the
    history [S] of the running thread, in which a computation can raise.
    The state reached when it raises is kept, as Python keeps the
    assignments made before a [raise]. *)

Definition M (S A : Type) : Type := S -> result A * S.

Definition ret {S A} (a : A) : M S A := fun s => (Ok a, s).

Definition bind {S A B} (m : M S A) (f : A -> M S B) : M S B :=
  fun s => match m s with
           | (Ok a, s') => f a s'
           | (Raised e, s') => (Raised e, s')
           end.

Definition raise {S A} (e : exn) : M S A := fun s => (Raised e, s).

(** [try: body except Exception as e: handler e]. *)
Definition try_except {S A} (body : M S A) (handler : exn -> M S A) : M S A :=
  fun s => match body s with
           | (Ok a, s') => (Ok a, s')
           | (Raised e, s') => handler e s'
           end.

Notation "x <- m ;; k" := (bind m (fun x => k))
  (at level 61, m at next level, right associativity).
Notation "m ;;; k" := (bind m (fun _ => k))
  (at level 61, right associativity).

(** ** Python floats

    A finite binary64 value is kept as the rational it denotes. [round] is
    IEEE 754 rounding to nearest, ties to even, at 53 bits of precision with
    the subnormal exponent floor of binary64. No value of this program
    exceeds 100, so the overflow threshold is never met and is not
    modelled. *)

Module PyFloat.

Local Open Scope Q_scope.

(** [floor (log2 x)] for [0 < x]. *)
Definition ilog2 (x : Q) : Z :=
  let d := (Z.log2 (Qnum x) - Z.log2 (Zpos (Qden x)))%Z in
  if Qle_bool (2 ^ d) x then d else (d - 1)%Z.

(** The nearest integer, ties to even. *)
Definition rne (x : Q) : Z :=
  let f := Qfloor x in
  match Qcompare (x - inject_Z f) (1 # 2) with
  | Lt => f
  | Eq => if Z.even f then f else (f + 1)%Z
  | Gt => (f + 1)%Z
  end.

(** The exponent of the last place of the binary64 values around [x]. *)
Definition cexp (x : Q) : Z := Z.max (ilog2 x - 52) (-1074).

Definition round_pos (x : Q) : Q :=
  inject_Z (rne (x / 2 ^ cexp x)) * 2 ^ cexp x.

Definition round (x : Q) : Q :=
  match Qcompare x 0 with
  | Eq => 0
  | Gt => round_pos x
  | Lt => - round_pos (- x)
  end.

(** [a / b] on two [int]s, for [b <> 0]: the correctly rounded quotient. *)
Definition quotient (a b : Z) : Q := round (inject_Z a / inject_Z b).

(** [a / b] on two [int]s. *)
Definition true_div {S : Type} (a b : Z) : M S Q :=
  if (b =? 0)%Z then raise "division by zero" else ret (quotient a b).

(** [x * n] for a float [x] and an [int] [n] that a float holds exactly. *)
Definition float_mul (x : Q) (n : Z) : Q := round (x * inject_Z n).

(** [int(x)]: truncation toward zero. *)
Definition int_of_float (x : Q) : Z := if Qle_bool 0 x then Qfloor x else Qceiling x.

(** [int(k / n * 100)]. *)
Definition percent (k n : Z) : Z := int_of_float (float_mul (quotient k n) 100).

(** The same product computed by the Standard Library's reference
    implementation of IEEE 754 arithmetic, to cross-check [round]. *)
Definition binary64_of_Z (n : Z) : spec_float := binary_normalize 53 1024 n 0 false.

Definition Q_of_spec_float (f : spec_float) : Q :=
  match f with
  | S754_finite s m e => (if s then -1 else 1) * inject_Z (Z.pos m) * 2 ^ e
  | _ => 0
  end.

Definition reference_product (k n : Z) : Q :=
  Q_of_spec_float
    (SFmul 53 1024 (SFdiv 53 1024 (binary64_of_Z k) (binary64_of_Z n))
       (binary64_of_Z 100)).

Definition agrees_with_reference (k n : Z) : bool :=
  Qeq_bool (reference_product k n) (float_mul (quotient k n) 100).

Definition upto (n : nat) : list Z := map Z.of_nat (seq 1 n).

End PyFloat.

(** ** The retrying worker: [ProcessingTask.process_image] *)

Module Worker.

(** What a worker thread does that is visible outside it. *)
Inductive event : Type :=
| LoadImage (image_path : string)         (* PDFProcessor.load_image(image_path) *)
| Transcribe                              (* self.openai_client.process_image(...) *)
| Progress (value : Z) (message : string) (* self.progress_updated.emit(value, message) *)
| MSleep (ms : Z).                        (* self.msleep(ms) *)

(** How the two collaborators behave when they are called. The
    transcriber returns a pair [(success, response)] or raises; the
    response is a [str] or [None]. *)
Inductive load_result : Type :=
| Loaded
| LoadRaises (e : exn).

Inductive reply : Type :=
| Returns (success : bool) (response : option string)
| ClientRaises (e : exn).

(** The local variable [retries] and the history of the thread. *)
Record frame : Type := mkFrame { retries : Z; log : list event }.

(** The statements of a worker thread. *)
Definition W (A : Type) : Type := M frame A.

Definition record (ev : event) : W unit :=
  fun s => (Ok tt, mkFrame (retries s) (log s ++ [ev])).

Definition get_retries : W Z := fun s => (Ok (retries s), s).
Definition set_retries (r : Z) : W unit := fun s => (Ok tt, mkFrame r (log s)).

Definition emit (value : Z) (message : string) : W unit := record (Progress value message).
Definition msleep (ms : Z) : W unit := record (MSleep ms).

Section ProcessImage.

(** [self.max_retries]. *)
Variable max_retries : Z.

(** The behaviour of the collaborators for this unit: [load_outcome k] is
    what [PDFProcessor.load_image] does in the [k]-th iteration of the
    loop (counted from 0) and [client_outcome k] what the transcriber
    does if that iteration reaches it. *)
Variable load_outcome : nat -> load_result.
Variable client_outcome : nat -> reply.

Definition load_image (k : nat) (image_path : string) : W unit :=
  record (LoadImage image_path) ;;;
  match load_outcome k with
  | Loaded => ret tt
  | LoadRaises e => raise e
  end.

Definition client_process_image (k : nat) : W (bool * option string) :=
  record Transcribe ;;;
  match client_outcome k with
  | Returns success response => ret (success, response)
  | ClientRaises e => raise e
  end.

(** One iteration of the [while] loop (lines 104-140). [Some o] is
    [return o]; [None] falls through to the next test of the loop. *)
Definition attempt (k : nat) (image_path : string) (page_num : Z) : W (option outcome) :=
  try_except
    (load_image k image_path ;;;
     sr <- client_process_image k ;;
     let '(success, response) := sr in
     if success then ret (Some (true, response))
     else
       r <- get_retries ;;
       set_retries (r + 1) ;;;
       retries <- get_retries ;;
       if retries <=? max_retries then
         let wait_time := 2 ^ retries in
         emit (-1) ("Retrying page " ++ str_of_Z page_num ++ " (attempt "
                    ++ str_of_Z retries ++ "/" ++ str_of_Z max_retries ++ ")...") ;;;
         msleep (wait_time * 1000) ;;;
         ret None
       else ret (Some (false, response)))
    (fun e =>
       r <- get_retries ;;
       set_retries (r + 1) ;;;
       retries <- get_retries ;;
       if retries <=? max_retries then
         let wait_time := 2 ^ retries in
         emit (-1) ("Error on page " ++ str_of_Z page_num ++ ", retrying (attempt "
                    ++ str_of_Z retries ++ "/" ++ str_of_Z max_retries ++ ")...") ;;;
         msleep (wait_time * 1000) ;;;
         ret None
       else ret (Some (false, Some e))).

Definition inspect {A} (a : A) : {b : A | a = b} := exist _ a eq_refl.

(** [while retries <= self.max_retries: ...] from its [k]-th iteration on.
    [Ok (Some o)] is a [return o] inside the loop, [Ok None] is the loop
    left because its test failed. *)
Equations? while_loop (k : nat) (image_path : string) (page_num : Z) (s : frame)
  : result (option outcome) * frame
  by wf (Z.to_nat (max_retries + 1 - retries s)) lt :=
  while_loop k image_path page_num s with inspect (retries s <=? max_retries) := {
    | exist _ false _ => (Ok None, s)
    | exist _ true Hle with inspect (attempt k image_path page_num s) := {
        | exist _ (Ok None, s') Hstep => while_loop (S k) image_path page_num s'
        | exist _ (Ok (Some o), s') _ => (Ok (Some o), s')
        | exist _ (Raised e, s') _ => (Raised e, s') } }.
Proof.
  apply Z.leb_le in Hle.
  unfold attempt, try_except, load_image, client_process_image, bind, emit, msleep,
    record, get_retries, set_retries, ret, raise in Hstep.
  cbn in Hstep.
  destruct (load_outcome k); [destruct (client_outcome k) as [[|] response|e]|];
    cbn in Hstep; try destruct (retries s + 1 <=? max_retries);
    inversion Hstep; cbn; lia.
Qed.

(** [process_image(self, image_path, idx)]. *)
Definition process_image (image_path : string) (idx : nat) : W outcome :=
  let page_num := Z.of_nat idx + 1 in
  set_retries 0 ;;;
  r <- while_loop 0 image_path page_num ;;
  match r with
  | Some o => ret o
  | None => ret (false, Some "Maximum retries exceeded")
  end.

(** A worker thread starts with an empty history. *)
Definition start : frame := mkFrame 0 [].

End ProcessImage.

(** *** Reading the behaviour of the collaborators and a worker's history *)

Section Observations.

Variable max_retries : Z.
Variable load_outcome : nat -> load_result.
Variable client_outcome : nat -> reply.

(** The two progress messages of lines 121 and 135. *)
Definition retry_message (raised : bool) (page_num r : Z) : string :=
  if raised
  then "Error on page " ++ str_of_Z page_num ++ ", retrying (attempt "
       ++ str_of_Z r ++ "/" ++ str_of_Z max_retries ++ ")..."
  else "Retrying page " ++ str_of_Z page_num ++ " (attempt "
       ++ str_of_Z r ++ "/" ++ str_of_Z max_retries ++ ")...".

(** How the [k]-th iteration ends before any back-off: the transcriber
    reported success, or the attempt failed (by a raised exception or by a
    reported failure) with an error text. *)
Inductive verdict : Type :=
| Succeeds (response : option string)
| Fails (raised : bool) (text : option string).

Definition verdict_of (k : nat) : verdict :=
  match load_outcome k with
  | LoadRaises e => Fails true (Some e)
  | Loaded =>
      match client_outcome k with
      | ClientRaises e => Fails true (Some e)
      | Returns true response => Succeeds response
      | Returns false response => Fails false response
      end
  end.

(** Whether the failure of the [k]-th iteration is a raised exception. *)
Definition raised_at (k : nat) : bool :=
  match verdict_of k with
  | Fails raised _ => raised
  | Succeeds _ => false
  end.

(** The collaborator calls of the [k]-th iteration. *)
Definition calls_of (k : nat) (image_path : string) : list event :=
  match load_outcome k with
  | LoadRaises _ => [LoadImage image_path]
  | Loaded => [LoadImage image_path; Transcribe]
  end.

(** The notification and the wait before the retry that brings [retries]
    to [r]. *)
Definition backoff_events (raised : bool) (page_num r : Z) : list event :=
  [Progress (-1) (retry_message raised page_num r); MSleep (2 ^ r * 1000)].

End Observations.

(** The error text of a transcriber call that did not succeed: the
    response it returned, or [str(e)]. *)
Definition client_error (r : reply) : option (option string) :=
  match r with
  | Returns true _ => None
  | Returns false response => Some response
  | ClientRaises e => Some (Some e)
  end.

(** How many attempts a history holds, and how many calls of the
    transcriber. *)
Definition attempts (l : list event) : nat :=
  length (filter (fun ev => match ev with LoadImage _ => true | _ => false end) l).

Definition transcriptions (l : list event) : nat :=
  length (filter (fun ev => match ev with Transcribe => true | _ => false end) l).

(** The waits of a history, in milliseconds. *)
Definition waits (l : list event) : list Z :=
  flat_map (fun ev => match ev with MSleep ms => [ms] | _ => [] end) l.

(** A notification with the sentinel value. *)
Definition sentinel (ev : event) : Prop :=
  match ev with Progress value _ => value = -1 | _ => True end.

(** The collaborators that report every failure instead of raising it: the
    image always loads, and where the original attempt raised [e] (while
    loading or inside the transcriber) the transcriber returns
    [(False, e)]. *)
Definition always_loaded (k : nat) : load_result := Loaded.

Definition as_reported (load_outcome : nat -> load_result)
  (client_outcome : nat -> reply) (k : nat) : reply :=
  match load_outcome k with
  | LoadRaises e => Returns false (Some e)
  | Loaded =>
      match client_outcome k with
      | ClientRaises e => Returns false (Some e)
      | Returns success response => Returns success response
      end
  end.

(** The retry and back-off path of a history: where an attempt starts,
    which value is notified and how long the thread waits. *)
Inductive step : Type :=
| Attempt
| Notify (value : Z)
| Wait (ms : Z).

Definition retry_path (l : list event) : list step :=
  flat_map (fun ev => match ev with
                      | LoadImage _ => [Attempt]
                      | Transcribe => []
                      | Progress value _ => [Notify value]
                      | MSleep ms => [Wait ms]
                      end) l.

End Worker.

(** ** The formatter: [ProcessingTask.format_results] *)

(** One tuple [(idx, success, text, page_num)] of [results]; the text is
    a [str] or [None], as in the pair of the worker. *)
Record entry : Type := mkEntry {
  idx : nat;
  success : bool;
  text : option string;
  page_num : Z
}.

Module Formatter.

Definition nl : string := String (ascii_of_nat 10) EmptyString.

(** [self.separator], set in [__init__]. *)
Definition separator : string := nl ++ nl.

(** The f-strings of lines 155 and 157. *)
Definition error_text (output_format : string) (page_num : Z) (text : string) : string :=
  if String.eqb output_format "md"
  then "> **Error processing page " ++ str_of_Z page_num ++ ":**" ++ nl
       ++ ">" ++ nl
       ++ "> ```json" ++ nl
       ++ "> " ++ text ++ nl
       ++ "> ```"
  else "--- Error processing page " ++ str_of_Z page_num ++ " ---" ++ nl ++ nl
       ++ text ++ nl ++ nl
       ++ "---".

(** [f"{text}"]: a [str] as it is, [None] by its name. *)
Definition format_value (text : option string) : string :=
  match text with
  | Some s => s
  | None => "None"
  end.

(** The items of [output] when each is a [str]; [i] is the index of the
    first of them. [str.join] raises [TypeError] at the first item that is
    not a [str]. *)
Fixpoint items_from (i : nat) (output : list (option string)) : result (list string) :=
  match output with
  | [] => Ok []
  | Some s :: rest =>
      match items_from (S i) rest with
      | Ok items => Ok (s :: items)
      | Raised e => Raised e
      end
  | None :: _ =>
      Raised ("sequence item " ++ str_of_Z (Z.of_nat i)
              ++ ": expected str instance, NoneType found")
  end.

(** [separator.join(output)]. *)
Definition join (separator : string) (output : list (option string)) : result string :=
  match items_from 0 output with
  | Ok items => Ok (String.concat separator items)
  | Raised e => Raised e
  end.

(** [format_results(self, results)]: the loop appends one block per tuple
    to [output], then [separator.join(output)]. *)
Definition format_results (output_format : string) (results : list entry) : result string :=
  let output :=
    fold_left
      (fun output e =>
         if success e then (output ++ [text e])%list
         else (output ++ [Some (error_text output_format (page_num e)
                                  (format_value (text e)))])%list)
      results [] in
  join separator output.

(** What the loop appends for one tuple. *)
Definition block (output_format : string) (e : entry) : option string :=
  if success e then text e
  else Some (error_text output_format (page_num e) (format_value (text e))).

(** The successes among the results carry a [str] as their text. *)
Definition successes_carry_text (results : list entry) : Prop :=
  Forall (fun e => success e = true -> text e <> None) results.





End Formatter.

(** ** The scheduler: [ProcessingTask.run] *)

Module Scheduler.

(** The variables of [run] and what it has emitted on [progress_updated]. *)
Record frame : Type := mkFrame {
  results : list entry;
  emitted : list (Z * string)
}.

Definition R (A : Type) : Type := M frame A.

Definition append (e : entry) : R unit :=
  fun s => (Ok tt, mkFrame (results s ++ [e]) (emitted s)).

Definition emit (value : Z) (message : string) : R unit :=
  fun s => (Ok tt, mkFrame (results s) (emitted s ++ [(value, message)])).

(** [results.sort(key=lambda x: x[0])]: a stable sort on [idx]. *)
Fixpoint insert (e : entry) (l : list entry) : list entry :=
  match l with
  | [] => [e]
  | x :: l' => if (idx e <? idx x)%nat then e :: l else x :: insert e l'
  end.

Definition sort (l : list entry) : list entry :=
  fold_left (fun sorted e => insert e sorted) l [].

Definition sort_results : R unit :=
  fun s => (Ok tt, mkFrame (sort (results s)) (emitted s)).

Definition get_results : R (list entry) := fun s => (Ok (results s), s).

(** [enumerate(l)]. *)
Definition enumerate {A : Type} (l : list A) : list (nat * A) :=
  combine (seq 0 (length l)) l.

(** The signal [progress_updated] is emitted by several threads. A stream
    of emissions is a merge of theirs: it takes, one at a time, the next
    emission of some thread. *)
Inductive interleaved {A : Type} : list (list A) -> list A -> Prop :=
| interleaved_done (threads : list (list A)) :
    Forall (fun l => l = []) threads ->
    interleaved threads []
| interleaved_next (before : list (list A)) (x : A) (l : list A)
    (after : list (list A)) (stream : list A) :
    interleaved (before ++ l :: after) stream ->
    interleaved (before ++ (x :: l) :: after) (x :: stream).

Section Run.

(** [len(self.images)] and [self.output_format]. *)
Variable n_images : nat.
Variable output_format : string.

(** [future i] is what [future.result()] gives for the future submitted for
    page [i]: the pair its worker returned, or the exception it raised. *)
Variable future : nat -> result outcome.

Definition future_result (i : nat) : R outcome := fun s => (future i, s).

(** The body of the loop over [as_completed] (lines 74-87) for the [i]-th
    future to complete, which is the future of page [idx]. *)
Definition collect (i idx : nat) : R unit :=
  let page_num := Z.of_nat idx + 1 in
  try_except
    (st <- future_result idx ;;
     let '(success, text) := st in
     append (mkEntry idx success text page_num) ;;;
     q <- PyFloat.true_div (Z.of_nat i + 1) (Z.of_nat n_images) ;;
     let progress_percent := PyFloat.int_of_float (PyFloat.float_mul q 100) in
     emit progress_percent
       ("Processed page " ++ str_of_Z page_num ++ "/" ++ str_of_Z (Z.of_nat n_images)))
    (fun e => append (mkEntry idx false (Some e) page_num)).

(** [for i, future in enumerate(as_completed(future_to_image))], from the
    [i]-th completion on; [order] lists the pages in the order in which
    their futures complete. [as_completed] yields every submitted future
    once, so for a batch of [N] pages [order] is a permutation of
    [0 .. N-1]; the properties below assume no more of it. *)
Fixpoint as_completed_loop (i : nat) (order : list nat) : R unit :=
  match order with
  | [] => ret tt
  | idx :: order' => collect i idx ;;; as_completed_loop (S i) order'
  end.

(** [self.format_results(results)]. *)
Definition format_results (results : list entry) : R string :=
  fun s => (Formatter.format_results output_format results, s).

(** [run(self)] once every page is submitted; it returns [final_text], the
    argument of [processing_complete.emit], and emits nothing on that
    signal when it raises. *)
Definition run_from (order : list nat) : R string :=
  as_completed_loop 0 order ;;;
  sort_results ;;;
  results <- get_results ;;
  format_results results.

End Run.

(** The percentage as the specification words it,
    [round(completedCount / totalCount * 100)]: the float product rounded
    to the nearest integer. *)
Definition rounded_percent (k n : Z) : Z :=
  PyFloat.rne (PyFloat.float_mul (PyFloat.quotient k n) 100).

(** The whole task: the futures are the workers' results. [load_outcome idx]
    and [client_outcome idx] are the behaviour of the collaborators towards
    the worker of page [idx]. *)
Section Task.

Variable images : list string.
Variable max_retries : Z.
Variable output_format : string.
Variable load_outcome : nat -> nat -> Worker.load_result.
Variable client_outcome : nat -> nat -> Worker.reply.

(** [executor.submit(self.process_image, image_path, idx)]. *)
Definition submit (idx : nat) : result outcome * Worker.frame :=
  Worker.process_image max_retries (load_outcome idx) (client_outcome idx)
    (nth idx images EmptyString) idx Worker.start.

Definition nothing : frame := mkFrame [] [].

Definition run (order : list nat) : result string * frame :=
  run_from (length images) output_format (fun idx => fst (submit idx)) order nothing.

(** What the worker of page [idx] emits on [progress_updated]. *)
Definition worker_progress (idx : nat) : list (Z * string) :=
  flat_map (fun ev => match ev with
                      | Worker.Progress value message => [(value, message)]
                      | _ => []
                      end)
           (Worker.log (snd (submit idx))).

(** The emissions on [progress_updated] during [run]: those of the
    scheduler and those of every worker, merged. *)
Definition progress_stream (order : list nat) (stream : list (Z * string)) : Prop :=
  interleaved (emitted (snd (run order)) :: map worker_progress (seq 0 (length images)))
    stream.

(** The specification's reading of the percentages of a run: after the
    [k]-th outcome the scheduler notifies [round(k / N * 100)]. *)
Definition emits_rounded_percent (order : list nat) : Prop :=
  forall k value message,
    nth_error (emitted (snd (run order))) k = Some (value, message) ->
    value = rounded_percent (Z.of_nat k + 1) (Z.of_nat (length images)).

End Task.

(** The values shown by the progress bar: [update_progress] skips the
    sentinel. *)
Definition shown (stream : list (Z * string)) : list Z :=
  filter (fun value => negb (value =? -1)) (map fst stream).

(** The tuple the loop appends for page [idx]. *)
Definition entry_of (future : nat -> result outcome) (idx : nat) : entry :=
  match future idx with
  | Ok (success, text) => mkEntry idx success text (Z.of_nat idx + 1)
  | Raised e => mkEntry idx false (Some e) (Z.of_nat idx + 1)
  end.

(** The message of line 84. *)
Definition processed_message (n_images idx : nat) : string :=
  "Processed page " ++ str_of_Z (Z.of_nat idx + 1) ++ "/" ++ str_of_Z (Z.of_nat n_images).

(** What the loop emits from its [i]-th iteration on: one notification for
    every future that yields a result. *)
Fixpoint emissions_from (n_images : nat) (future : nat -> result outcome)
  (i : nat) (order : list nat) : list (Z * string) :=
  match order with
  | [] => []
  | idx :: order' =>
      match future idx with
      | Ok _ => [(PyFloat.percent (Z.of_nat i + 1) (Z.of_nat n_images),
                  processed_message n_images idx)]
      | Raised _ => []
      end ++ emissions_from n_images future (S i) order'
  end.

End Scheduler.

(** ** Python strings *)

Module PyStr.

(** [s[n:]]. *)
Fixpoint drop (n : nat) (s : string) : string :=
  match n, s with
  | O, _ => s
  | S n', String _ s' => drop n' s'
  | S _, EmptyString => EmptyString
  end.

(** [p in s]. *)
Fixpoint occurs (p s : string) : bool :=
  prefix p s ||
  match s with
  | EmptyString => false
  | String _ s' => occurs p s'
  end.

(** [s.replace(old, new)] for an [old] that is not empty: from left to
    right, every occurrence of [old] that does not overlap an earlier one
    gives way to [new]. *)
Equations? replace_from (old new : string) (s : string) : string
  by wf (String.length s) lt :=
  replace_from old new EmptyString := EmptyString;
  replace_from old new (String c s') with Worker.inspect (prefix old (String c s')) := {
    | exist _ true _ => new ++ replace_from old new (drop (String.length old - 1) s')
    | exist _ false _ => String c (replace_from old new s') }.
Proof.
  all: cbn; try lia.
  assert (H : forall n t, (String.length (drop n t) <= String.length t)%nat).
  { induction n as [|n IH]; intro t; cbn; [lia|].
    destruct t as [|x t]; cbn; [lia|]. specialize (IH t). lia. }
  specialize (H (String.length old - 1)%nat s'). lia.
Qed.

(** With an empty [old], [new] is put before every character and at the
    end. *)
Fixpoint intersperse (new s : string) : string :=
  match s with
  | EmptyString => new
  | String c s' => new ++ String c (intersperse new s')
  end.

(** [s.replace(old, new)]. *)
Definition replace (old new s : string) : string :=
  match old with
  | EmptyString => intersperse new s
  | _ => replace_from old new s
  end.


(** Whether the character [c] stands in [s]. *)
Fixpoint has_char (c : ascii) (s : string) : bool :=
  match s with
  | EmptyString => false
  | String x s' => Ascii.eqb c x || has_char c s'
  end.

(** The text made of the two characters [a] and [b]. *)
Definition two (a b : ascii) : string := String a (String b EmptyString).

End PyStr.

(** ** The transcriber: [OpenAIClient.process_image] *)

Module OpenAIClient.

(** The attributes of the client that [process_image] branches on, with the
    types [ConfigDialog.get_config] gives them. *)
Record client : Type := mkClient {
  max_tokens : Z;
  stream : bool;
  repair_formula_tag : bool
}.

(** What the service sends back. A chunk of a stream and a completion hold
    one content per choice; a content may be [None]. *)
Definition choices : Type := list (option string).

(** A stream: the chunks it delivers, and the exception that ends it if it
    breaks. *)
Record streaming : Type := mkStreaming {
  chunks : list choices;
  broken : option exn
}.

(** [x.choices[0]]. *)
Definition first_choice (x : choices) : result (option string) :=
  match x with
  | [] => Raised "list index out of range"
  | content :: _ => Ok content
  end.

(** [for chunk in completion: ...], lines 73-76. *)
Fixpoint iterate (message_content : string) (completion : list choices) : result string :=
  match completion with
  | [] => Ok message_content
  | chunk :: rest =>
      match first_choice chunk with
      | Raised e => Raised e
      | Ok None => iterate message_content rest
      | Ok (Some content) => iterate (message_content ++ content) rest
      end
  end.

(** The four replacements of lines 80-85 and 95-100. *)
Definition repair (message_content : string) : string :=
  PyStr.replace "\]" "$$"
    (PyStr.replace "\[" "$$"
       (PyStr.replace "\)" "$"
          (PyStr.replace "\(" "$" message_content))).

Section ProcessImage.

Variable self : client.

(** [self.client.chat.completions.create] on [params]: what it gives when
    [params] asks for a stream, and what it gives otherwise. *)
Variable create_stream : result streaming.
Variable create : result choices.

(** The body of the first [try] (lines 71-86). *)
Definition streamed : result string :=
  match create_stream with
  | Raised e => Raised e
  | Ok completion =>
      match iterate EmptyString (chunks completion) with
      | Raised e => Raised e
      | Ok message_content =>
          match broken completion with
          | Some e => Raised e
          | None =>
              Ok (if repair_formula_tag self then repair message_content
                  else message_content)
          end
      end
  end.

(** The body of the second [try] (lines 90-101); [None] is Python's. *)
Definition completed : result (option string) :=
  match create with
  | Raised e => Raised e
  | Ok completion =>
      match first_choice completion with
      | Raised e => Raised e
      | Ok message_content =>
          if repair_formula_tag self
          then match message_content with
               | None => Raised "'NoneType' object has no attribute 'replace'"
               | Some text => Ok (Some (repair text))
               end
          else Ok message_content
      end
  end.

(** [process_image(self, image_bytes, system_prompt, user_prompt)]: the
    pair [(success, response_text)]. The lines before the [try] (38-67)
    encode the bytes of the image and build [params]; they call nothing
    that is outside and are not part of the pair. In completion mode
    without repair the content of the message is returned as it is, also
    when it is [None]. *)
Definition process_image : bool * option string :=
  if stream self
  then match streamed with
       | Ok message_content => (true, Some message_content)
       | Raised e => (false, Some e)
       end
  else match completed with
       | Ok message_content => (true, message_content)
       | Raised e => (false, Some e)
       end.

End ProcessImage.

(** What the worker gets from [self.openai_client.process_image(...)]
    when this client is its transcriber. Lines 38-67 build [params] from
    the bytes of the image and the attributes of the client, and raise
    nothing. *)
Definition as_reply (self : client) (create_stream : result streaming)
  (create : result choices) : Worker.reply :=
  let '(success, response_text) := process_image self create_stream create in
  Worker.Returns success response_text.

(** The four delimiters that [repair] replaces. *)
Definition delimiters : list string := ["\("; "\)"; "\["; "\]"].

(** The text a stream delivers: the contents of the first choices, one
    after the other, those that are [None] left out. *)
Fixpoint delivered (completion : list choices) : string :=
  match completion with
  | [] => EmptyString
  | (Some content :: _) :: rest => content ++ delivered rest
  | _ :: rest => delivered rest
  end.

End OpenAIClient.

(** ** JSON values, Python dicts and the files under [data/] *)

(** What [json.load] gives and [json.dump] takes. *)
#[warnings="-register-all"]
Inductive json : Type :=
| JNull
| JBool (b : bool)
| JInt (n : Z)
| JFloat (x : Q)
| JString (s : string)
| JList (items : list json)
| JDict (entries : list (string * json)).

(** A [dict] with text keys: its items in insertion order, each key once. *)
Definition dict : Type := list (string * json).

Module PyDict.

(** [d.get(key)]. *)
Fixpoint get (d : dict) (key : string) : option json :=
  match d with
  | [] => None
  | (k, v) :: d' => if String.eqb k key then Some v else get d' key
  end.

(** [d.get(key, default)]. *)
Definition get_default (d : dict) (key : string) (default : json) : json :=
  match get d key with
  | Some v => v
  | None => default
  end.

(** [d[key] = v]. *)
Fixpoint set (d : dict) (key : string) (v : json) : dict :=
  match d with
  | [] => [(key, v)]
  | (k, x) :: d' => if String.eqb k key then (k, v) :: d' else (k, x) :: set d' key v
  end.

(** [x == s] for a text [s]: only a text equals a text. *)
Definition is_text (x : json) (s : string) : bool :=
  match x with
  | JString t => String.eqb t s
  | _ => false
  end.

End PyDict.

(** The files the configuration is kept in. Every file holds a JSON object
    (what [json.dump] wrote into it), [json.load] gives back what
    [json.dump] took, two paths name the same file when they are the same
    text, and the calls of the operating system succeed. A directory
    holds files only. *)
Module Disk.

Definition disk : Type := list (string * dict).

(** [json.load] on the file at [path], if it is there. *)
Fixpoint read (files : disk) (path : string) : option dict :=
  match files with
  | [] => None
  | (p, content) :: files' => if String.eqb p path then Some content else read files' path
  end.

(** [os.path.exists(path)]. *)
Definition path_exists (files : disk) (path : string) : bool :=
  match read files path with
  | Some _ => true
  | None => false
  end.

(** [with open(path, "w") as f: json.dump(content, f)]. *)
Fixpoint write (files : disk) (path : string) (content : dict) : disk :=
  match files with
  | [] => [(path, content)]
  | (p, c) :: files' =>
      if String.eqb p path then (p, content) :: files'
      else (p, c) :: write files' path content
  end.

(** [os.remove(path)]. *)
Definition remove (files : disk) (path : string) : disk :=
  filter (fun entry => negb (String.eqb (fst entry) path)) files.

(** [path] without the [start] it begins with. *)
Fixpoint strip_prefix (start path : string) : option string :=
  match start, path with
  | EmptyString, _ => Some path
  | String a start', String b path' =>
      if Ascii.eqb a b then strip_prefix start' path' else None
  | String _ _, EmptyString => None
  end.

(** [os.listdir(directory)]: the names of the files right under
    [directory], in the order of the disk. *)
Definition listdir (files : disk) (directory : string) : list string :=
  flat_map (fun entry =>
              match strip_prefix (directory ++ "/") (fst entry) with
              | Some name => if PyStr.has_char "/" name then [] else [name]
              | None => []
              end)
           files.

End Disk.

(** ** The configuration: [ConfigManager] *)

Module ConfigManager.

(** [self.config_file] and [self.assistants_dir]. *)
Definition config_file : string := "data/config.json".
Definition assistants_dir : string := "data/assistants".

(** [self.config], and the disk. *)
Record state : Type := mkState {
  config : dict;
  files : Disk.disk
}.

(** The default configuration of [_load_config]. *)
Definition default_config : dict :=
  [("openai",
    JDict [("model_id", JString "gpt-4o");
           ("temperature", JFloat (PyFloat.round (7 # 10)));
           ("top_k", JInt 40);
           ("max_tokens", JInt 1000);
           ("api_url", JString "https://api.openai.com/v1");
           ("api_key", JString EmptyString)]);
   ("processing", JDict [("parallelism", JInt 3); ("max_retries", JInt 3)]);
   ("last_assistant", JString EmptyString);
   ("output_format", JString "md")].

(** [s.endswith(suffix)]. *)
Definition endswith (s suffix : string) : bool :=
  (String.length suffix <=? String.length s)%nat &&
  String.eqb (PyStr.drop (String.length s - String.length suffix) s) suffix.

(** [_save_config(self, config)]. *)
Definition _save_config (content : dict) (st : state) : state :=
  mkState (config st) (Disk.write (files st) config_file content).

(** [_load_config(self)]: the configuration and the disk it leaves. The
    file is read when it is there. *)
Definition _load_config (disk : Disk.disk) : dict * Disk.disk :=
  match Disk.read disk config_file with
  | Some content => (content, disk)
  | None => (default_config, Disk.write disk config_file default_config)
  end.

(** [ConfigManager()]: [__init__] on the disk as it is found. The
    directories [_ensure_dirs_exist] makes hold no file. *)
Definition init (disk : Disk.disk) : state :=
  let '(content, disk') := _load_config disk in
  mkState content disk'.

(** [update_config(self, config)]. *)
Definition update_config (content : dict) (st : state) : state :=
  _save_config content (mkState content (files st)).

Definition get_openai_config (st : state) : json :=
  PyDict.get_default (config st) "openai" (JDict []).

Definition get_processing_config (st : state) : json :=
  PyDict.get_default (config st) "processing" (JDict []).

(** [get_assistants(self)]. *)
Definition get_assistants (st : state) : list string :=
  map (fun f => PyStr.replace ".json" EmptyString f)
      (filter (fun f => endswith f ".json") (Disk.listdir (files st) assistants_dir)).

(** The path [f"{self.assistants_dir}/{name}.json"]. *)
Definition assistant_path (name : string) : string :=
  assistants_dir ++ "/" ++ name ++ ".json".

(** [save_assistant(self, name, system_prompt, user_prompt)]. *)
Definition save_assistant (name : string) (system_prompt user_prompt : json) (st : state)
  : state :=
  let assistant := [("system_prompt", system_prompt); ("user_prompt", user_prompt)] in
  mkState (config st) (Disk.write (files st) (assistant_path name) assistant).

(** [load_assistant(self, name)]. *)
Definition load_assistant (name : string) (st : state) : option dict :=
  let path := assistant_path name in
  if Disk.path_exists (files st) path then Disk.read (files st) path else None.

(** [delete_assistant(self, name)]: what it returns and the state it
    leaves. *)
Definition delete_assistant (name : string) (st : state) : bool * state :=
  let path := assistant_path name in
  if Disk.path_exists (files st) path
  then (true, mkState (config st) (Disk.remove (files st) path))
  else (false, st).

(** [set_last_assistant(self, name)]. *)
Definition set_last_assistant (name : string) (st : state) : state :=
  let st' := mkState (PyDict.set (config st) "last_assistant" (JString name)) (files st) in
  _save_config (config st') st'.

Definition get_last_assistant (st : state) : json :=
  PyDict.get_default (config st) "last_assistant" (JString EmptyString).

(** [set_output_format(self, format_type)]. *)
Definition set_output_format (format_type : string) (st : state) : state :=
  let st' := mkState (PyDict.set (config st) "output_format" (JString format_type))
               (files st) in
  _save_config (config st') st'.

Definition get_output_format (st : state) : json :=
  PyDict.get_default (config st) "output_format" (JString "md").

(** The configuration is on the disk as it is in memory. *)
Definition saved (st : state) : Prop :=
  Disk.read (files st) config_file = Some (config st).

(** A name that is one component of a path and holds no [.json]. *)
Definition plain (name : string) : Prop :=
  PyStr.has_char "/" name = false /\ PyStr.occurs ".json" name = false.

(** The calls that change the configuration or the disk. *)
Inductive call : Type :=
| UpdateConfig (content : dict)
| SaveAssistant (name : string) (system_prompt user_prompt : json)
| DeleteAssistant (name : string)
| SetLastAssistant (name : string)
| SetOutputFormat (format_type : string).

Definition perform (c : call) (st : state) : state :=
  match c with
  | UpdateConfig content => update_config content st
  | SaveAssistant name system_prompt user_prompt =>
      save_assistant name system_prompt user_prompt st
  | DeleteAssistant name => snd (delete_assistant name st)
  | SetLastAssistant name => set_last_assistant name st
  | SetOutputFormat format_type => set_output_format format_type st
  end.

(** The state after the calls, one after the other. *)
Definition performed (calls : list call) (st : state) : state :=
  fold_left (fun s c => perform c s) calls st.

(** The assistants the calls name are named as files are: no [/]. *)
Definition names_file (c : call) : Prop :=
  match c with
  | SaveAssistant name _ _ => PyStr.has_char "/" name = false
  | DeleteAssistant name => PyStr.has_char "/" name = false
  | _ => True
  end.

End ConfigManager.

(** ** The dialog of the assistants: [AssistantManager] *)

Module AssistantManager.

(** [self.config_manager], the items of [self.assistant_list], and the
    warnings [QMessageBox.warning] has shown, the latest first. *)
Record dialog : Type := mkDialog {
  config_manager : ConfigManager.state;
  assistant_list : list string;
  warnings : list (string * string)
}.

Definition warning (title text : string) (self : dialog) : dialog :=
  mkDialog (config_manager self) (assistant_list self) ((title, text) :: warnings self).

(** [populate_assistant_list(self)]. *)
Definition populate_assistant_list (self : dialog) : dialog :=
  mkDialog (config_manager self)
           (ConfigManager.get_assistants (config_manager self))
           (warnings self).

(** [AssistantManager(config_manager)]: [setup_ui] fills the list. *)
Definition open (manager : ConfigManager.state) : dialog :=
  populate_assistant_list (mkDialog manager [] []).

(** [name in names]. *)
Definition member (name : string) (names : list string) : bool :=
  existsb (String.eqb name) names.

(** The two prompts as [rename_assistant] and [clone_assistant] read
    them. *)
Definition prompts (assistant : dict) : json * json :=
  (PyDict.get_default assistant "system_prompt" (JString EmptyString),
   PyDict.get_default assistant "user_prompt" (JString EmptyString)).

(** [rename_assistant(self)]. [current_item] is what
    [self.assistant_list.currentItem()] gives, the text of the item if
    there is one, and [answer] is the pair that [QInputDialog.getText]
    returns. *)
Definition rename_assistant (current_item : option string) (answer : string * bool)
  (self : dialog) : dialog :=
  match current_item with
  | None =>
      warning "No Assistant Selected" "Please select an assistant to rename." self
  | Some current_name =>
      let '(new_name, ok) := answer in
      if ok && negb (String.eqb new_name EmptyString)
         && negb (String.eqb new_name current_name)
      then
        if member new_name (ConfigManager.get_assistants (config_manager self))
        then warning "Name Exists"
               ("An assistant named '" ++ new_name ++ "' already exists.") self
        else
          match ConfigManager.load_assistant current_name (config_manager self) with
          | Some ((_ :: _) as assistant) =>
              let m1 := ConfigManager.save_assistant new_name
                          (fst (prompts assistant)) (snd (prompts assistant))
                          (config_manager self) in
              let m2 := snd (ConfigManager.delete_assistant current_name m1) in
              let m3 :=
                if PyDict.is_text (ConfigManager.get_last_assistant m2) current_name
                then ConfigManager.set_last_assistant new_name m2
                else m2 in
              populate_assistant_list (mkDialog m3 (assistant_list self) (warnings self))
          | _ => self
          end
      else self
  end.

(** [delete_assistant(self)]. [yes] tells whether the reply to the
    question is [QMessageBox.StandardButton.Yes]. *)
Definition delete_assistant (current_item : option string) (yes : bool) (self : dialog)
  : dialog :=
  match current_item with
  | None =>
      warning "No Assistant Selected" "Please select an assistant to delete." self
  | Some assistant_name =>
      if yes
      then
        let m1 := snd (ConfigManager.delete_assistant assistant_name (config_manager self)) in
        let m2 :=
          if PyDict.is_text (ConfigManager.get_last_assistant m1) assistant_name
          then ConfigManager.set_last_assistant EmptyString m1
          else m1 in
        populate_assistant_list (mkDialog m2 (assistant_list self) (warnings self))
      else self
  end.

(** [clone_assistant(self)]. *)
Definition clone_assistant (current_item : option string) (answer : string * bool)
  (self : dialog) : dialog :=
  match current_item with
  | None =>
      warning "No Assistant Selected" "Please select an assistant to clone." self
  | Some source_name =>
      let '(new_name, ok) := answer in
      if ok && negb (String.eqb new_name EmptyString)
      then
        if member new_name (ConfigManager.get_assistants (config_manager self))
        then warning "Name Exists"
               ("An assistant named '" ++ new_name ++ "' already exists.") self
        else
          match ConfigManager.load_assistant source_name (config_manager self) with
          | Some ((_ :: _) as assistant) =>
              let m1 := ConfigManager.save_assistant new_name
                          (fst (prompts assistant)) (snd (prompts assistant))
                          (config_manager self) in
              populate_assistant_list (mkDialog m1 (assistant_list self) (warnings self))
          | _ => self
          end
      else self
  end.

(** What the user does in the dialog: a button, with the item that is
    selected and the answer given to the question the button asks. *)
Inductive action : Type :=
| Rename (current_item : option string) (answer : string * bool)
| Delete (current_item : option string) (yes : bool)
| Clone (current_item : option string) (answer : string * bool).

(** The slot of the button. *)
Definition clicked (a : action) (self : dialog) : dialog :=
  match a with
  | Rename current_item answer => rename_assistant current_item answer self
  | Delete current_item yes => delete_assistant current_item yes self
  | Clone current_item answer => clone_assistant current_item answer self
  end.

(** The dialog after the actions, one after the other. *)
Definition session (actions : list action) (self : dialog) : dialog :=
  fold_left (fun d a => clicked a d) actions self.

(** The names an action brings: the one typed and that of the item
    selected. *)
Definition names (a : action) : list string :=
  let selected (current_item : option string) :=
    match current_item with
    | Some name => [name]
    | None => []
    end in
  match a with
  | Rename current_item answer => fst answer :: selected current_item
  | Delete current_item _ => selected current_item
  | Clone current_item answer => fst answer :: selected current_item
  end.

(** The names are names of files: they hold no [/]. *)
Definition well_named (actions : list action) : Prop :=
  Forall (fun a => Forall (fun name => PyStr.has_char "/" name = false) (names a)) actions.

(** The configuration that renaming leaves when it goes through. *)
Definition renamed (current_name new_name : string) (assistant : dict)
  (m : ConfigManager.state) : ConfigManager.state :=
  let m1 := ConfigManager.save_assistant new_name
              (fst (prompts assistant)) (snd (prompts assistant)) m in
  let m2 := snd (ConfigManager.delete_assistant current_name m1) in
  if PyDict.is_text (ConfigManager.get_last_assistant m2) current_name
  then ConfigManager.set_last_assistant new_name m2
  else m2.

(** The configuration that deleting leaves when it is confirmed. *)
Definition deleted (assistant_name : string) (m : ConfigManager.state)
  : ConfigManager.state :=
  let m1 := snd (ConfigManager.delete_assistant assistant_name m) in
  if PyDict.is_text (ConfigManager.get_last_assistant m1) assistant_name
  then ConfigManager.set_last_assistant EmptyString m1
  else m1.

(** What a click leaves of the configuration: it is as it was, or an
    assistant was renamed, deleted or cloned. *)
Inductive outcome_of (m : ConfigManager.state) : ConfigManager.state -> Prop :=
| Unchanged : outcome_of m m
| Renamed (current_name new_name : string) (e : string * json) (assistant : dict) :
    new_name <> current_name ->
    outcome_of m (renamed current_name new_name (e :: assistant) m)
| Deleted (assistant_name : string) : outcome_of m (deleted assistant_name m)
| Cloned (new_name : string) (e : string * json) (assistant : dict) :
    outcome_of m (ConfigManager.save_assistant new_name
                    (fst (prompts (e :: assistant))) (snd (prompts (e :: assistant))) m).

(** The assistant that the configuration remembers, if it names one, can
    be loaded. *)
Definition last_assistant_loads (manager : ConfigManager.state) : Prop :=
  forall name,
    ConfigManager.get_last_assistant manager = JString name ->
    name <> EmptyString ->
    ConfigManager.load_assistant name manager <> None.

End AssistantManager.

(** ** The pages of a document: [PDFProcessor.convert_pdf_to_images] *)

Module PDFProcessor.

(** [n] characters [0]. *)
Fixpoint zeros (n : nat) : string :=
  match n with
  | O => EmptyString
  | S n' => String "0" (zeros n')
  end.

(** [f"{n:03d}"] for an [n] that is not negative: [str(n)], with zeros
    before it up to three characters. *)
Definition format_03d (n : Z) : string :=
  let digits := str_of_Z n in
  zeros (3 - String.length digits)%nat ++ digits.

(** [f"page_{page_num + 1:03d}.png"]. *)
Definition page_file (page_num : nat) : string :=
  "page_" ++ format_03d (Z.of_nat page_num + 1) ++ ".png".

(** The number that a text of digits writes. *)
Definition number_of_digits (s : string) : option Z :=
  option_map Z.of_uint (NilEmpty.uint_of_string s).

Section Convert.

(** [os.path.join], and the directory [tempfile.mkdtemp()] makes. *)
Variable join : string -> string -> string.
Variable mkdtemp : string.

(** The paths that the loop of lines 24-35 appends for a document of
    [pages] pages. *)
Definition image_paths_of (output_dir : string) (pages : nat) : list string :=
  map (fun page_num => join output_dir (page_file page_num)) (seq 0 pages).

(** [convert_pdf_to_images(pdf_path, output_dir)]. [document] is what
    [fitz] makes of the file at [pdf_path]: the number of its pages when the
    directory is there, the file
    opens and every page is rendered and saved, the exception raised
    otherwise. An [output_dir] that is [None] counts as empty. *)
Definition convert_pdf_to_images (document : result nat) (output_dir : string)
  : result (list string) :=
  let output_dir := if String.eqb output_dir EmptyString then mkdtemp else output_dir in
  match document with
  | Ok pages => Ok (image_paths_of output_dir pages)
  | Raised e => Raised e
  end.

End Convert.

End PDFProcessor.

(** ** Paths as POSIX has them: [posixpath] *)

Module PosixPath.

(** [posixpath.join(a, b)]. *)
Definition join (a b : string) : string :=
  if prefix "/" b then b
  else if String.eqb a EmptyString || ConfigManager.endswith a "/" then a ++ b
       else a ++ "/" ++ b.

(** [p[:p.rfind("/") + 1]]. *)
Fixpoint head (p : string) : string :=
  match p with
  | EmptyString => EmptyString
  | String c p' => if PyStr.has_char "/" p then String c (head p') else EmptyString
  end.

(** [s.rstrip("/")]. *)
Fixpoint rstrip (s : string) : string :=
  match s with
  | EmptyString => EmptyString
  | String c s' =>
      let rest := rstrip s' in
      if Ascii.eqb c "/" && String.eqb rest EmptyString then EmptyString
      else String c rest
  end.

(** [posixpath.dirname(p)]. *)
Definition dirname (p : string) : string :=
  if String.eqb (rstrip (head p)) EmptyString then head p else rstrip (head p).

(** [posixpath.basename(p)]. *)
Definition basename (p : string) : string :=
  PyStr.drop (String.length (head p)) p.

(** [s] from its last dot on, empty if it has none. *)
Fixpoint from_last_dot (s : string) : string :=
  match s with
  | EmptyString => EmptyString
  | String c s' =>
      if PyStr.has_char "." s' then from_last_dot s'
      else if Ascii.eqb c "." then s else EmptyString
  end.

(** [s.lstrip(".")]. *)
Fixpoint lstrip_dots (s : string) : string :=
  match s with
  | String c s' => if Ascii.eqb c "." then lstrip_dots s' else s
  | EmptyString => EmptyString
  end.

(** [s.lower()] for a text of ASCII characters. *)
Definition lower_char (c : ascii) : ascii :=
  let n := nat_of_ascii c in
  if ((65 <=? n) && (n <=? 90))%nat then ascii_of_nat (n + 32) else c.

Fixpoint lower (s : string) : string :=
  match s with
  | EmptyString => EmptyString
  | String c s' => String (lower_char c) (lower s')
  end.

(** [posixpath.splitext(p)[1].lower()]: the dots a name starts with are
    no extension. *)
Definition ext (p : string) : string :=
  lower (from_last_dot (lstrip_dots (basename p))).

End PosixPath.

(** ** The window: the slots of [MainWindow] that process a file *)

Module MainWindow.

(** The widgets the slots write to. The texts of the two labels are what
    [QLabel.text()] gives, the text last set; [output_text] is what
    [self.output_text.toPlainText()] gives, the text that [save_output]
    writes. *)
Record widgets : Type := mkWidgets {
  file_path_label : string;
  progress_bar_value : Z;
  progress_bar_visible : bool;
  progress_status_text : string;
  progress_status_visible : bool;
  output_text : string;
  process_btn_enabled : bool;
  save_output_btn_enabled : bool
}.

(** [QProgressBar.setValue], the range being the one a [QProgressBar]
    has when it is made, 0 to 100: a value outside it is dropped. *)
Definition progress_bar_setValue (value : Z) (u : widgets) : widgets :=
  if (0 <=? value) && (value <=? 100)
  then mkWidgets (file_path_label u) value (progress_bar_visible u)
         (progress_status_text u) (progress_status_visible u) (output_text u)
         (process_btn_enabled u) (save_output_btn_enabled u)
  else u.

Definition file_path_label_setText (text : string) (u : widgets) : widgets :=
  mkWidgets text (progress_bar_value u) (progress_bar_visible u)
    (progress_status_text u) (progress_status_visible u) (output_text u)
    (process_btn_enabled u) (save_output_btn_enabled u).

Definition progress_bar_setVisible (visible : bool) (u : widgets) : widgets :=
  mkWidgets (file_path_label u) (progress_bar_value u) visible
    (progress_status_text u) (progress_status_visible u) (output_text u)
    (process_btn_enabled u) (save_output_btn_enabled u).

Definition progress_status_setText (text : string) (u : widgets) : widgets :=
  mkWidgets (file_path_label u) (progress_bar_value u) (progress_bar_visible u)
    text (progress_status_visible u) (output_text u)
    (process_btn_enabled u) (save_output_btn_enabled u).

Definition progress_status_setVisible (visible : bool) (u : widgets) : widgets :=
  mkWidgets (file_path_label u) (progress_bar_value u) (progress_bar_visible u)
    (progress_status_text u) visible (output_text u)
    (process_btn_enabled u) (save_output_btn_enabled u).

(** [QTextEdit.clear()]. *)
Definition output_text_clear (u : widgets) : widgets :=
  mkWidgets (file_path_label u) (progress_bar_value u) (progress_bar_visible u)
    (progress_status_text u) (progress_status_visible u) EmptyString
    (process_btn_enabled u) (save_output_btn_enabled u).

(** [QTextEdit.setText(text)]. Qt guesses the format of [text] and renders
    a text that looks like HTML as rich text, so the widget need not hold
    [text] afterwards: it holds [plain_text_of text], what
    [toPlainText()] gives after the call, which is Qt's to say. *)
Definition output_text_setText (plain_text_of : string -> string) (text : string)
  (u : widgets) : widgets :=
  mkWidgets (file_path_label u) (progress_bar_value u) (progress_bar_visible u)
    (progress_status_text u) (progress_status_visible u) (plain_text_of text)
    (process_btn_enabled u) (save_output_btn_enabled u).

Definition process_btn_setEnabled (enabled : bool) (u : widgets) : widgets :=
  mkWidgets (file_path_label u) (progress_bar_value u) (progress_bar_visible u)
    (progress_status_text u) (progress_status_visible u) (output_text u)
    enabled (save_output_btn_enabled u).

Definition save_output_btn_setEnabled (enabled : bool) (u : widgets) : widgets :=
  mkWidgets (file_path_label u) (progress_bar_value u) (progress_bar_visible u)
    (progress_status_text u) (progress_status_visible u) (output_text u)
    (process_btn_enabled u) enabled.

(** The calls to the operating system that the slots make themselves. *)
Inductive os_call : Type :=
| Makedirs (path : string)
| PathExists (path : string)
| Remove (path : string)
| Listdir (path : string)
| Rmdir (path : string)
| Print (text : string).

(** The arguments of [ProcessingTask(...)]. *)
Record task : Type := mkTask {
  images : list string;
  system_prompt : string;
  user_prompt : string;
  parallelism : Z;
  max_retries : Z;
  output_format : string
}.

(** The attributes of the window, the warnings shown and the calls made,
    the latest last. *)
Record window : Type := mkWindow {
  current_file : option string;
  image_paths : list string;
  processing_task : option task;
  config_manager : ConfigManager.state;
  ui : widgets;
  warnings : list (string * string);
  os_calls : list os_call
}.

(** What is outside the window. The [k]-th call to the operating system
    gets the reply of index [k]: [None] where a call returns nothing, the
    exception where it raises. *)
Record system : Type := mkSystem {
  makedirs_reply : nat -> option exn;
  exists_reply : nat -> bool;
  remove_reply : nat -> option exn;
  listdir_reply : nat -> result (list string);
  rmdir_reply : nat -> option exn;
  (** [tempfile.gettempdir()], [tempfile.mkdtemp()] *)
  gettempdir : result string;
  mkdtemp : string;
  (** [os.path.join], [os.path.dirname], [os.path.basename] *)
  join : string -> string -> string;
  dirname : string -> string;
  basename : string -> string;
  (** [os.path.splitext(path)[1].lower()] *)
  file_ext : string -> string;
  (** what a [QTextEdit] holds as plain text after [setText(text)] *)
  plain_text_of : string -> string
}.

(** What [process_file] reads when it is called. *)
Record moment : Type := mkMoment {
  (** [self.openai_client.api_key]; [None] counts as empty *)
  api_key : string;
  (** [self.system_prompt.toPlainText()], [self.user_prompt.toPlainText()] *)
  system_prompt_text : string;
  user_prompt_text : string;
  (** [self.parallelism_spin.value()], [self.retry_spin.value()] *)
  parallelism_value : Z;
  retry_value : Z;
  (** [self.md_radio.isChecked()] *)
  md_checked : bool;
  (** [datetime.datetime.now().strftime('%Y%m%d%H%M%S')] *)
  timestamp : string;
  (** what [fitz] makes of the current file *)
  document : result nat
}.

Definition G (A : Type) : Type := M window A.

Definition get {A : Type} (field : window -> A) : G A := fun w => (Ok (field w), w).

Definition set_current_file (file : option string) : G unit :=
  fun w => (Ok tt, mkWindow file (image_paths w) (processing_task w) (config_manager w)
                     (ui w) (warnings w) (os_calls w)).

Definition set_image_paths (paths : list string) : G unit :=
  fun w => (Ok tt, mkWindow (current_file w) paths (processing_task w) (config_manager w)
                     (ui w) (warnings w) (os_calls w)).

Definition set_processing_task (t : task) : G unit :=
  fun w => (Ok tt, mkWindow (current_file w) (image_paths w) (Some t) (config_manager w)
                     (ui w) (warnings w) (os_calls w)).

(** A call on [self.config_manager]. *)
Definition manager (f : ConfigManager.state -> ConfigManager.state) : G unit :=
  fun w => (Ok tt, mkWindow (current_file w) (image_paths w) (processing_task w)
                     (f (config_manager w)) (ui w) (warnings w) (os_calls w)).

(** A call on a widget. *)
Definition widget (f : widgets -> widgets) : G unit :=
  fun w => (Ok tt, mkWindow (current_file w) (image_paths w) (processing_task w)
                     (config_manager w) (f (ui w)) (warnings w) (os_calls w)).

(** [QMessageBox.warning(self, title, text)]. *)
Definition warning (title text : string) : G unit :=
  fun w => (Ok tt, mkWindow (current_file w) (image_paths w) (processing_task w)
                     (config_manager w) (ui w) (warnings w ++ [(title, text)]) (os_calls w)).

(** A call to the operating system: it is noted, and its index is the
    number of the calls before it. *)
Definition call (c : os_call) : G nat :=
  fun w => (Ok (length (os_calls w)),
            mkWindow (current_file w) (image_paths w) (processing_task w)
              (config_manager w) (ui w) (warnings w) (os_calls w ++ [c])).

(** [for x in l: body]. *)
Fixpoint for_each {A : Type} (l : list A) (body : A -> G unit) : G unit :=
  match l with
  | [] => ret tt
  | x :: l' => body x ;;; for_each l' body
  end.

(** What a raising call or a returned value gives in a slot. *)
Definition lift {A : Type} (r : result A) : G A :=
  match r with
  | Ok a => ret a
  | Raised e => raise e
  end.

Definition returns_or_raises (reply : option exn) : G unit :=
  match reply with
  | None => ret tt
  | Some e => raise e
  end.

Section Slots.

Variable os : system.

Definition os_makedirs (path : string) : G unit :=
  k <- call (Makedirs path) ;; returns_or_raises (makedirs_reply os k).

Definition os_path_exists (path : string) : G bool :=
  k <- call (PathExists path) ;; ret (exists_reply os k).

Definition os_remove (path : string) : G unit :=
  k <- call (Remove path) ;; returns_or_raises (remove_reply os k).

Definition os_listdir (path : string) : G (list string) :=
  k <- call (Listdir path) ;; lift (listdir_reply os k).

Definition os_rmdir (path : string) : G unit :=
  k <- call (Rmdir path) ;; returns_or_raises (rmdir_reply os k).

Definition print (text : string) : G unit :=
  call (Print text) ;;; ret tt.

(** [browse_file(self)]; [file_path] is what the dialog returns. *)
Definition browse_file (file_path : string) : G unit :=
  if String.eqb file_path EmptyString then ret tt
  else
    set_current_file (Some file_path) ;;;
    widget (file_path_label_setText (basename os file_path)).

(** The dict that [process_file] gives to [update_config]. *)
Definition processing_config (m : moment) (cm : ConfigManager.state) : dict :=
  [("openai", ConfigManager.get_openai_config cm);
   ("processing", JDict [("parallelism", JInt (parallelism_value m));
                         ("max_retries", JInt (retry_value m))]);
   ("last_assistant", ConfigManager.get_last_assistant cm);
   ("output_format", JString (if md_checked m then "md" else "txt"))].

(** [process_file(self)]. *)
Definition process_file (m : moment) : G unit :=
  file <- get current_file ;;
  match file with
  | None | Some EmptyString =>
      warning "No File Selected" "Please select a PDF or image file first."
  | Some current =>
      if String.eqb (api_key m) EmptyString
      then warning "API Key Missing" "Please configure your OpenAI API key in settings."
      else
        manager (fun cm => ConfigManager.update_config (processing_config m cm) cm) ;;;
        let chosen_format := if md_checked m then "md" else "txt" in
        manager (ConfigManager.set_output_format chosen_format) ;;;
        widget output_text_clear ;;;
        widget (progress_bar_setValue 0) ;;;
        widget (progress_bar_setVisible true) ;;;
        widget (progress_status_setText "Preparing...") ;;;
        widget (progress_status_setVisible true) ;;;
        widget (process_btn_setEnabled false) ;;;
        widget (save_output_btn_setEnabled false) ;;;
        let ext := file_ext os current in
        (if String.eqb ext ".pptx" || String.eqb ext ".ppt"
         then
           widget (progress_status_setText "Converting PPT to PDF...") ;;;
           os_makedirs "./tmp"
         else if String.eqb ext ".pdf"
         then
           widget (progress_status_setText "Converting PDF to images...") ;;;
           os_makedirs "./tmp" ;;;
           paths <- lift (PDFProcessor.convert_pdf_to_images (join os) (mkdtemp os)
                            (document m) ("./tmp/" ++ timestamp m)) ;;
           set_image_paths paths
         else set_image_paths [current]) ;;;
        paths <- get image_paths ;;
        set_processing_task
          (mkTask paths (system_prompt_text m) (user_prompt_text m)
             (parallelism_value m) (retry_value m) chosen_format)
  end.

(** [update_progress(self, value, message)]. *)
Definition update_progress (value : Z) (message : string) : G unit :=
  (if 0 <=? value then widget (progress_bar_setValue value) else ret tt) ;;;
  widget (progress_status_setText message).

(** The body of the [try] of [processing_finished] (lines 587-598). *)
Definition clean_up (paths : list string) : G unit :=
  let image_dir := dirname os (hd EmptyString paths) in
  tmp <- lift (gettempdir os) ;;
  if PyStr.occurs tmp image_dir
  then
    for_each paths
      (fun image_path =>
         found <- os_path_exists image_path ;;
         if found then os_remove image_path else ret tt) ;;;
    found <- os_path_exists image_dir ;;
    if found
    then
      names <- os_listdir image_dir ;;
      match names with
      | [] => os_rmdir image_dir
      | _ :: _ => ret tt
      end
    else ret tt
  else ret tt.

(** [processing_finished(self, result_text)]. *)
Definition processing_finished (result_text : string) : G unit :=
  widget (output_text_setText (plain_text_of os) result_text) ;;;
  widget (progress_bar_setVisible false) ;;;
  widget (progress_status_setText "Processing complete!") ;;;
  widget (process_btn_setEnabled true) ;;;
  widget (save_output_btn_setEnabled true) ;;;
  paths <- get image_paths ;;
  if (1 <? length paths)%nat
  then try_except (clean_up paths)
         (fun e => print ("Error cleaning up temporary files: " ++ e))
  else ret tt.

(** What happens to the window: a slot is called, with what it is given
    or reads. *)
Inductive event : Type :=
| BrowseFile (file_path : string)
| ProcessFile (m : moment)
| UpdateProgress (value : Z) (message : string)
| ProcessingFinished (result_text : string).

Definition slot (e : event) : G unit :=
  match e with
  | BrowseFile file_path => browse_file file_path
  | ProcessFile m => process_file m
  | UpdateProgress value message => update_progress value message
  | ProcessingFinished result_text => processing_finished result_text
  end.

(** The slots called one after the other, until one raises. *)
Fixpoint session (events : list event) : G unit :=
  match events with
  | [] => ret tt
  | e :: events' => slot e ;;; session events'
  end.

(** The slots that a task makes the window run: [update_progress] for
    every emission on [progress_updated], then [processing_finished] for
    the text emitted on [processing_complete]. *)
Definition delivered (stream : list (Z * string)) (final_text : string) : list event :=
  map (fun p => UpdateProgress (fst p) (snd p)) stream ++ [ProcessingFinished final_text].

End Slots.

(** The window when it is made, around a configuration. *)
Definition initial (cm : ConfigManager.state) : window :=
  mkWindow None [] None cm
    (mkWidgets "No file selected" (-1) false EmptyString false EmptyString true false)
    [] [].

(** The directory [process_file] has a document converted into. *)
Definition output_dir (m : moment) : string := "./tmp/" ++ timestamp m.

(** The timestamps of the calls of [process_file] among the events. *)
Definition timestamps (events : list event) : list string :=
  flat_map (fun e => match e with
                     | ProcessFile m => [timestamp m]
                     | _ => []
                     end)
           events.

(** A path of a page image: a page file in the directory of one of the
    [stamps]. *)
Definition page_image (os : system) (stamps : list string) (path : string) : Prop :=
  exists stamp page_num,
    In stamp stamps /\ path = join os ("./tmp/" ++ stamp) (PDFProcessor.page_file page_num).

(** A call that removes nothing but a page image or the directory of
    one. *)
Definition harmless (os : system) (stamps : list string) (c : os_call) : Prop :=
  match c with
  | Remove path => page_image os stamps path
  | Rmdir path => exists image, page_image os stamps image /\ path = dirname os image
  | _ => True
  end.

(** Whether a call removes something. *)
Definition removes (c : os_call) : bool :=
  match c with
  | Remove _ | Rmdir _ => true
  | _ => false
  end.

(** A computation keeps [P]: [P] holds after it when it holds before,
    whether it returns or raises. *)
Definition keeps {A : Type} (P : window -> Prop) (m : G A) : Prop :=
  forall w, P w -> P (snd (m w)).

(** [P] looks at the paths of the images and at the calls only. *)
Definition about_files (P : window -> Prop) : Prop :=
  forall w w', image_paths w' = image_paths w -> os_calls w' = os_calls w -> P w -> P w'.

(** The calls that cleaning up after [paths] can make. *)
Definition made_for (os : system) (paths : list string) (c : os_call) : Prop :=
  match c with
  | Makedirs _ => False
  | Remove path => In path paths
  | Rmdir path => path = dirname os (hd EmptyString paths)
  | _ => True
  end.

(** The value the progress bar has after the emissions of [stream], from
    the value [v]. *)
Definition bar_after (stream : list (Z * string)) (v : Z) : Z :=
  fold_left (fun v p => if (0 <=? fst p) && (fst p <=? 100) then fst p else v) stream v.

(** The window has removed nothing but page images and their
    directories, and the paths it would clean up after are page images. *)
Definition safe (os : system) (stamps : list string) (w : window) : Prop :=
  Forall (harmless os stamps) (os_calls w) /\
  ((1 < length (image_paths w))%nat -> Forall (page_image os stamps) (image_paths w)).

(** [w'] is [w] apart from the calls made. *)
Definition apart_from_calls (w w' : window) : Prop :=
  current_file w' = current_file w /\
  image_paths w' = image_paths w /\
  processing_task w' = processing_task w /\
  config_manager w' = config_manager w /\
  ui w' = ui w /\
  warnings w' = warnings w.

(** The widgets after [update_progress] has run for the emissions of
    [stream]. *)
Definition progressed (stream : list (Z * string)) (u : widgets) : widgets :=
  fold_left (fun u p =>
               progress_status_setText (snd p)
                 (if 0 <=? fst p then progress_bar_setValue (fst p) u else u))
            stream u.

(** A system for examples: the paths are POSIX's, the temporary directory
    is [/tmp], every file looked for is there, every call succeeds, and
    the texts shown are plain, which Qt shows as they are. *)
Definition posix : system :=
  mkSystem (fun _ => None) (fun _ => true) (fun _ => None) (fun _ => Ok [])
    (fun _ => None) (Ok "/tmp") "/tmp/tmpdir"
    PosixPath.join PosixPath.dirname PosixPath.basename PosixPath.ext
    (fun text => text).

(** The window has removed nothing and has at most one image to clean up
    after. *)
Definition quiet (w : window) : Prop :=
  Forall (fun c => removes c = false) (os_calls w) /\ (length (image_paths w) <= 1)%nat.

(** The documents that the events have converted have one page at most. *)
Definition single_pages (events : list event) : Prop :=
  forall m pages, In (ProcessFile m) events -> document m = Ok pages -> (pages <= 1)%nat.

End MainWindow.

(** * Properties *)

(** ** Rounding *)

Module PyFloatFacts.

Import PyFloat.
Local Open Scope Q_scope.

Lemma pow2_pos (e : Z) : 0 < 2 ^ e.
Proof. apply Qpower_0_lt. reflexivity. Qed.

Lemma pow2_add (a b : Z) : 2 ^ (a + b) == 2 ^ a * 2 ^ b.
Proof. apply Qpower_plus. discriminate. Qed.

Lemma pow2_le (a b : Z) : (a <= b)%Z -> 2 ^ a <= 2 ^ b.
Proof. intro H. apply Qpower_le_compat_l; [exact H | discriminate]. Qed.

Lemma pow2_lt_inv (a b : Z) : 2 ^ a < 2 ^ b -> (a < b)%Z.
Proof. intro H. apply (Qpower_lt_compat_l_inv 2); [exact H | reflexivity]. Qed.

Lemma pow2_inject (e : Z) : (0 <= e)%Z -> inject_Z (2 ^ e) == 2 ^ e.
Proof. intro H. apply (Zpower_Qpower 2 e H). Qed.

Lemma ilog2_spec (x : Q) : 0 < x -> 2 ^ ilog2 x <= x /\ x < 2 ^ (ilog2 x + 1).
Proof.
  intro Hx. destruct x as [a b].
  assert (Ha : (0 < a)%Z).
  { unfold Qlt in Hx. cbn in Hx. lia. }
  unfold ilog2. cbn [Qnum Qden].
  set (la := Z.log2 a). set (lb := Z.log2 (Z.pos b)).
  assert (Hla : (0 <= la)%Z) by apply Z.log2_nonneg.
  assert (Hlb : (0 <= lb)%Z) by apply Z.log2_nonneg.
  destruct (Z.log2_spec a Ha) as [Ha1 Ha2]. fold la in Ha1, Ha2.
  destruct (Z.log2_spec (Z.pos b) eq_refl) as [Hb1 Hb2]. fold lb in Hb1, Hb2.
  rewrite Zle_Qle, pow2_inject in Ha1, Hb1 by assumption.
  rewrite Zlt_Qlt, pow2_inject in Ha2, Hb2 by lia.
  assert (Hb : 0 < inject_Z (Z.pos b)) by reflexivity.
  assert (Hup : a # b < 2 ^ (la - lb + 1)).
  { rewrite (Qmake_Qdiv a b). apply Qlt_shift_div_r; [exact Hb|].
    eapply Qlt_le_trans; [exact Ha2|].
    replace (Z.succ la) with ((la - lb + 1) + lb)%Z by lia.
    rewrite pow2_add. apply Qmult_le_l; [apply pow2_pos | exact Hb1]. }
  assert (Hlow : 2 ^ (la - lb - 1) < a # b).
  { rewrite (Qmake_Qdiv a b). apply Qlt_shift_div_l; [exact Hb|].
    eapply Qlt_le_trans; [|exact Ha1].
    replace la with ((la - lb - 1) + Z.succ lb)%Z at 2 by lia.
    rewrite pow2_add. apply Qmult_lt_l; [apply pow2_pos | exact Hb2]. }
  destruct (Qle_bool (2 ^ (la - lb)) (a # b)) eqn:E.
  - apply Qle_bool_iff in E. split; assumption.
  - assert (Hlt : a # b < 2 ^ (la - lb)).
    { apply Qnot_le_lt. intro H. apply Qle_bool_iff in H. congruence. }
    split; [apply Qlt_le_weak; exact Hlow|].
    replace (la - lb - 1 + 1)%Z with (la - lb)%Z by lia. exact Hlt.
Qed.

Lemma ilog2_mono (x y : Q) : 0 < x -> x <= y -> (ilog2 x <= ilog2 y)%Z.
Proof.
  intros Hx Hxy.
  assert (Hy : 0 < y) by (eapply Qlt_le_trans; eassumption).
  destruct (ilog2_spec x Hx) as [Hx1 _].
  destruct (ilog2_spec y Hy) as [_ Hy2].
  assert (H : 2 ^ ilog2 x < 2 ^ (ilog2 y + 1)).
  { eapply Qle_lt_trans; [exact Hx1|]. eapply Qle_lt_trans; eassumption. }
  apply pow2_lt_inv in H. lia.
Qed.

Lemma rne_bounds (x : Q) : (Qfloor x <= rne x <= Qfloor x + 1)%Z.
Proof.
  unfold rne. destruct (Qcompare _ _); [destruct (Z.even _)| |]; lia.
Qed.

Lemma rne_mono (x y : Q) : x <= y -> (rne x <= rne y)%Z.
Proof.
  intro Hxy.
  pose proof (Qfloor_resp_le x y Hxy) as Hf.
  destruct (Z.eq_dec (Qfloor x) (Qfloor y)) as [E|NE].
  - unfold rne. rewrite <- E.
    destruct (Qcompare_spec (x - inject_Z (Qfloor x)) (1 # 2)) as [Hx|Hx|Hx];
    destruct (Qcompare_spec (y - inject_Z (Qfloor x)) (1 # 2)) as [Hy|Hy|Hy];
    try destruct (Z.even (Qfloor x)); try lia; exfalso; lra.
  - pose proof (rne_bounds x). pose proof (rne_bounds y). lia.
Qed.

Lemma rne_comp (x y : Q) : x == y -> rne x = rne y.
Proof.
  intro H. apply Z.le_antisymm; apply rne_mono; rewrite H; apply Qle_refl.
Qed.

Lemma rne_Z (n : Z) : rne (inject_Z n) = n.
Proof.
  unfold rne. rewrite Qfloor_Z.
  destruct (Qcompare_spec (inject_Z n - inject_Z n) (1 # 2)) as [H|H|H];
    try reflexivity; exfalso; lra.
Qed.

Lemma round_pos_nonneg (x : Q) : 0 <= x -> 0 <= round_pos x.
Proof.
  intro Hx. unfold round_pos.
  apply Qmult_le_0_compat; [|apply Qlt_le_weak, pow2_pos].
  change 0 with (inject_Z 0). rewrite <- Zle_Qle.
  rewrite <- (rne_Z 0). apply rne_mono.
  apply Qle_shift_div_l; [apply pow2_pos|].
  change (inject_Z 0) with 0. rewrite Qmult_0_l. exact Hx.
Qed.

Lemma round_pos_mono (x y : Q) : 0 < x -> x <= y -> round_pos x <= round_pos y.
Proof.
  intros Hx Hxy.
  assert (Hy : 0 < y) by (eapply Qlt_le_trans; eassumption).
  pose proof (ilog2_mono x y Hx Hxy) as Hl.
  unfold round_pos.
  destruct (Z.eq_dec (cexp x) (cexp y)) as [E|NE].
  - rewrite <- E. apply Qmult_le_compat_r; [|apply Qlt_le_weak, pow2_pos].
    rewrite <- Zle_Qle. apply rne_mono.
    apply Qmult_le_compat_r; [exact Hxy|].
    apply Qlt_le_weak, Qinv_lt_0_compat, pow2_pos.
  - assert (Hcy : cexp y = (ilog2 y - 52)%Z) by (unfold cexp in *; lia).
    assert (Hcx : (ilog2 x - 52 <= cexp x)%Z) by (unfold cexp; lia).
    assert (Hlt : (cexp x + 1 <= cexp y)%Z) by (unfold cexp in *; lia).
    destruct (ilog2_spec x Hx) as [_ Hx2].
    destruct (ilog2_spec y Hy) as [Hy1 _].
    apply Qle_trans with (2 ^ (cexp x + 53)).
    + rewrite (Z.add_comm (cexp x)), pow2_add.
      apply Qmult_le_compat_r; [|apply Qlt_le_weak, pow2_pos].
      rewrite <- (pow2_inject 53) by lia. rewrite <- Zle_Qle.
      rewrite <- (rne_Z (2 ^ 53)). apply rne_mono.
      apply Qle_shift_div_r; [apply pow2_pos|].
      rewrite (pow2_inject 53) by lia. rewrite <- pow2_add.
      eapply Qle_trans; [apply Qlt_le_weak; exact Hx2|].
      apply pow2_le. lia.
    + apply Qle_trans with (2 ^ (52 + cexp y)); [apply pow2_le; lia|].
      rewrite pow2_add.
      apply Qmult_le_compat_r; [|apply Qlt_le_weak, pow2_pos].
      rewrite <- (pow2_inject 52) by lia. rewrite <- Zle_Qle.
      rewrite <- (rne_Z (2 ^ 52)) at 1. apply rne_mono.
      apply Qle_shift_div_l; [apply pow2_pos|].
      rewrite (pow2_inject 52) by lia. rewrite <- pow2_add.
      eapply Qle_trans; [|exact Hy1].
      apply pow2_le. lia.
Qed.

Lemma round_mono (x y : Q) : 0 <= x -> x <= y -> round x <= round y.
Proof.
  intros Hx Hxy. unfold round.
  destruct (Qcompare_spec x 0) as [Ex|Ex|Ex]; [| exfalso; lra |].
  - destruct (Qcompare_spec y 0) as [Ey|Ey|Ey]; [apply Qle_refl | exfalso; lra |].
    apply round_pos_nonneg. lra.
  - destruct (Qcompare_spec y 0) as [Ey|Ey|Ey]; [exfalso; lra | exfalso; lra |].
    apply round_pos_mono; assumption.
Qed.

Lemma round_comp (x y : Q) : 0 <= x -> x == y -> round x == round y.
Proof.
  intros Hx H. apply Qle_antisym; apply round_mono; lra.
Qed.

Lemma quotient_mono k k' n : (0 <= k <= k')%Z -> (0 < n)%Z -> quotient k n <= quotient k' n.
Proof.
  intros Hk Hn. unfold quotient.
  assert (Hn' : 0 < inject_Z n) by (change 0 with (inject_Z 0); rewrite <- Zlt_Qlt; exact Hn).
  apply round_mono.
  - apply Qle_shift_div_l; [exact Hn'|]. rewrite Qmult_0_l.
    change 0 with (inject_Z 0). rewrite <- Zle_Qle. lia.
  - apply Qmult_le_compat_r; [rewrite <- Zle_Qle; lia|].
    apply Qlt_le_weak, Qinv_lt_0_compat, Hn'.
Qed.

Lemma round_nonneg x : 0 <= x -> 0 <= round x.
Proof.
  intro Hx. unfold round.
  destruct (Qcompare_spec x 0) as [E|E|E]; [apply Qle_refl | exfalso; lra |].
  apply round_pos_nonneg. exact Hx.
Qed.

Lemma quotient_nonneg k n : (0 <= k)%Z -> (0 < n)%Z -> 0 <= quotient k n.
Proof.
  intros Hk Hn. unfold quotient. apply round_nonneg.
  assert (Hn' : 0 < inject_Z n) by (change 0 with (inject_Z 0); rewrite <- Zlt_Qlt; exact Hn).
  apply Qle_shift_div_l; [exact Hn'|]. rewrite Qmult_0_l.
  change 0 with (inject_Z 0). rewrite <- Zle_Qle. lia.
Qed.

Lemma int_of_float_mono x y : 0 <= x -> x <= y -> (int_of_float x <= int_of_float y)%Z.
Proof.
  intros Hx Hxy. unfold int_of_float.
  assert (Hy : 0 <= y) by lra.
  apply Qle_bool_iff in Hx, Hy. rewrite Hx, Hy.
  apply Qfloor_resp_le. exact Hxy.
Qed.

Lemma percent_mono k k' n : (0 <= k <= k')%Z -> (0 < n)%Z -> (percent k n <= percent k' n)%Z.
Proof.
  intros Hk Hn. unfold percent, float_mul.
  pose proof (quotient_nonneg k n (proj1 Hk) Hn) as H0.
  pose proof (quotient_mono k k' n Hk Hn) as H1.
  apply int_of_float_mono.
  - apply round_nonneg. apply Qmult_le_0_compat; [exact H0 | discriminate].
  - apply round_mono.
    + apply Qmult_le_0_compat; [exact H0 | discriminate].
    + apply Qmult_le_compat_r; [exact H1 | discriminate].
Qed.

Lemma percent_full n : (0 < n)%Z -> percent n n = 100%Z.
Proof.
  intro Hn. unfold percent, float_mul, quotient.
  assert (Hn' : 0 < inject_Z n) by (change 0 with (inject_Z 0); rewrite <- Zlt_Qlt; exact Hn).
  assert (E1 : round (inject_Z n / inject_Z n) == 1).
  { rewrite (round_comp _ 1).
    - vm_compute. reflexivity.
    - apply Qle_shift_div_l; [exact Hn'|]. rewrite Qmult_0_l. apply Qlt_le_weak, Hn'.
    - apply Qmult_inv_r. intro H. rewrite H in Hn'. discriminate. }
  assert (E2 : round (round (inject_Z n / inject_Z n) * inject_Z 100) == 100).
  { rewrite (round_comp _ 100).
    - vm_compute. reflexivity.
    - rewrite E1. discriminate.
    - rewrite E1. reflexivity. }
  unfold int_of_float.
  assert (H : Qle_bool 0 (round (round (inject_Z n / inject_Z n) * inject_Z 100)) = true).
  { apply Qle_bool_iff. rewrite E2. discriminate. }
  rewrite H. rewrite (Qfloor_comp _ _ E2). reflexivity.
Qed.

Lemma percent_nonneg k n : (0 <= k)%Z -> (0 < n)%Z -> (0 <= percent k n)%Z.
Proof.
  intros Hk Hn. unfold percent, float_mul, int_of_float.
  pose proof (quotient_nonneg k n Hk Hn) as H0.
  assert (H : 0 <= round (quotient k n * inject_Z 100)).
  { apply round_nonneg. apply Qmult_le_0_compat; [exact H0 | discriminate]. }
  pose proof H as Hb. apply Qle_bool_iff in Hb. rewrite Hb.
  change 0%Z with (Qfloor 0). apply Qfloor_resp_le. exact H.
Qed.

(** [round] agrees with the reference implementation on every progress
    computation of a batch of at most 64 pages. *)
Lemma percent_cross_check :
  forallb (fun n => forallb (fun k => agrees_with_reference k n) (upto (Z.to_nat n)))
    (upto 64) = true.
Proof. vm_compute. reflexivity. Qed.

Example percent_29_of_100 : percent 29 100 = 28%Z.
Proof. vm_compute. reflexivity. Qed.

Example percent_2_of_3 : percent 2 3 = 66%Z.
Proof. vm_compute. reflexivity. Qed.

End PyFloatFacts.

(** ** The worker *)

Module WorkerFacts.

Import Worker.

Section Iteration.

Variable max_retries : Z.
Variable load_outcome : nat -> load_result.
Variable client_outcome : nat -> reply.

Local Abbreviation attempt := (Worker.attempt max_retries load_outcome client_outcome).
Local Abbreviation while_loop := (Worker.while_loop max_retries load_outcome client_outcome).
Local Abbreviation verdict_of := (Worker.verdict_of load_outcome client_outcome).
Local Abbreviation calls_of := (Worker.calls_of load_outcome).
Local Abbreviation backoff_events := (Worker.backoff_events max_retries).

Lemma while_loop_step (k : nat) (image_path : string) (page_num : Z) (s : frame) :
  while_loop k image_path page_num s =
  if retries s <=? max_retries
  then match attempt k image_path page_num s with
       | (Ok None, s') => while_loop (S k) image_path page_num s'
       | r => r
       end
  else (Ok None, s).
Proof.
  funelim (while_loop k image_path page_num s).
  all: try match goal with H : (retries _ <=? _) = _ |- _ => rewrite H end.
  all: try match goal with H : attempt _ _ _ _ = _ |- _ => rewrite H end.
  all: reflexivity.
Qed.

(** *** Reasoning about one iteration and about the loop *)

Lemma attempt_verdict (k : nat) (image_path : string) (page_num : Z) (s : frame) :
  attempt k image_path page_num s =
  match verdict_of k with
  | Succeeds response =>
      (Ok (Some (true, response)), mkFrame (retries s) (log s ++ calls_of k image_path))
  | Fails raised text =>
      if retries s + 1 <=? max_retries
      then (Ok None,
            mkFrame (retries s + 1)
              (log s ++ calls_of k image_path
                     ++ backoff_events raised page_num (retries s + 1)))
      else (Ok (Some (false, text)),
            mkFrame (retries s + 1) (log s ++ calls_of k image_path))
  end.
Proof.
  unfold Worker.attempt, try_except, load_image, client_process_image, bind, emit,
    msleep, record, get_retries, set_retries, ret, raise.
  unfold Worker.verdict_of, Worker.calls_of, Worker.backoff_events, retry_message.
  cbn.
  destruct (load_outcome k); cbn.
  - destruct (client_outcome k) as [[|] response|e]; cbn;
      rewrite <- ?app_assoc; cbn; try reflexivity;
      destruct (retries s + 1 <=? max_retries); cbn;
      rewrite <- ?app_assoc; reflexivity.
  - destruct (retries s + 1 <=? max_retries); cbn;
      rewrite <- ?app_assoc; reflexivity.
Qed.

(** Induction along the iterations of the loop. *)
Lemma while_loop_induction (image_path : string) (page_num : Z)
  (P : nat -> frame -> result (option outcome) * frame -> Prop) :
  (forall k s, max_retries < retries s -> P k s (Ok None, s)) ->
  (forall k s response,
      retries s <= max_retries ->
      verdict_of k = Succeeds response ->
      P k s (Ok (Some (true, response)),
             mkFrame (retries s) (log s ++ calls_of k image_path))) ->
  (forall k s raised text,
      retries s = max_retries ->
      verdict_of k = Fails raised text ->
      P k s (Ok (Some (false, text)),
             mkFrame (retries s + 1) (log s ++ calls_of k image_path))) ->
  (forall k s raised text s',
      retries s < max_retries ->
      verdict_of k = Fails raised text ->
      s' = mkFrame (retries s + 1)
             (log s ++ calls_of k image_path
                    ++ backoff_events raised page_num (retries s + 1)) ->
      P (S k) s' (while_loop (S k) image_path page_num s') ->
      P k s (while_loop (S k) image_path page_num s')) ->
  forall k s, P k s (while_loop k image_path page_num s).
Proof.
  intros Hexit Hsucc Hlast Hretry k s.
  remember (Z.to_nat (max_retries + 1 - retries s)) as n eqn:Hn.
  revert k s Hn.
  induction n as [|n IH]; intros k s Hn; rewrite while_loop_step.
  - destruct (Z.leb_spec (retries s) max_retries) as [Hle|Hgt]; [lia|].
    apply Hexit. exact Hgt.
  - destruct (Z.leb_spec (retries s) max_retries) as [Hle|Hgt]; [|lia].
    rewrite attempt_verdict.
    destruct (verdict_of k) as [response|raised text] eqn:Hv.
    + apply Hsucc; assumption.
    + destruct (Z.leb_spec (retries s + 1) max_retries) as [Hle'|Hgt'].
      * eapply Hretry; [lia | exact Hv | reflexivity |].
        apply IH. cbn. lia.
      * eapply Hlast; [lia | exact Hv].
Qed.

End Iteration.

(** *** Facts about the loop *)

Lemma attempts_app (l1 l2 : list event) :
  attempts (l1 ++ l2) = (attempts l1 + attempts l2)%nat.
Proof. unfold attempts. rewrite filter_app, length_app. reflexivity. Qed.

Lemma transcriptions_app (l1 l2 : list event) :
  transcriptions (l1 ++ l2) = (transcriptions l1 + transcriptions l2)%nat.
Proof. unfold transcriptions. rewrite filter_app, length_app. reflexivity. Qed.

Section LoopFacts.

Variable max_retries : Z.
Variable load_outcome : nat -> load_result.
Variable client_outcome : nat -> reply.
Variable image_path : string.
Variable page_num : Z.

Local Abbreviation loop := (while_loop max_retries load_outcome client_outcome).
Local Abbreviation verdict_at := (verdict_of load_outcome client_outcome).
Local Abbreviation calls := (calls_of load_outcome).
Local Abbreviation raised_at := (Worker.raised_at load_outcome client_outcome).

Lemma attempts_calls (k : nat) : attempts (calls k image_path) = 1%nat.
Proof. unfold calls_of. destruct (load_outcome k); reflexivity. Qed.

Lemma attempts_backoff (raised : bool) (r : Z) :
  attempts (backoff_events max_retries raised page_num r) = 0%nat.
Proof. reflexivity. Qed.

(** The loop never raises: whatever the collaborators do, it ends with
    [Ok]. *)
Lemma while_loop_ok (k : nat) (s : frame) :
  exists r s', loop k image_path page_num s = (Ok r, s').
Proof.
  apply (while_loop_induction max_retries load_outcome client_outcome
           image_path page_num
           (fun _ _ res => exists r s', res = (Ok r, s'))); eauto.
Qed.

(** Entered with [retries <= max_retries], the loop returns from inside:
    at some iteration [j], after failures in all earlier ones, either with
    the transcriber's response or, when the retries are used up, with the
    error text of iteration [j]. *)
Lemma while_loop_returns (k : nat) (s : frame) :
  retries s <= max_retries ->
  exists o s' j,
    loop k image_path page_num s = (Ok (Some o), s') /\
    (k <= j)%nat /\
    attempts (log s') = (attempts (log s) + (j - k) + 1)%nat /\
    (forall i, (k <= i < j)%nat -> exists raised text, verdict_at i = Fails raised text) /\
    ((o = (true, snd o) /\ verdict_at j = Succeeds (snd o)) \/
     (o = (false, snd o) /\ retries s + Z.of_nat (j - k) = max_retries /\
      exists raised, verdict_at j = Fails raised (snd o))).
Proof.
  apply (while_loop_induction max_retries load_outcome client_outcome
           image_path page_num
           (fun k s res =>
              retries s <= max_retries ->
              exists o s' j,
                res = (Ok (Some o), s') /\
                (k <= j)%nat /\
                attempts (log s') = (attempts (log s) + (j - k) + 1)%nat /\
                (forall i, (k <= i < j)%nat ->
                           exists raised text, verdict_at i = Fails raised text) /\
                ((o = (true, snd o) /\ verdict_at j = Succeeds (snd o)) \/
                 (o = (false, snd o) /\ retries s + Z.of_nat (j - k) = max_retries /\
                  exists raised, verdict_at j = Fails raised (snd o))))).
  - intros k0 s0 Hgt Hle. lia.
  - intros k0 s0 response _ Hv _.
    exists (true, response), (mkFrame (retries s0) (log s0 ++ calls k0 image_path)), k0.
    cbn [log retries snd fst]. rewrite attempts_app, attempts_calls.
    repeat split; try lia. left. split; [reflexivity | exact Hv].
  - intros k0 s0 raised text Heq Hv _.
    exists (false, text), (mkFrame (retries s0 + 1) (log s0 ++ calls k0 image_path)), k0.
    cbn [log retries snd fst]. rewrite attempts_app, attempts_calls.
    repeat split; try lia. right. repeat split; [lia | eauto].
  - intros k0 s0 raised text s1 Hlt Hv -> IH _.
    destruct IH as (o & s' & j & Hres & Hj & Hatt & Hfail & Hend); [cbn; lia|].
    exists o, s', j. cbn [log retries snd fst] in Hatt, Hend.
    rewrite !attempts_app, attempts_calls, attempts_backoff in Hatt.
    repeat split; try lia; [exact Hres | |].
    + intros i Hi. destruct (Nat.eq_dec i k0) as [->|Hne]; [eauto|].
      apply Hfail. lia.
    + destruct Hend as [Hs|(Ho & Hr & Hf)]; [left; exact Hs|].
      right. repeat split; [exact Ho | lia | exact Hf].
Qed.

(** When every image loads and every transcriber call fails, the loop calls
    the transcriber once per remaining value of [retries] and returns the
    error text of the last call. *)
Lemma while_loop_transcriptions (k : nat) (s : frame) :
  (forall i, load_outcome i = Loaded) ->
  (forall i, client_error (client_outcome i) <> None) ->
  retries s <= max_retries ->
  exists text s',
    loop k image_path page_num s = (Ok (Some (false, text)), s') /\
    transcriptions (log s') =
      (transcriptions (log s) + Z.to_nat (max_retries - retries s) + 1)%nat /\
    client_error (client_outcome (k + Z.to_nat (max_retries - retries s))) = Some text.
Proof.
  intros Hload Hfail.
  assert (Hcalls : forall i, transcriptions (calls i image_path) = 1%nat).
  { intro i. unfold calls_of. rewrite Hload. reflexivity. }
  assert (Hverdict : forall i response, verdict_at i <> Succeeds response).
  { intros i response. unfold verdict_of. rewrite Hload.
    specialize (Hfail i). destruct (client_outcome i) as [[|] r|e]; cbn in *;
      [exfalso; apply Hfail; reflexivity | discriminate | discriminate]. }
  assert (Htext : forall i raised text,
             verdict_at i = Fails raised text ->
             client_error (client_outcome i) = Some text).
  { intros i raised text. unfold verdict_of. rewrite Hload.
    destruct (client_outcome i) as [[|] r|e]; cbn;
      intros H; inversion H; reflexivity. }
  apply (while_loop_induction max_retries load_outcome client_outcome
           image_path page_num
           (fun k s res =>
              retries s <= max_retries ->
              exists text s',
                res = (Ok (Some (false, text)), s') /\
                transcriptions (log s') =
                  (transcriptions (log s) + Z.to_nat (max_retries - retries s) + 1)%nat /\
                client_error (client_outcome (k + Z.to_nat (max_retries - retries s)))
                = Some text)).
  - intros k0 s0 Hgt Hle. lia.
  - intros k0 s0 response _ Hv. exfalso. exact (Hverdict _ _ Hv).
  - intros k0 s0 raised text Heq Hv _.
    eexists _, _. split; [reflexivity|].
    cbn [log retries]. rewrite transcriptions_app, Hcalls.
    replace (Z.to_nat (max_retries - retries s0)) with 0%nat by lia.
    rewrite !Nat.add_0_r. split; [lia | eapply Htext; exact Hv].
  - intros k0 s0 raised text s1 Hlt Hv -> IH _.
    destruct IH as (text' & s' & Hres & Hcount & Hlast); [cbn; lia|].
    exists text', s'. cbn [log retries] in Hcount, Hlast.
    rewrite !transcriptions_app, Hcalls in Hcount.
    split; [exact Hres|].
    replace (Z.to_nat (max_retries - retries s0))
      with (S (Z.to_nat (max_retries - (retries s0 + 1)))) by lia.
    split; [cbn in Hcount; lia|].
    rewrite Nat.add_succ_r. exact Hlast.
Qed.

(** When the attempts fail as long as a retry is left, the loop adds to
    the history, for every retry, the calls of the attempt that failed, the
    sentinel notification of the retry and a wait of [2 ^ retries] seconds,
    and after them the calls of the last attempt. *)
Lemma while_loop_history (k : nat) (s : frame) :
  retries s <= max_retries ->
  (forall i, (i < Z.to_nat (max_retries - retries s))%nat ->
             exists raised text, verdict_at (k + i) = Fails raised text) ->
  log (snd (loop k image_path page_num s)) =
  (log s ++
   flat_map (fun i => calls (k + i) image_path ++
                      backoff_events max_retries (raised_at (k + i)) page_num
                        (retries s + 1 + Z.of_nat i))
            (seq 0 (Z.to_nat (max_retries - retries s))) ++
   calls (k + Z.to_nat (max_retries - retries s)) image_path)%list.
Proof.
  apply (while_loop_induction max_retries load_outcome client_outcome
           image_path page_num
           (fun k s res =>
              retries s <= max_retries ->
              (forall i, (i < Z.to_nat (max_retries - retries s))%nat ->
                         exists raised text, verdict_at (k + i) = Fails raised text) ->
              log (snd res) =
              (log s ++
               flat_map (fun i => calls (k + i) image_path ++
                                  backoff_events max_retries (raised_at (k + i)) page_num
                                    (retries s + 1 + Z.of_nat i))
                        (seq 0 (Z.to_nat (max_retries - retries s))) ++
               calls (k + Z.to_nat (max_retries - retries s)) image_path)%list)).
  - intros k0 s0 Hgt Hle. lia.
  - intros k0 s0 response Hle Hv _ Hfail.
    destruct (Z.to_nat (max_retries - retries s0)) as [|n] eqn:En.
    + cbn [log snd seq flat_map app]. rewrite Nat.add_0_r. reflexivity.
    + destruct (Hfail 0%nat ltac:(lia)) as (raised & text & Hf).
      rewrite Nat.add_0_r in Hf. congruence.
  - intros k0 s0 raised text Heq Hv _ _.
    replace (Z.to_nat (max_retries - retries s0)) with 0%nat by lia.
    cbn [log snd seq flat_map app]. rewrite Nat.add_0_r. reflexivity.
  - intros k0 s0 raised text s1 Hlt Hv -> IH _ Hfail.
    rewrite IH; cbn [log retries]; [|lia|].
    + replace (Z.to_nat (max_retries - retries s0))
        with (S (Z.to_nat (max_retries - (retries s0 + 1)))) by lia.
      rewrite <- cons_seq, <- seq_shift. cbn [flat_map].
      unfold raised_at at 2. rewrite Nat.add_0_r, Hv, Z.add_0_r.
      rewrite <- !app_assoc. do 3 f_equal.
      rewrite Nat.add_succ_r. f_equal.
      rewrite !flat_map_concat_map, map_map. f_equal.
      apply map_ext. intro i.
      rewrite Nat.add_succ_r. cbn [Nat.add].
      do 2 f_equal. lia.
    + intros i Hi.
      destruct (Hfail (S i) ltac:(lia)) as (raised' & text' & Hf).
      rewrite Nat.add_succ_r in Hf. eauto.
Qed.

(** Every progress notification of the loop carries the sentinel [-1]. *)
Lemma while_loop_sentinel (k : nat) (s : frame) :
  Forall sentinel (log s) ->
  Forall sentinel (log (snd (loop k image_path page_num s))).
Proof.
  assert (Hcalls : forall i, Forall sentinel (calls i image_path)).
  { intro i. unfold calls_of. destruct (load_outcome i); repeat constructor. }
  apply (while_loop_induction max_retries load_outcome client_outcome
           image_path page_num
           (fun k s res => Forall sentinel (log s) -> Forall sentinel (log (snd res)))).
  - intros; assumption.
  - intros k0 s0 response _ _ H. cbn. apply Forall_app. split; [exact H | apply Hcalls].
  - intros k0 s0 raised text _ _ H. cbn. apply Forall_app. split; [exact H | apply Hcalls].
  - intros k0 s0 raised text s1 _ _ -> IH H. apply IH. cbn.
    apply Forall_app. split; [exact H|].
    apply Forall_app. split; [apply Hcalls | repeat constructor].
Qed.

End LoopFacts.

Lemma process_image_eq (max_retries : Z) (load_outcome : nat -> load_result)
  (client_outcome : nat -> reply) (image_path : string) (idx : nat) (s : frame) :
  process_image max_retries load_outcome client_outcome image_path idx s =
  match while_loop max_retries load_outcome client_outcome 0 image_path
          (Z.of_nat idx + 1) (mkFrame 0 (log s)) with
  | (Ok (Some o), s') => (Ok o, s')
  | (Ok None, s') => (Ok (false, Some "Maximum retries exceeded"), s')
  | (Raised e, s') => (Raised e, s')
  end.
Proof.
  unfold process_image, bind, set_retries, ret.
  destruct (while_loop _ _ _ _ _ _ _) as [[[o|]|e] s']; reflexivity.
Qed.

(** *** Raised errors against reported failures *)

Lemma retry_path_app (l1 l2 : list event) :
  retry_path (l1 ++ l2) = (retry_path l1 ++ retry_path l2)%list.
Proof. apply flat_map_app. Qed.

Lemma verdict_as_reported (load_outcome : nat -> load_result)
  (client_outcome : nat -> reply) (k : nat) :
  verdict_of always_loaded (as_reported load_outcome client_outcome) k =
  match verdict_of load_outcome client_outcome k with
  | Succeeds response => Succeeds response
  | Fails _ text => Fails false text
  end.
Proof.
  unfold verdict_of, as_reported, always_loaded.
  destruct (load_outcome k); [|reflexivity].
  destruct (client_outcome k) as [[|] response|e]; reflexivity.
Qed.

Lemma retry_path_calls (load_outcome : nat -> load_result) (k : nat) (image_path : string) :
  retry_path (calls_of load_outcome k image_path) = [Attempt].
Proof. unfold calls_of. destruct (load_outcome k); reflexivity. Qed.

Lemma while_loop_as_reported (max_retries : Z) (load_outcome : nat -> load_result)
  (client_outcome : nat -> reply) (image_path : string) (page_num : Z)
  (k : nat) (s : frame) :
  forall s2,
    retries s2 = retries s ->
    retry_path (log s2) = retry_path (log s) ->
    exists r s' s2',
      while_loop max_retries load_outcome client_outcome k image_path page_num s
      = (Ok r, s') /\
      while_loop max_retries always_loaded (as_reported load_outcome client_outcome)
        k image_path page_num s2 = (Ok r, s2') /\
      retries s2' = retries s' /\
      retry_path (log s2') = retry_path (log s').
Proof.
  apply (while_loop_induction max_retries load_outcome client_outcome
           image_path page_num
           (fun k s res =>
              forall s2,
                retries s2 = retries s ->
                retry_path (log s2) = retry_path (log s) ->
                exists r s' s2',
                  res = (Ok r, s') /\
                  while_loop max_retries always_loaded
                    (as_reported load_outcome client_outcome)
                    k image_path page_num s2 = (Ok r, s2') /\
                  retries s2' = retries s' /\
                  retry_path (log s2') = retry_path (log s'))).
  - intros k0 s0 Hgt s2 Hr Hp.
    exists None, s0, s2. rewrite while_loop_step, Hr.
    destruct (Z.leb_spec (retries s0) max_retries); [lia|]. auto.
  - intros k0 s0 response Hle Hv s2 Hr Hp.
    eexists _, _, _. split; [reflexivity|].
    rewrite while_loop_step, attempt_verdict, verdict_as_reported, Hv, Hr.
    destruct (Z.leb_spec (retries s0) max_retries); [|lia].
    split; [reflexivity|]. cbn [log retries].
    rewrite !retry_path_app, !retry_path_calls, Hp. auto.
  - intros k0 s0 raised text Heq Hv s2 Hr Hp.
    eexists _, _, _. split; [reflexivity|].
    rewrite while_loop_step, attempt_verdict, verdict_as_reported, Hv, Hr.
    destruct (Z.leb_spec (retries s0) max_retries); [|lia].
    destruct (Z.leb_spec (retries s0 + 1) max_retries); [lia|].
    split; [reflexivity|]. cbn [log retries].
    rewrite !retry_path_app, !retry_path_calls, Hp. auto.
  - intros k0 s0 raised text s1 Hlt Hv -> IH s2 Hr Hp.
    rewrite (while_loop_step _ always_loaded), attempt_verdict, verdict_as_reported, Hv, Hr.
    destruct (Z.leb_spec (retries s0) max_retries); [|lia].
    destruct (Z.leb_spec (retries s0 + 1) max_retries); [|lia].
    apply IH; [reflexivity|]. cbn [log retries].
    rewrite !retry_path_app, !retry_path_calls, Hp. reflexivity.
Qed.

Lemma waits_app (l1 l2 : list event) : waits (l1 ++ l2) = (waits l1 ++ waits l2)%list.
Proof. apply flat_map_app. Qed.

Lemma waits_calls (load_outcome : nat -> load_result) (k : nat) (image_path : string) :
  waits (calls_of load_outcome k image_path) = [].
Proof. unfold calls_of. destruct (load_outcome k); reflexivity. Qed.

(** *** The whole worker *)

Section ProcessImageFacts.

Variable max_retries : Z.
Variable load_outcome : nat -> load_result.
Variable client_outcome : nat -> reply.
Variable image_path : string.
Variable idx : nat.

Lemma process_image_ok (s : frame) :
  exists o s',
    process_image max_retries load_outcome client_outcome image_path idx s = (Ok o, s').
Proof.
  rewrite process_image_eq.
  destruct (while_loop_ok max_retries load_outcome client_outcome image_path
              (Z.of_nat idx + 1) 0 (mkFrame 0 (log s))) as (r & s' & ->).
  destruct r; eauto.
Qed.

(** The history of the worker is that of its loop. *)
Lemma process_image_log (s : frame) :
  log (snd (process_image max_retries load_outcome client_outcome image_path idx s)) =
  log (snd (while_loop max_retries load_outcome client_outcome 0 image_path
              (Z.of_nat idx + 1) (mkFrame 0 (log s)))).
Proof.
  rewrite process_image_eq.
  destruct (while_loop _ _ _ _ _ _ _) as [[[o|]|e] s']; reflexivity.
Qed.

Lemma process_image_sentinel (s : frame) :
  Forall sentinel (log s) ->
  Forall sentinel
    (log (snd (process_image max_retries load_outcome client_outcome image_path idx s))).
Proof.
  intro H. rewrite process_image_eq.
  pose proof (while_loop_sentinel max_retries load_outcome client_outcome image_path
                (Z.of_nat idx + 1) 0 (mkFrame 0 (log s)) H) as Hs.
  destruct (while_loop _ _ _ _ _ _ _) as [[[o|]|e] s']; exact Hs.
Qed.

End ProcessImageFacts.

End WorkerFacts.

(** ** The formatter *)

Module FormatterFacts.

Import Formatter.

Lemma format_results_eq (output_format : string) (results : list entry) :
  format_results output_format results =
  join separator (map (block output_format) results).
Proof.
  unfold format_results. f_equal.
  set (step := fun (output : list (option string)) (e : entry) => _).
  assert (H : forall output,
             fold_left step results output =
             (output ++ map (block output_format) results)%list).
  { induction results as [|e results IH]; intro output; cbn [fold_left map].
    - rewrite app_nil_r. reflexivity.
    - rewrite IH. unfold step, block.
      destruct (success e); rewrite <- app_assoc; reflexivity. }
  apply (H []).
Qed.

(** [str.join] on items that are all [str]. *)
Lemma items_from_strings (i : nat) (output : list (option string)) :
  Forall (fun item => item <> None) output ->
  items_from i output = Ok (map format_value output).
Proof.
  intro H. revert i. induction H as [|item output Hitem _ IH]; intro i; [reflexivity|].
  destruct item as [s|]; [|congruence]. cbn. rewrite IH. reflexivity.
Qed.

(** [str.join] raises as soon as one item is [None]. *)
Lemma items_from_none (i : nat) (output : list (option string)) :
  In None output -> exists e, items_from i output = Raised e.
Proof.
  revert i. induction output as [|item output IH]; intros i Hin; [destruct Hin|].
  destruct item as [s|]; cbn.
  - destruct Hin as [Hin|Hin]; [discriminate|].
    destruct (IH (S i) Hin) as (e & ->). eauto.
  - eauto.
Qed.

(** When the successes carry a text, every block is a [str] and the
    blocks are joined. *)
Lemma format_results_blocks (output_format : string) (results : list entry) :
  successes_carry_text results ->
  format_results output_format results =
  Ok (String.concat separator
        (map (fun e => format_value (block output_format e)) results)).
Proof.
  intro H. rewrite format_results_eq. unfold join.
  rewrite items_from_strings, map_map; [reflexivity|].
  apply Forall_forall. intros item Hin. apply in_map_iff in Hin.
  destruct Hin as (e & <- & He). unfold block.
  unfold successes_carry_text in H. rewrite Forall_forall in H. specialize (H e He).
  destruct (success e); [auto | discriminate].
Qed.

(** A success whose text is [None] makes the formatter raise. *)
Lemma format_results_raises (output_format : string) (results : list entry) :
  ~ successes_carry_text results ->
  exists e, format_results output_format results = Raised e.
Proof.
  intro H. rewrite format_results_eq. unfold join.
  assert (Hin : In None (map (block output_format) results)).
  { apply in_map_iff. unfold successes_carry_text in H.
    apply neg_Forall_Exists_neg in H.
    - apply Exists_exists in H. destruct H as (e & He & Hn). exists e. split; [|exact He].
      unfold block. destruct (success e); [|exfalso; apply Hn; discriminate].
      destruct (text e); [exfalso; apply Hn; discriminate | reflexivity].
    - intro e. destruct (success e); [|left; discriminate].
      destruct (text e); [left; discriminate | right; auto]. }
  destruct (items_from_none 0 _ Hin) as (e & ->). eauto.
Qed.

Lemma carries_text_dec (e : entry) :
  {success e = true -> text e <> None} + {~ (success e = true -> text e <> None)}.
Proof.
  destruct (success e); [|left; discriminate].
  destruct (text e); [left; discriminate | right; auto].
Qed.

(** The formatter returns a text when the successes carry a text, and
    then only. *)
Lemma format_results_ok (output_format : string) (results : list entry) :
  successes_carry_text results <->
  exists final_text, format_results output_format results = Ok final_text.
Proof.
  split.
  - intro H. rewrite (format_results_blocks _ _ H). eauto.
  - intros (final_text & H).
    destruct (Forall_dec _ carries_text_dec results) as [Hc|Hn]; [exact Hc|].
    destruct (format_results_raises output_format results Hn) as (e & He). congruence.
Qed.


End FormatterFacts.

(** ** The scheduler *)

Module SchedulerFacts.

Import Scheduler.

(** *** The sort *)

Lemma insert_permutation (e : entry) (l : list entry) :
  Permutation (insert e l) (e :: l).
Proof.
  induction l as [|x l IH]; cbn [insert]; [reflexivity|].
  destruct (idx e <? idx x)%nat; [reflexivity|].
  rewrite IH. apply perm_swap.
Qed.

Lemma sort_permutation (l : list entry) : Permutation (sort l) l.
Proof.
  unfold sort.
  assert (H : forall acc, Permutation (fold_left (fun sorted e => insert e sorted) l acc)
                            (acc ++ l)).
  { induction l as [|e l IH]; intro acc; cbn.
    - rewrite app_nil_r. reflexivity.
    - rewrite IH, insert_permutation. apply Permutation_middle. }
  apply (H []).
Qed.

Lemma insert_sorted (e : entry) (l : list entry) :
  Sorted le (map idx l) -> Sorted le (map idx (insert e l)).
Proof.
  induction l as [|x l IH]; cbn [insert map]; intro H.
  - repeat constructor.
  - destruct (Nat.ltb_spec (idx e) (idx x)) as [Hlt|Hge]; cbn [insert map].
    + constructor; [exact H|]. constructor. lia.
    + inversion H as [|? ? Hs Hhd]; subst.
      constructor; [apply IH; exact Hs|].
      destruct l as [|y l]; cbn [insert map].
      * constructor. exact Hge.
      * destruct (idx e <? idx y)%nat; cbn [insert map]; constructor; [exact Hge|].
        inversion Hhd; assumption.
Qed.

Lemma sort_sorted (l : list entry) : Sorted le (map idx (sort l)).
Proof.
  unfold sort.
  assert (H : forall acc, Sorted le (map idx acc) ->
                          Sorted le (map idx (fold_left (fun sorted e => insert e sorted) l acc))).
  { induction l as [|e l IH]; intros acc Hacc; cbn; [exact Hacc|].
    apply IH, insert_sorted, Hacc. }
  apply H. constructor.
Qed.

(** A list of numbers has one ascending arrangement. *)
Lemma sorted_permutation_unique (l1 l2 : list nat) :
  StronglySorted le l1 -> StronglySorted le l2 -> Permutation l1 l2 -> l1 = l2.
Proof.
  revert l2. induction l1 as [|a l1 IH]; intros l2 H1 H2 Hp.
  - apply Permutation_nil in Hp. symmetry. exact Hp.
  - destruct l2 as [|b l2]; [apply Permutation_sym, Permutation_nil in Hp; discriminate|].
    inversion H1 as [|? ? Hs1 Hf1]; subst.
    inversion H2 as [|? ? Hs2 Hf2]; subst.
    assert (Hab : a = b).
    { assert (Ha : In a (b :: l2)) by (eapply Permutation_in; [exact Hp | left; reflexivity]).
      assert (Hb : In b (a :: l1))
        by (eapply Permutation_in; [apply Permutation_sym; exact Hp | left; reflexivity]).
      rewrite Forall_forall in Hf1, Hf2.
      destruct Ha as [->|Ha]; [reflexivity|].
      destruct Hb as [->|Hb]; [reflexivity|].
      specialize (Hf1 _ Hb). specialize (Hf2 _ Ha). lia. }
    subst b. f_equal. apply IH; [assumption | assumption |].
    eapply Permutation_cons_inv. exact Hp.
Qed.

Lemma seq_sorted (a n : nat) : StronglySorted le (seq a n).
Proof.
  revert a. induction n as [|n IH]; intro a; cbn; constructor; [apply IH|].
  apply Forall_forall. intros x Hx. apply in_seq in Hx. lia.
Qed.

Lemma seq_ascending (a n : nat) : StronglySorted lt (seq a n).
Proof.
  revert a. induction n as [|n IH]; intro a; cbn; constructor; [apply IH|].
  apply Forall_forall. intros x Hx. apply in_seq in Hx. lia.
Qed.

(** *** The loop over the completed futures *)

Section Loop.

Variable n_images : nat.
Variable output_format : string.
Variable future : nat -> result outcome.

Lemma idx_entry_of (i : nat) : idx (entry_of future i) = i.
Proof. unfold entry_of. destruct (future i) as [[su t]|e]; reflexivity. Qed.


Lemma as_completed_loop_eq (order : list nat) :
  (0 < n_images)%nat ->
  forall i s,
    as_completed_loop n_images future i order s =
    (Ok tt, mkFrame (results s ++ map (entry_of future) order)
                    (emitted s ++ emissions_from n_images future i order)).
Proof.
  intro Hn. induction order as [|j order IH]; intros i s; cbn.
  - rewrite !app_nil_r. destruct s; reflexivity.
  - unfold bind at 1.
    assert (Hc : collect n_images future i j s =
                 (Ok tt, mkFrame (results s ++ [entry_of future j])
                                 (emitted s ++
                                  match future j with
                                  | Ok _ => [(PyFloat.percent (Z.of_nat i + 1) (Z.of_nat n_images),
                                              processed_message n_images j)]
                                  | Raised _ => []
                                  end))).
    { unfold collect, try_except, bind, future_result, append, emit, PyFloat.true_div,
        entry_of, processed_message, PyFloat.percent.
      destruct (future j) as [[su t]|e]; cbn.
      - destruct (Z.eqb_spec (Z.of_nat n_images) 0) as [E|_]; [lia|]. reflexivity.
      - rewrite app_nil_r. reflexivity. }
    rewrite Hc, IH. cbn [results emitted].
    rewrite <- !app_assoc. reflexivity.
Qed.

Lemma sorted_results (order : list nat) :
  Permutation order (seq 0 n_images) ->
  sort (map (entry_of future) order) = map (entry_of future) (seq 0 n_images).
Proof.
  intro Hp.
  set (l := sort (map (entry_of future) order)).
  assert (Hl : Permutation l (map (entry_of future) order)) by apply sort_permutation.
  assert (Hidx : map idx l = seq 0 n_images).
  { apply sorted_permutation_unique.
    - apply Sorted_StronglySorted; [intros x y z; apply Nat.le_trans | apply sort_sorted].
    - apply seq_sorted.
    - rewrite Hl, map_map.
      rewrite (map_ext _ (fun i => i)) by apply idx_entry_of.
      rewrite map_id. exact Hp. }
  assert (Hent : Forall (fun e => e = entry_of future (idx e)) l).
  { apply Forall_forall. intros e He.
    apply (Permutation_in _ Hl) in He. apply in_map_iff in He.
    destruct He as (i & <- & _). rewrite idx_entry_of. reflexivity. }
  rewrite <- Hidx, map_map.
  clear -Hent. induction Hent as [|e l He _ IH]; cbn; [reflexivity|].
  rewrite <- He, <- IH. reflexivity.
Qed.

(** [run] from the submission on, for a completion order that yields every
    future once. *)
Lemma run_from_eq (order : list nat) :
  Permutation order (seq 0 n_images) ->
  run_from n_images output_format future order nothing =
  (Formatter.format_results output_format (map (entry_of future) (seq 0 n_images)),
   mkFrame (map (entry_of future) (seq 0 n_images))
           (emissions_from n_images future 0 order)).
Proof.
  intro Hp. unfold run_from, bind, sort_results, get_results, format_results.
  destruct n_images as [|n] eqn:En.
  - cbn in Hp. apply Permutation_sym, Permutation_nil in Hp. subst order. reflexivity.
  - rewrite <- En in *. rewrite as_completed_loop_eq by lia.
    cbn [results emitted nothing app]. rewrite sorted_results by exact Hp.
    reflexivity.
Qed.

(** When no future raises, the loop emits once per completion. *)
Lemma emissions_from_ok (order : list nat) (i : nat) :
  (forall j, exists o, future j = Ok o) ->
  emissions_from n_images future i order =
  map (fun p => (PyFloat.percent (Z.of_nat (fst p) + 1) (Z.of_nat n_images),
                 processed_message n_images (snd p)))
      (combine (seq i (length order)) order).
Proof.
  intro Hok. revert i. induction order as [|j order IH]; intro i; cbn; [reflexivity|].
  destruct (Hok j) as [o ->]. cbn. rewrite IH. reflexivity.
Qed.

End Loop.

(** *** The progress stream *)

Lemma shown_cons (x : Z * string) (stream : list (Z * string)) :
  shown (x :: stream) =
  if fst x =? -1 then shown stream else fst x :: shown stream.
Proof. unfold shown. cbn. destruct (fst x =? -1); reflexivity. Qed.

(** Only the first thread's values are shown when every other thread emits
    the sentinel alone. *)
Lemma interleaved_shown (l0 : list (Z * string)) (rest : list (list (Z * string)))
  (stream : list (Z * string)) :
  interleaved (l0 :: rest) stream ->
  Forall (Forall (fun ev => fst ev = -1)) rest ->
  shown stream = shown l0.
Proof.
  intro H. remember (l0 :: rest) as threads eqn:E. revert l0 rest E.
  induction H as [threads Hall | before x l after stream Hi IH]; intros l0 rest E Hrest.
  - subst threads. inversion Hall; subst. reflexivity.
  - destruct before as [|b before]; cbn in E; injection E as <- <-.
    + rewrite !shown_cons. rewrite (IH l after eq_refl Hrest). reflexivity.
    + apply Forall_app in Hrest. destruct Hrest as [Hb Hx].
      inversion Hx as [|? ? Hxl Ha]; subst.
      inversion Hxl as [|? ? Hx1 Hl]; subst.
      rewrite shown_cons, Hx1. cbn.
      apply (IH b (before ++ l :: after)%list eq_refl).
      apply Forall_app. split; [exact Hb|]. constructor; assumption.
Qed.

Lemma interleaved_nil (stream : list (Z * string)) :
  interleaved [[]] stream -> stream = [].
Proof.
  intro H. inversion H as [|before x l after stream' Hi E]; [reflexivity|].
  destruct before as [|b before]; [discriminate|].
  destruct before; discriminate.
Qed.

(** The scheduler's own notifications are all shown; their values grow
    with the count of completed futures and end at 100. *)
Lemma shown_emissions (n : nat) (order : list nat) (i : nat) :
  (0 < n)%nat ->
  shown (map (fun p => (PyFloat.percent (Z.of_nat (fst p) + 1) (Z.of_nat n),
                        processed_message n (snd p)))
             (combine (seq i (length order)) order)) =
  map (fun j => PyFloat.percent (Z.of_nat j + 1) (Z.of_nat n)) (seq i (length order)).
Proof.
  intro Hn. revert i.
  induction order as [|idx order IH]; intro i; cbn [length seq combine map]; [reflexivity|].
  rewrite shown_cons. cbn [fst snd].
  pose proof (PyFloatFacts.percent_nonneg (Z.of_nat i + 1) (Z.of_nat n)) as Hp.
  destruct (Z.eqb_spec (PyFloat.percent (Z.of_nat i + 1) (Z.of_nat n)) (-1)) as [E|_].
  - lia.
  - f_equal. apply IH.
Qed.

Lemma percents_sorted (n i len : nat) :
  (0 < n)%nat ->
  StronglySorted Z.le
    (map (fun j => PyFloat.percent (Z.of_nat j + 1) (Z.of_nat n)) (seq i len)).
Proof.
  intro Hn. revert i. induction len as [|len IH]; intro i; cbn [seq map]; constructor.
  - apply IH.
  - apply Forall_forall. intros v Hv. apply in_map_iff in Hv.
    destruct Hv as (j & <- & Hj). apply in_seq in Hj.
    apply PyFloatFacts.percent_mono; lia.
Qed.

Lemma last_percent (n : nat) :
  (0 < n)%nat ->
  last (map (fun j => PyFloat.percent (Z.of_nat j + 1) (Z.of_nat n)) (seq 0 n)) 0 = 100.
Proof.
  intro Hn. destruct n as [|m]; [lia|].
  rewrite seq_S, map_app. cbn [map Nat.add]. rewrite last_last.
  replace (Z.of_nat m + 1) with (Z.of_nat (S m)) by lia.
  apply PyFloatFacts.percent_full. lia.
Qed.

(** [int] takes the integer part of a float that is not negative. *)
Lemma percent_truncates (k n : Z) :
  0 <= k -> 0 < n ->
  (inject_Z (PyFloat.percent k n) <= PyFloat.float_mul (PyFloat.quotient k n) 100)%Q /\
  (PyFloat.float_mul (PyFloat.quotient k n) 100 < inject_Z (PyFloat.percent k n + 1))%Q.
Proof.
  intros Hk Hn. unfold PyFloat.percent, PyFloat.int_of_float.
  assert (H : (0 <= PyFloat.float_mul (PyFloat.quotient k n) 100)%Q).
  { unfold PyFloat.float_mul. apply PyFloatFacts.round_nonneg.
    apply Qmult_le_0_compat; [apply PyFloatFacts.quotient_nonneg; assumption | discriminate]. }
  apply Qle_bool_iff in H. rewrite H.
  split; [apply Qfloor_le | apply Qlt_floor].
Qed.

(** *** The whole task *)

Section TaskFacts.

Variable images : list string.
Variable max_retries : Z.
Variable output_format : string.
Variable load_outcome : nat -> nat -> Worker.load_result.
Variable client_outcome : nat -> nat -> Worker.reply.

Local Abbreviation submit := (Scheduler.submit images max_retries load_outcome client_outcome).
Local Abbreviation future := (fun idx => fst (submit idx)).

Lemma submit_ok (idx : nat) : exists o, fst (submit idx) = Ok o.
Proof.
  unfold Scheduler.submit.
  destruct (WorkerFacts.process_image_ok max_retries (load_outcome idx) (client_outcome idx)
              (nth idx images EmptyString) idx Worker.start) as (o & s' & ->).
  exists o. reflexivity.
Qed.

Lemma worker_progress_sentinel (idx : nat) :
  Forall (fun ev => fst ev = -1)
    (worker_progress images max_retries load_outcome client_outcome idx).
Proof.
  unfold worker_progress, Scheduler.submit.
  pose proof (WorkerFacts.process_image_sentinel max_retries (load_outcome idx)
                (client_outcome idx) (nth idx images EmptyString) idx Worker.start
                (Forall_nil _)) as H.
  induction H as [|ev l Hev _ IH]; cbn; [constructor|].
  destruct ev; cbn; try exact IH. constructor; [exact Hev | exact IH].
Qed.

(** [run] for a completion order that yields every future once. *)
Lemma run_eq (order : list nat) :
  Permutation order (seq 0 (length images)) ->
  run images max_retries output_format load_outcome client_outcome order =
  (Formatter.format_results output_format
     (map (entry_of future) (seq 0 (length images))),
   mkFrame (map (entry_of future) (seq 0 (length images)))
     (map (fun p => (PyFloat.percent (Z.of_nat (fst p) + 1) (Z.of_nat (length images)),
                     processed_message (length images) (snd p)))
          (enumerate order))).
Proof.
  intro Hp. unfold run. rewrite run_from_eq by exact Hp.
  rewrite emissions_from_ok by (intro j; apply submit_ok).
  reflexivity.
Qed.


(** What the progress bar shows during a run, whatever the merge of the
    threads' emissions. *)
Lemma shown_stream (order : list nat) (stream : list (Z * string)) :
  (0 < length images)%nat ->
  Permutation order (seq 0 (length images)) ->
  progress_stream images max_retries output_format load_outcome client_outcome order stream ->
  shown stream =
  map (fun j => PyFloat.percent (Z.of_nat j + 1) (Z.of_nat (length images)))
      (seq 0 (length images)).
Proof.
  intros Hn Hp Hs. unfold progress_stream in Hs.
  apply interleaved_shown in Hs.
  - rewrite Hs, run_eq by exact Hp. cbn [snd emitted]. unfold enumerate.
    rewrite shown_emissions by exact Hn.
    rewrite (Permutation_length Hp), length_seq. reflexivity.
  - apply Forall_forall. intros l Hl. apply in_map_iff in Hl.
    destruct Hl as (i & <- & _). apply worker_progress_sentinel.
Qed.

End TaskFacts.

End SchedulerFacts.

(** ** Python strings *)

Module PyStrFacts.
Import PyStr.

Lemma append_nil_r (s : string) : s ++ EmptyString = s.
Proof. induction s as [|c s IH]; cbn; [reflexivity | rewrite IH; reflexivity]. Qed.

Lemma append_assoc (s t u : string) : (s ++ t) ++ u = s ++ t ++ u.
Proof. induction s as [|c s IH]; cbn; [reflexivity | rewrite IH; reflexivity]. Qed.

Lemma length_drop (n : nat) (s : string) :
  (String.length (drop n s) <= String.length s)%nat.
Proof.
  revert s. induction n as [|n IH]; intro s; cbn; [lia|].
  destruct s as [|c s]; cbn; [lia|]. specialize (IH s). lia.
Qed.

Lemma replace_from_step (old new s : string) :
  replace_from old new s =
  match s with
  | EmptyString => EmptyString
  | String c s' =>
      if prefix old s
      then new ++ replace_from old new (drop (String.length old - 1) s')
      else String c (replace_from old new s')
  end.
Proof.
  funelim (replace_from old new s); [reflexivity| |].
  all: match goal with H : prefix _ _ = _ |- _ => rewrite H end; reflexivity.
Qed.

Lemma replace_from_cons (old new : string) (c : ascii) (s : string) :
  replace_from old new (String c s) =
  if prefix old (String c s)
  then new ++ replace_from old new (drop (String.length old - 1) s)
  else String c (replace_from old new s).
Proof. apply (replace_from_step old new (String c s)). Qed.

Lemma replace_from_induction (old new : string) (P : string -> string -> Prop) :
  P EmptyString EmptyString ->
  (forall c s,
      prefix old (String c s) = true ->
      P (drop (String.length old - 1) s)
        (replace_from old new (drop (String.length old - 1) s)) ->
      P (String c s) (new ++ replace_from old new (drop (String.length old - 1) s))) ->
  (forall c s,
      prefix old (String c s) = false ->
      P s (replace_from old new s) ->
      P (String c s) (String c (replace_from old new s))) ->
  forall s, P s (replace_from old new s).
Proof.
  intros Hnil Hhit Hmiss s.
  remember (String.length s) as n eqn:Hn. revert s Hn.
  induction n as [n IH] using lt_wf_ind. intros s Hn.
  destruct s as [|c s].
  - rewrite replace_from_equation_1. exact Hnil.
  - rewrite replace_from_cons. cbn in Hn.
    destruct (prefix old (String c s)) eqn:E.
    + apply Hhit; [exact E|].
      apply (IH (String.length (drop (String.length old - 1) s))); [|reflexivity].
      pose proof (length_drop (String.length old - 1) s). lia.
    + apply Hmiss; [exact E|]. apply (IH (String.length s)); [lia | reflexivity].
Qed.

Lemma occurs_tail (p : string) (c : ascii) (s : string) :
  occurs p (String c s) = false -> occurs p s = false.
Proof. cbn [occurs]. intro H. apply orb_false_iff in H. apply H. Qed.

Lemma occurs_drop (p : string) (n : nat) (s : string) :
  occurs p s = false -> occurs p (drop n s) = false.
Proof.
  revert s. induction n as [|n IH]; intros s H; cbn; [exact H|].
  destruct s as [|c s]; [exact H|]. apply IH. apply (occurs_tail p c s H).
Qed.

Lemma occurs_not_prefix (p s : string) : occurs p s = false -> prefix p s = false.
Proof. destruct s; cbn [occurs]; intro H; apply orb_false_iff in H; apply H. Qed.

(** A text in which [old] does not occur is left as it is. *)
Lemma replace_absent (old new s : string) :
  occurs old s = false -> replace old new s = s.
Proof.
  destruct old as [|a old'].
  - destruct s; cbn; discriminate.
  - unfold replace. revert s.
    apply (replace_from_induction (String a old') new
             (fun s out => occurs (String a old') s = false -> out = s)).
    + reflexivity.
    + intros c s Hhit _ H. apply occurs_not_prefix in H. congruence.
    + intros c s _ IH H. f_equal. apply IH. apply (occurs_tail _ c s H).
Qed.

(** *** Patterns of two characters *)

Lemma prefix_two (a b x : ascii) (t : string) :
  prefix (two a b) (String x t) = true <->
  x = a /\ exists t', t = String b t'.
Proof.
  unfold two. cbn. destruct (ascii_dec a x) as [->|Hne].
  - destruct t as [|y t]; cbn.
    + split; [discriminate | intros [_ [t' H]]; discriminate].
    + destruct (ascii_dec b y) as [->|Hne'].
      * split; [eauto | intros _; destruct t; reflexivity].
      * split; [discriminate | intros [_ [t' H]]; congruence].
  - split; [discriminate | intros [-> _]; congruence].
Qed.

(** A text that does not hold [a] brings no occurrence of [a b] when put
    in front. *)
Lemma occurs_two_app (a b : ascii) (new t : string) :
  has_char a new = false ->
  occurs (two a b) (new ++ t) = occurs (two a b) t.
Proof.
  induction new as [|x n IH]; intro H; [reflexivity|].
  cbn [has_char] in H. apply orb_false_iff in H. destruct H as [Hx Hn].
  cbn [append occurs]. rewrite (IH Hn).
  destruct (prefix (two a b) (String x (n ++ t))) eqn:E; [|reflexivity].
  apply prefix_two in E. destruct E as [-> _].
  rewrite Ascii.eqb_refl in Hx. discriminate.
Qed.

(** Replacing [old] by a text that does not hold [a] and starts with a
    character other than [b] brings no occurrence of [a b], and removes
    them all when [old] is [a b] itself. *)
Lemma replace_from_two_absent (a b : ascii) (old new s : string) :
  has_char a new = false ->
  match new with EmptyString => False | String h _ => h <> b end ->
  occurs (two a b) s = false \/ old = two a b ->
  occurs (two a b) (replace_from old new s) = false.
Proof.
  intros Hnew Hhead. revert s.
  apply (replace_from_induction old new
           (fun s out => occurs (two a b) s = false \/ old = two a b ->
                         occurs (two a b) out = false)).
  - reflexivity.
  - intros c s _ IH H. rewrite occurs_two_app by exact Hnew. apply IH.
    destruct H as [H|H]; [left | right; exact H].
    apply occurs_drop. apply (occurs_tail _ c s H).
  - intros c s Hmiss IH H. cbn [occurs]. apply orb_false_iff. split.
    + destruct (prefix (two a b) (String c (replace_from old new s))) eqn:E; [|reflexivity].
      exfalso. apply prefix_two in E. destruct E as [-> [t' Ht]].
      assert (Hs : prefix (two a b) (String a s) = false).
      { destruct H as [H|H]; [apply occurs_not_prefix; exact H | rewrite <- H; exact Hmiss]. }
      destruct s as [|y s]; [rewrite replace_from_equation_1 in Ht; discriminate|].
      rewrite replace_from_cons in Ht.
      destruct (prefix old (String y s)).
      * destruct new as [|h n]; [contradiction|]. cbn in Ht. congruence.
      * injection Ht as -> _.
        assert (prefix (two a b) (String a (String b s)) = true)
          by (apply prefix_two; eauto).
        congruence.
    + apply IH. destruct H as [H|H]; [left | right; exact H].
      apply (occurs_tail _ c s H).
Qed.

End PyStrFacts.

(** ** The transcriber *)

Module OpenAIClientFacts.

Import OpenAIClient.

(** The replacements of [repair] bring no backslash and start with a
    dollar. *)
Lemma dollar_replacement (b : ascii) (old new s : string) :
  new = "$" \/ new = "$$" ->
  b <> "$"%char ->
  PyStr.occurs (PyStr.two "\" b) s = false \/ old = PyStr.two "\" b ->
  PyStr.occurs (PyStr.two "\" b) (PyStr.replace_from old new s) = false.
Proof.
  intros Hnew Hb H. apply PyStrFacts.replace_from_two_absent; [| |exact H].
  - destruct Hnew as [->| ->]; reflexivity.
  - destruct Hnew as [->| ->]; congruence.
Qed.

(** No delimiter is left in a repaired text. *)
Lemma repair_clean (s : string) :
  Forall (fun p => PyStr.occurs p (repair s) = false) delimiters.
Proof.
  unfold repair, delimiters, PyStr.replace.
  set (s1 := PyStr.replace_from "\(" "$" s).
  set (s2 := PyStr.replace_from "\)" "$" s1).
  set (s3 := PyStr.replace_from "\[" "$$" s2).
  assert (H1 : PyStr.occurs "\(" s1 = false)
    by (apply (dollar_replacement "("); [tauto | discriminate | right; reflexivity]).
  assert (H12 : PyStr.occurs "\(" s2 = false)
    by (apply (dollar_replacement "("); [tauto | discriminate | left; exact H1]).
  assert (H2 : PyStr.occurs "\)" s2 = false)
    by (apply (dollar_replacement ")"); [tauto | discriminate | right; reflexivity]).
  assert (H13 : PyStr.occurs "\(" s3 = false)
    by (apply (dollar_replacement "("); [tauto | discriminate | left; exact H12]).
  assert (H23 : PyStr.occurs "\)" s3 = false)
    by (apply (dollar_replacement ")"); [tauto | discriminate | left; exact H2]).
  assert (H3 : PyStr.occurs "\[" s3 = false)
    by (apply (dollar_replacement "["); [tauto | discriminate | right; reflexivity]).
  repeat constructor.
  - apply (dollar_replacement "("); [tauto | discriminate | left; exact H13].
  - apply (dollar_replacement ")"); [tauto | discriminate | left; exact H23].
  - apply (dollar_replacement "["); [tauto | discriminate | left; exact H3].
  - apply (dollar_replacement "]"); [tauto | discriminate | right; reflexivity].
Qed.

(** A text that holds no delimiter is left as it is. *)
Lemma repair_absent (s : string) :
  Forall (fun p => PyStr.occurs p s = false) delimiters -> repair s = s.
Proof.
  intro H. unfold delimiters in H.
  inversion H as [|? ? H1 Ha]; subst. inversion Ha as [|? ? H2 Hb]; subst.
  inversion Hb as [|? ? H3 Hc]; subst. inversion Hc as [|? ? H4 _]; subst.
  unfold repair. rewrite (PyStrFacts.replace_absent _ _ _ H1).
  rewrite (PyStrFacts.replace_absent _ _ _ H2).
  rewrite (PyStrFacts.replace_absent _ _ _ H3).
  apply (PyStrFacts.replace_absent _ _ _ H4).
Qed.

(** A pattern that starts with a character the text does not hold does
    not occur in it. *)
Lemma occurs_without_first (a : ascii) (p s : string) :
  PyStr.has_char a s = false -> PyStr.occurs (String a p) s = false.
Proof.
  induction s as [|x s IH]; intro H; [reflexivity|].
  cbn [PyStr.has_char] in H. apply orb_false_iff in H. destruct H as [Hx Hs].
  cbn [PyStr.occurs]. rewrite (IH Hs), orb_false_r.
  cbn. destruct (ascii_dec a x) as [->|_]; [|reflexivity].
  rewrite Ascii.eqb_refl in Hx. discriminate.
Qed.

(** When every chunk holds a choice, the loop gives the delivered text. *)
Lemma iterate_delivered (completion : list choices) (message_content : string) :
  Forall (fun chunk => chunk <> []) completion ->
  iterate message_content completion = Ok (message_content ++ delivered completion).
Proof.
  intro H. revert message_content.
  induction H as [|chunk rest Hc _ IH]; intro message_content; cbn [iterate delivered].
  - rewrite PyStrFacts.append_nil_r. reflexivity.
  - destruct chunk as [|[content|] others]; [congruence | |]; cbn [first_choice].
    + rewrite IH, PyStrFacts.append_assoc. reflexivity.
    + apply IH.
Qed.

(** A chunk without a choice makes the loop raise. *)
Lemma iterate_raises (completion : list choices) (message_content : string) :
  Exists (fun chunk => chunk = []) completion ->
  iterate message_content completion = Raised "list index out of range".
Proof.
  intro H. revert message_content.
  induction completion as [|chunk rest IH]; intro message_content;
    [inversion H|]. cbn [iterate].
  destruct chunk as [|[content|] others]; [reflexivity | |]; cbn [first_choice];
    apply IH; inversion H; subst; try discriminate; assumption.
Qed.

(** The loop ends without raising only if every chunk holds a choice. *)
Lemma iterate_ok (completion : list choices) (message_content text : string) :
  iterate message_content completion = Ok text ->
  Forall (fun chunk => chunk <> []) completion.
Proof.
  revert message_content.
  induction completion as [|chunk rest IH]; intros message_content H; [constructor|].
  cbn [iterate] in H.
  destruct chunk as [|[content|] others]; cbn [first_choice] in H; [discriminate | |];
    (constructor; [discriminate | eapply IH; exact H]).
Qed.

(** The loop raises nothing but the [IndexError] of a chunk without a
    choice. *)
Lemma iterate_raised (completion : list choices) (message_content : string) (e : exn) :
  iterate message_content completion = Raised e ->
  Exists (fun chunk => chunk = []) completion /\ e = "list index out of range".
Proof.
  revert message_content.
  induction completion as [|chunk rest IH]; intros message_content H; [discriminate|].
  cbn [iterate] in H.
  destruct chunk as [|[content|] others]; cbn [first_choice] in H.
  - injection H as <-. split; [left|]; reflexivity.
  - destruct (IH _ H) as [Hex He]. split; [right; exact Hex | exact He].
  - destruct (IH _ H) as [Hex He]. split; [right; exact Hex | exact He].
Qed.

End OpenAIClientFacts.

(** ** Dicts, files and the configuration *)

Module PyDictFacts.

Lemma get_set_same (d : dict) (key : string) (v : json) :
  PyDict.get (PyDict.set d key v) key = Some v.
Proof.
  induction d as [|[k x] d IH]; cbn [PyDict.set PyDict.get].
  - rewrite String.eqb_refl. reflexivity.
  - destruct (String.eqb k key) eqn:E; cbn [PyDict.get]; rewrite E;
      [reflexivity | exact IH].
Qed.

Lemma get_set_other (d : dict) (key key' : string) (v : json) :
  key <> key' -> PyDict.get (PyDict.set d key v) key' = PyDict.get d key'.
Proof.
  intro Hne. apply String.eqb_neq in Hne.
  induction d as [|[k x] d IH]; cbn [PyDict.set PyDict.get].
  - rewrite Hne. reflexivity.
  - destruct (String.eqb k key) eqn:E; cbn [PyDict.get].
    + apply String.eqb_eq in E. subst k. rewrite Hne. reflexivity.
    + rewrite IH. reflexivity.
Qed.

End PyDictFacts.

Module DiskFacts.

Import Disk.

Lemma read_write_same (files : disk) (path : string) (content : dict) :
  read (write files path content) path = Some content.
Proof.
  induction files as [|[p c] files IH]; cbn [write read].
  - rewrite String.eqb_refl. reflexivity.
  - destruct (String.eqb p path) eqn:E; cbn [read]; rewrite E;
      [reflexivity | exact IH].
Qed.

Lemma read_write_other (files : disk) (path path' : string) (content : dict) :
  path <> path' -> read (write files path content) path' = read files path'.
Proof.
  intro Hne. apply String.eqb_neq in Hne.
  induction files as [|[p c] files IH]; cbn [write read].
  - rewrite Hne. reflexivity.
  - destruct (String.eqb p path) eqn:E; cbn [read].
    + apply String.eqb_eq in E. subst p. rewrite Hne. reflexivity.
    + rewrite IH. reflexivity.
Qed.

Lemma read_remove_same (files : disk) (path : string) :
  read (remove files path) path = None.
Proof.
  induction files as [|[p c] files IH]; [reflexivity|].
  unfold remove. cbn [filter fst]. fold (remove files path).
  destruct (String.eqb p path) eqn:E; cbn [negb]; [exact IH|].
  cbn [read]. rewrite E. exact IH.
Qed.

Lemma read_remove_other (files : disk) (path path' : string) :
  path <> path' -> read (remove files path) path' = read files path'.
Proof.
  intro Hne. apply String.eqb_neq in Hne.
  induction files as [|[p c] files IH]; [reflexivity|].
  unfold remove. cbn [filter fst]. fold (remove files path).
  destruct (String.eqb p path) eqn:E; cbn [negb read].
  - apply String.eqb_eq in E. subst p. rewrite Hne. exact IH.
  - rewrite IH. reflexivity.
Qed.

Lemma read_In (files : disk) (path : string) (content : dict) :
  read files path = Some content -> In (path, content) files.
Proof.
  induction files as [|[p c] files IH]; cbn [read]; [discriminate|].
  destruct (String.eqb p path) eqn:E.
  - apply String.eqb_eq in E. intros [= ->]. left. congruence.
  - intro H. right. exact (IH H).
Qed.

Lemma In_read (files : disk) (path : string) (content : dict) :
  In (path, content) files -> read files path <> None.
Proof.
  induction files as [|[p c] files IH]; cbn [read In]; [tauto|].
  intros [[= -> ->]|H].
  - rewrite String.eqb_refl. discriminate.
  - destruct (String.eqb p path); [discriminate | exact (IH H)].
Qed.

Lemma strip_prefix_app (start name : string) :
  strip_prefix start (start ++ name) = Some name.
Proof.
  induction start as [|a start IH]; cbn; [reflexivity|].
  rewrite Ascii.eqb_refl. exact IH.
Qed.

Lemma strip_prefix_some (start path name : string) :
  strip_prefix start path = Some name -> path = start ++ name.
Proof.
  revert path. induction start as [|a start IH]; intros path; cbn.
  - intros [= ->]. reflexivity.
  - destruct path as [|b path]; [discriminate|].
    destruct (Ascii.eqb a b) eqn:E; [|discriminate].
    apply Ascii.eqb_eq in E. subst b. intro H. f_equal. exact (IH _ H).
Qed.

(** The files that [listdir] names. *)
Lemma listdir_In (files : disk) (directory name : string) :
  In name (listdir files directory) <->
  PyStr.has_char "/" name = false /\ read files (directory ++ "/" ++ name) <> None.
Proof.
  unfold listdir. rewrite in_flat_map. split.
  - intros [[p c] [Hin H]]. cbn [fst] in H.
    destruct (strip_prefix (directory ++ "/") p) as [f|] eqn:E; [|destruct H].
    destruct (PyStr.has_char "/" f) eqn:Hf; [destruct H|].
    destruct H as [<-|[]]. split; [exact Hf|].
    apply strip_prefix_some in E. rewrite PyStrFacts.append_assoc in E. subst p.
    exact (In_read _ _ _ Hin).
  - intros [Hf H]. destruct (read files (directory ++ "/" ++ name)) as [c|] eqn:E;
      [|congruence].
    exists (directory ++ "/" ++ name, c). split; [exact (read_In _ _ _ E)|].
    cbn [fst]. rewrite <- PyStrFacts.append_assoc, strip_prefix_app, Hf.
    left. reflexivity.
Qed.

End DiskFacts.

Module ConfigManagerFacts.

Import ConfigManager.

(** *** Texts *)

Lemma length_append (s t : string) :
  String.length (s ++ t) = (String.length s + String.length t)%nat.
Proof. induction s as [|c s IH]; cbn; [reflexivity | rewrite IH; reflexivity]. Qed.

Lemma append_inv_head (s a b : string) : s ++ a = s ++ b -> a = b.
Proof.
  induction s as [|c s IH]; cbn; intro H; [exact H|].
  injection H as H. exact (IH H).
Qed.

Lemma append_inv_tail (t a b : string) : a ++ t = b ++ t -> a = b.
Proof.
  revert b. induction a as [|x a IH]; intros [|y b] H; cbn in H.
  - reflexivity.
  - exfalso. apply (f_equal String.length) in H. cbn in H.
    rewrite length_append in H. lia.
  - exfalso. apply (f_equal String.length) in H. cbn in H.
    rewrite length_append in H. lia.
  - injection H as -> H. f_equal. exact (IH _ H).
Qed.

Lemma drop_app (s t : string) : PyStr.drop (String.length s) (s ++ t) = t.
Proof. induction s as [|c s IH]; cbn; [reflexivity | exact IH]. Qed.

Lemma has_char_app (c : ascii) (s t : string) :
  PyStr.has_char c (s ++ t) = PyStr.has_char c s || PyStr.has_char c t.
Proof.
  induction s as [|x s IH]; cbn; [reflexivity|].
  rewrite IH, orb_assoc. reflexivity.
Qed.

(** *** Paths *)

Lemma assistant_path_inj (a b : string) :
  assistant_path a = assistant_path b -> a = b.
Proof.
  unfold assistant_path. intro H.
  apply append_inv_head in H. apply append_inv_head in H.
  exact (append_inv_tail _ _ _ H).
Qed.

Lemma assistant_path_not_config (name : string) : assistant_path name <> config_file.
Proof. unfold assistant_path, assistants_dir, config_file. cbn. discriminate. Qed.

(** *** The names that are listed *)

Lemma endswith_app (s suffix : string) : endswith (s ++ suffix) suffix = true.
Proof.
  unfold endswith. rewrite length_append.
  replace (String.length s + String.length suffix - String.length suffix)%nat
    with (String.length s) by lia.
  rewrite drop_app, String.eqb_refl, andb_true_r. apply Nat.leb_le. lia.
Qed.

(** No [.json] starts within a text that holds none and ends within a
    text that starts with one. *)
Lemma no_straddle (c : ascii) (s t : string) :
  prefix ".json" (String c s) = false ->
  prefix ".json" t = true ->
  prefix ".json" (String c s ++ t) = false.
Proof.
  intros H Ht. destruct t as [|t0 t]; cbn [prefix] in Ht; [discriminate Ht|].
  destruct (ascii_dec "." t0) as [<-|]; [clear Ht|discriminate Ht].
  destruct s as [|c1 [|c2 [|c3 [|c4 s]]]]; cbn [prefix append] in *;
    repeat match goal with
      | |- context [ascii_dec ?a ?b] =>
          destruct (ascii_dec a b); try discriminate; try reflexivity
      end;
    try congruence.
  destruct s; discriminate H.
Qed.

Lemma replace_before_suffix (name t : string) :
  PyStr.occurs ".json" name = false ->
  prefix ".json" t = true ->
  PyStr.replace_from ".json" EmptyString (name ++ t)
  = name ++ PyStr.replace_from ".json" EmptyString t.
Proof.
  intros Hname Ht. induction name as [|c name IH]; [reflexivity|].
  change (String c name ++ t) with (String c (name ++ t)).
  rewrite PyStrFacts.replace_from_cons.
  change (String c (name ++ t)) with (String c name ++ t).
  rewrite (no_straddle c name t (PyStrFacts.occurs_not_prefix _ _ Hname) Ht).
  cbn [append]. f_equal. apply IH. exact (PyStrFacts.occurs_tail _ _ _ Hname).
Qed.

(** The name under which the file of a plain name is listed. *)
Lemma listed_name (name : string) :
  PyStr.occurs ".json" name = false ->
  PyStr.replace ".json" EmptyString (name ++ ".json") = name.
Proof.
  intro H. unfold PyStr.replace.
  rewrite (replace_before_suffix name ".json" H eq_refl).
  change (PyStr.replace_from ".json" EmptyString ".json") with EmptyString.
  apply PyStrFacts.append_nil_r.
Qed.

(** *** The assistants on the disk *)

Lemma load_read (name : string) (st : state) :
  load_assistant name st = Disk.read (files st) (assistant_path name).
Proof.
  unfold load_assistant, Disk.path_exists.
  destruct (Disk.read (files st) (assistant_path name)); reflexivity.
Qed.

Lemma exists_load (name : string) (st : state) :
  Disk.path_exists (files st) (assistant_path name) = true <->
  load_assistant name st <> None.
Proof.
  rewrite load_read. unfold Disk.path_exists.
  destruct (Disk.read (files st) (assistant_path name)); split; congruence.
Qed.

(** An assistant that loads and has a plain name is listed. *)
Lemma loaded_listed (name : string) (st : state) :
  plain name -> load_assistant name st <> None -> In name (get_assistants st).
Proof.
  intros [Hslash Hjson] Hload. rewrite load_read in Hload.
  unfold get_assistants. apply in_map_iff. exists (name ++ ".json").
  split; [exact (listed_name name Hjson)|].
  apply filter_In. split; [|apply endswith_app].
  apply DiskFacts.listdir_In. split; [|exact Hload].
  rewrite has_char_app, Hslash. reflexivity.
Qed.

Lemma load_save_same (name : string) (system_prompt user_prompt : json) (st : state) :
  load_assistant name (save_assistant name system_prompt user_prompt st)
  = Some [("system_prompt", system_prompt); ("user_prompt", user_prompt)].
Proof. rewrite load_read. apply DiskFacts.read_write_same. Qed.

Lemma load_save_other (name other : string) (system_prompt user_prompt : json)
  (st : state) :
  other <> name ->
  load_assistant other (save_assistant name system_prompt user_prompt st)
  = load_assistant other st.
Proof.
  intro Hne. rewrite !load_read. apply DiskFacts.read_write_other.
  intro H. apply assistant_path_inj in H. congruence.
Qed.

Lemma load_delete_same (name : string) (st : state) :
  load_assistant name (snd (delete_assistant name st)) = None.
Proof.
  unfold delete_assistant.
  destruct (Disk.path_exists (files st) (assistant_path name)) eqn:E; cbn [snd].
  - rewrite load_read. apply DiskFacts.read_remove_same.
  - destruct (load_assistant name st) eqn:L; [|reflexivity].
    assert (H : load_assistant name st <> None) by congruence.
    apply exists_load in H. congruence.
Qed.

Lemma load_delete_other (name other : string) (st : state) :
  other <> name ->
  load_assistant other (snd (delete_assistant name st)) = load_assistant other st.
Proof.
  intro Hne. unfold delete_assistant.
  destruct (Disk.path_exists (files st) (assistant_path name)); cbn [snd];
    [|reflexivity].
  rewrite !load_read. apply DiskFacts.read_remove_other.
  intro H. apply assistant_path_inj in H. congruence.
Qed.

Lemma config_delete (name : string) (st : state) :
  config (snd (delete_assistant name st)) = config st.
Proof.
  unfold delete_assistant.
  destruct (Disk.path_exists (files st) (assistant_path name)); reflexivity.
Qed.

Lemma load_save_config (name : string) (content : dict) (st : state) :
  load_assistant name (_save_config content st) = load_assistant name st.
Proof.
  rewrite !load_read. apply DiskFacts.read_write_other.
  intro H. symmetry in H. exact (assistant_path_not_config _ H).
Qed.

Lemma load_set_last_assistant (name last : string) (st : state) :
  load_assistant name (set_last_assistant last st) = load_assistant name st.
Proof. unfold set_last_assistant. rewrite load_save_config, !load_read. reflexivity. Qed.

Lemma get_set_last_assistant (name : string) (st : state) :
  get_last_assistant (set_last_assistant name st) = JString name.
Proof.
  unfold get_last_assistant, set_last_assistant, _save_config, PyDict.get_default.
  cbn [config]. rewrite PyDictFacts.get_set_same. reflexivity.
Qed.

(** *** The configuration on the disk *)

Lemma saved_init (disk : Disk.disk) : saved (init disk).
Proof.
  unfold saved, init, _load_config.
  destruct (Disk.read disk config_file) as [content|] eqn:E; cbn [config files].
  - exact E.
  - apply DiskFacts.read_write_same.
Qed.

Lemma saved_save_config (st : state) : saved (_save_config (config st) st).
Proof. unfold saved, _save_config. cbn [config files]. apply DiskFacts.read_write_same. Qed.

Lemma saved_save_assistant (name : string) (system_prompt user_prompt : json)
  (st : state) :
  saved st -> saved (save_assistant name system_prompt user_prompt st).
Proof.
  unfold saved, save_assistant. cbn [config files]. intro H.
  rewrite DiskFacts.read_write_other; [exact H | apply assistant_path_not_config].
Qed.

Lemma saved_delete_assistant (name : string) (st : state) :
  saved st -> saved (snd (delete_assistant name st)).
Proof.
  unfold saved, delete_assistant. intro H.
  destruct (Disk.path_exists (files st) (assistant_path name)); cbn [snd config files];
    [|exact H].
  rewrite DiskFacts.read_remove_other; [exact H | apply assistant_path_not_config].
Qed.

Lemma init_saved (st : state) : saved st -> init (files st) = st.
Proof.
  unfold saved, init, _load_config. intro H. rewrite H.
  destruct st. reflexivity.
Qed.

Lemma saved_perform (c : call) (st : state) : saved st -> saved (perform c st).
Proof.
  intro H. destruct c as [content|name system_prompt user_prompt|name|name|format_type];
    cbn [perform].
  - apply (saved_save_config (mkState content (files st))).
  - apply saved_save_assistant. exact H.
  - apply saved_delete_assistant. exact H.
  - unfold set_last_assistant. apply saved_save_config.
  - unfold set_output_format. apply saved_save_config.
Qed.

Lemma saved_performed (calls : list call) (st : state) :
  saved st -> saved (performed calls st).
Proof.
  revert st. induction calls as [|c calls IH]; intros st H; [exact H|].
  apply (IH (perform c st)). apply saved_perform. exact H.
Qed.

(** The name under which a file saved as [name.json.json] is listed. *)
Lemma listed_twice (name : string) :
  PyStr.occurs ".json" name = false ->
  PyStr.replace ".json" EmptyString ((name ++ ".json") ++ ".json") = name.
Proof.
  intro H. unfold PyStr.replace. rewrite PyStrFacts.append_assoc.
  change (".json" ++ ".json") with ".json.json".
  rewrite (replace_before_suffix name ".json.json" H eq_refl).
  change (PyStr.replace_from ".json" EmptyString ".json.json") with EmptyString.
  apply PyStrFacts.append_nil_r.
Qed.

End ConfigManagerFacts.

(** ** The dialog of the assistants *)

Module AssistantManagerFacts.

Import AssistantManager.

Lemma member_In (name : string) (names : list string) :
  member name names = true <-> In name names.
Proof.
  unfold member. rewrite existsb_exists. split.
  - intros [x [Hin Hx]]. apply String.eqb_eq in Hx. subst x. exact Hin.
  - intro Hin. exists name. split; [exact Hin | apply String.eqb_refl].
Qed.

(** The three conditions of [ok and new_name and new_name != current_name]. *)
Lemma rename_guard (new_name current_name : string) (ok : bool) :
  ok && negb (String.eqb new_name EmptyString)
     && negb (String.eqb new_name current_name) = true <->
  ok = true /\ new_name <> EmptyString /\ new_name <> current_name.
Proof.
  rewrite !andb_true_iff, !negb_true_iff, !String.eqb_neq. tauto.
Qed.

Lemma is_text_true (x : json) (s : string) :
  PyDict.is_text x s = true <-> x = JString s.
Proof.
  destruct x; cbn; try (split; [discriminate | discriminate]).
  rewrite String.eqb_eq. split; congruence.
Qed.

(** [get_last_assistant] reads the configuration in memory only. *)
Lemma get_last_assistant_config (m m' : ConfigManager.state) :
  ConfigManager.config m' = ConfigManager.config m ->
  ConfigManager.get_last_assistant m' = ConfigManager.get_last_assistant m.
Proof. unfold ConfigManager.get_last_assistant. intros ->. reflexivity. Qed.

Section Steps.

Import ConfigManager ConfigManagerFacts.

Lemma load_renamed (current_name new_name other : string) (assistant : dict) (m : state) :
  new_name <> current_name ->
  load_assistant other (renamed current_name new_name assistant m)
  = if String.eqb other current_name then None
    else if String.eqb other new_name
         then Some [("system_prompt", fst (prompts assistant));
                    ("user_prompt", snd (prompts assistant))]
         else load_assistant other m.
Proof.
  intro Hne. unfold renamed.
  assert (H : forall m', load_assistant other
                (if PyDict.is_text (get_last_assistant m') current_name
                 then set_last_assistant new_name m' else m')
              = load_assistant other m').
  { intro m'. destruct (PyDict.is_text _ _); [apply load_set_last_assistant|reflexivity]. }
  rewrite H. clear H.
  destruct (String.eqb_spec other current_name) as [->|Hc].
  - apply load_delete_same.
  - rewrite (load_delete_other _ _ _ Hc).
    destruct (String.eqb_spec other new_name) as [->|Hn].
    + apply load_save_same.
    + apply (load_save_other _ _ _ _ _ Hn).
Qed.

Lemma last_renamed (current_name new_name : string) (assistant : dict) (m : state) :
  get_last_assistant (renamed current_name new_name assistant m)
  = if PyDict.is_text (get_last_assistant m) current_name
    then JString new_name
    else get_last_assistant m.
Proof.
  unfold renamed.
  set (m2 := snd (ConfigManager.delete_assistant current_name _)).
  assert (H : get_last_assistant m2 = get_last_assistant m).
  { apply get_last_assistant_config. unfold m2. rewrite config_delete. reflexivity. }
  rewrite H. destruct (PyDict.is_text (get_last_assistant m) current_name).
  - apply get_set_last_assistant.
  - exact H.
Qed.

Lemma load_deleted (assistant_name other : string) (m : state) :
  load_assistant other (deleted assistant_name m)
  = if String.eqb other assistant_name then None else load_assistant other m.
Proof.
  unfold deleted.
  assert (H : forall m', load_assistant other
                (if PyDict.is_text (get_last_assistant m') assistant_name
                 then set_last_assistant EmptyString m' else m')
              = load_assistant other m').
  { intro m'. destruct (PyDict.is_text _ _); [apply load_set_last_assistant|reflexivity]. }
  rewrite H. destruct (String.eqb_spec other assistant_name) as [->|Hc].
  - apply load_delete_same.
  - apply (load_delete_other _ _ _ Hc).
Qed.

Lemma last_deleted (assistant_name : string) (m : state) :
  get_last_assistant (deleted assistant_name m)
  = if PyDict.is_text (get_last_assistant m) assistant_name
    then JString EmptyString
    else get_last_assistant m.
Proof.
  unfold deleted.
  set (m1 := snd (ConfigManager.delete_assistant assistant_name m)).
  assert (H : get_last_assistant m1 = get_last_assistant m).
  { apply get_last_assistant_config. unfold m1. apply config_delete. }
  rewrite H. destruct (PyDict.is_text (get_last_assistant m) assistant_name).
  - apply get_set_last_assistant.
  - exact H.
Qed.

End Steps.

Lemma clicked_outcome (a : action) (self : dialog) :
  outcome_of (config_manager self) (config_manager (clicked a self)).
Proof.
  destruct a as [[current_name|] [new_name ok] | [assistant_name|] [|]
                | [source_name|] [new_name ok]];
    cbn [clicked rename_assistant delete_assistant clone_assistant];
    try apply Unchanged.
  - destruct (_ && _ && _) eqn:G; [|apply Unchanged].
    apply rename_guard in G. destruct G as (_ & _ & Hne).
    destruct (member _ _); [apply Unchanged|].
    destruct (ConfigManager.load_assistant _ _) as [[|e assistant]|]; try apply Unchanged.
    cbn [populate_assistant_list config_manager].
    apply (Renamed _ current_name new_name e assistant Hne).
  - cbn [populate_assistant_list config_manager]. apply Deleted.
  - destruct (_ && _); [|apply Unchanged].
    destruct (member _ _); [apply Unchanged|].
    destruct (ConfigManager.load_assistant _ _) as [[|e assistant]|]; try apply Unchanged.
    cbn [populate_assistant_list config_manager]. apply Cloned.
Qed.

Lemma outcome_keeps_last (m m' : ConfigManager.state) :
  outcome_of m m' -> last_assistant_loads m -> last_assistant_loads m'.
Proof.
  intros Hstep H name. destruct Hstep as [|current_name new_name e assistant Hne
                                          |assistant_name|new_name e assistant].
  - apply H.
  - rewrite last_renamed, (load_renamed _ _ _ _ _ Hne).
    destruct (PyDict.is_text _ current_name) eqn:T.
    + intros [= <-] _. rewrite String.eqb_refl.
      apply String.eqb_neq in Hne. rewrite Hne. discriminate.
    + intros Hlast Hname.
      destruct (String.eqb_spec name current_name) as [->|_].
      * rewrite Hlast in T. cbn in T. rewrite String.eqb_refl in T. discriminate.
      * destruct (String.eqb name new_name); [discriminate | exact (H name Hlast Hname)].
  - rewrite last_deleted, load_deleted.
    destruct (PyDict.is_text _ assistant_name) eqn:T.
    + intros [= <-] Hname. congruence.
    + intros Hlast Hname.
      destruct (String.eqb_spec name assistant_name) as [->|_].
      * rewrite Hlast in T. cbn in T. rewrite String.eqb_refl in T. discriminate.
      * exact (H name Hlast Hname).
  - intros Hlast Hname.
    destruct (String.eqb_spec name new_name) as [->|Hn].
    + rewrite ConfigManagerFacts.load_save_same. discriminate.
    + rewrite (ConfigManagerFacts.load_save_other _ _ _ _ _ Hn). exact (H name Hlast Hname).
Qed.

Lemma clicked_in_sync (a : action) (self : dialog) :
  assistant_list self = ConfigManager.get_assistants (config_manager self) ->
  assistant_list (clicked a self)
  = ConfigManager.get_assistants (config_manager (clicked a self)).
Proof.
  intro H.
  destruct a as [[current_name|] [new_name ok] | [assistant_name|] [|]
                | [source_name|] [new_name ok]];
    cbn [clicked rename_assistant delete_assistant clone_assistant];
    try exact H; try reflexivity.
  - destruct (_ && _ && _); [|exact H].
    destruct (member _ _); [exact H|].
    destruct (ConfigManager.load_assistant _ _) as [[|e assistant]|];
      [exact H | reflexivity | exact H].
  - destruct (_ && _); [|exact H].
    destruct (member _ _); [exact H|].
    destruct (ConfigManager.load_assistant _ _) as [[|e assistant]|];
      [exact H | reflexivity | exact H].
Qed.

Lemma session_snoc (actions : list action) (a : action) (self : dialog) :
  session (actions ++ [a]) self = clicked a (session actions self).
Proof. unfold session. rewrite fold_left_app. reflexivity. Qed.

End AssistantManagerFacts.

(** ** The pages of a document *)

Module PDFProcessorFacts.

Import PDFProcessor.

(** [str(n)] is the decimal writing of [n]. *)
Lemma str_of_Z_digits (n : Z) :
  0 <= n -> exists d, str_of_Z n = NilEmpty.string_of_uint d /\ Z.of_uint d = n.
Proof.
  intro Hn. destruct n as [|p|p]; [| |lia].
  - exists (Decimal.D0 Decimal.Nil). split; reflexivity.
  - exists (Pos.to_uint p). split.
    + unfold str_of_Z. cbn [Z.to_int NilZero.string_of_int NilZero.string_of_uint].
      pose proof (DecimalPos.Unsigned.to_uint_nonnil p) as Hnil.
      destruct (Pos.to_uint p); [contradiction|..]; reflexivity.
    + unfold Z.of_uint. rewrite DecimalPos.Unsigned.of_to. reflexivity.
Qed.

Lemma number_of_zeros (k : nat) (s : string) :
  number_of_digits (zeros k ++ s) = number_of_digits s.
Proof.
  unfold number_of_digits. induction k as [|k IH]; [reflexivity|].
  cbn [zeros append NilEmpty.uint_of_string].
  destruct (NilEmpty.uint_of_string (zeros k ++ s)) as [d|].
  - rewrite <- IH. reflexivity.
  - exact IH.
Qed.

(** The digits of a page number write it. *)
Lemma number_of_format (n : Z) : 0 <= n -> number_of_digits (format_03d n) = Some n.
Proof.
  intro Hn. unfold format_03d. rewrite number_of_zeros.
  destruct (str_of_Z_digits n Hn) as (d & -> & <-).
  unfold number_of_digits. rewrite NilEmpty.usu. reflexivity.
Qed.

Lemma page_file_inj (a b : nat) : page_file a = page_file b -> a = b.
Proof.
  unfold page_file. intro H.
  apply ConfigManagerFacts.append_inv_head in H.
  apply ConfigManagerFacts.append_inv_tail in H.
  apply (f_equal number_of_digits) in H.
  rewrite !number_of_format in H by lia. injection H as H. lia.
Qed.

Lemma page_file_relative (page_num : nat) : prefix "/" (page_file page_num) = false.
Proof. reflexivity. Qed.

(** [posixpath.join] keeps relative names apart. *)
Lemma posix_join_relative (d a b : string) :
  prefix "/" a = false -> prefix "/" b = false ->
  PosixPath.join d a = PosixPath.join d b -> a = b.
Proof.
  unfold PosixPath.join. intros -> ->.
  destruct (String.eqb d EmptyString || ConfigManager.endswith d "/"); intro H.
  - exact (ConfigManagerFacts.append_inv_head _ _ _ H).
  - apply ConfigManagerFacts.append_inv_head in H.
    exact (ConfigManagerFacts.append_inv_head _ _ _ H).
Qed.

Section Paths.

Variable join : string -> string -> string.
Hypothesis join_relative :
  forall d a b, prefix "/" a = false -> prefix "/" b = false -> join d a = join d b -> a = b.

Lemma image_paths_NoDup (output_dir : string) (pages : nat) :
  NoDup (image_paths_of join output_dir pages).
Proof.
  unfold image_paths_of. generalize (seq_NoDup pages 0).
  generalize (seq 0 pages). intros l Hl.
  induction Hl as [|a l Ha _ IH]; cbn [map]; constructor; [|exact IH].
  intro Hin. apply in_map_iff in Hin. destruct Hin as (b & H & Hb).
  apply join_relative in H; try apply page_file_relative.
  apply page_file_inj in H. subst b. exact (Ha Hb).
Qed.

End Paths.

Lemma image_paths_length (join : string -> string -> string) (output_dir : string)
  (pages : nat) :
  length (image_paths_of join output_dir pages) = pages.
Proof. unfold image_paths_of. rewrite length_map, length_seq. reflexivity. Qed.

End PDFProcessorFacts.

(** ** The window *)

Module MainWindowFacts.

Import MainWindow.

(** *** What a computation keeps *)

Lemma keeps_ret {A : Type} (P : window -> Prop) (a : A) : keeps P (ret a).
Proof. intros w H. exact H. Qed.

Lemma keeps_raise {A : Type} (P : window -> Prop) (e : exn) : keeps P (@raise window A e).
Proof. intros w H. exact H. Qed.

Lemma keeps_bind {A B : Type} (P : window -> Prop) (m : G A) (k : A -> G B) :
  keeps P m -> (forall a, keeps P (k a)) -> keeps P (bind m k).
Proof.
  intros Hm Hk w H. unfold bind. specialize (Hm w H).
  destruct (m w) as [[a|e] w']; cbn [snd] in *; [apply Hk; exact Hm | exact Hm].
Qed.

Lemma keeps_ret_bind {A B : Type} (P : window -> Prop) (a : A) (k : A -> G B) :
  keeps P (k a) -> keeps P (bind (ret a) k).
Proof. intros H w Hw. exact (H w Hw). Qed.

Lemma keeps_raise_bind {A B : Type} (P : window -> Prop) (e : exn) (k : A -> G B) :
  keeps P (bind (raise e) k).
Proof. intros w Hw. exact Hw. Qed.

Lemma keeps_try_except {A : Type} (P : window -> Prop) (body : G A)
  (handler : exn -> G A) :
  keeps P body -> (forall e, keeps P (handler e)) -> keeps P (try_except body handler).
Proof.
  intros Hb Hh w H. unfold try_except. specialize (Hb w H).
  destruct (body w) as [[a|e] w']; cbn [snd] in *; [exact Hb | apply Hh; exact Hb].
Qed.

Lemma keeps_for_each {A : Type} (P : window -> Prop) (l : list A) (body : A -> G unit) :
  (forall x, In x l -> keeps P (body x)) -> keeps P (for_each l body).
Proof.
  induction l as [|x l IH]; intro H; cbn [for_each]; [apply keeps_ret|].
  apply keeps_bind; [apply H; left; reflexivity|].
  intros _. apply IH. intros y Hy. apply H. right. exact Hy.
Qed.

Lemma keeps_lift {A : Type} (P : window -> Prop) (r : result A) : keeps P (lift r).
Proof. destruct r; intros w H; exact H. Qed.

Lemma keeps_returns_or_raises (P : window -> Prop) (reply : option exn) :
  keeps P (returns_or_raises reply).
Proof. destruct reply; intros w H; exact H. Qed.

Lemma keeps_get {A B : Type} (P : window -> Prop) (field : window -> A) (k : A -> G B) :
  (forall w, P w -> P (snd (k (field w) w))) -> keeps P (bind (get field) k).
Proof. intros H w Hw. exact (H w Hw). Qed.

Section Files.

Variable P : window -> Prop.
Hypothesis P_files : about_files P.

Lemma keeps_widget (f : widgets -> widgets) : keeps P (widget f).
Proof. intros w H. refine (P_files w _ _ _ H); reflexivity. Qed.

Lemma keeps_manager (f : ConfigManager.state -> ConfigManager.state) : keeps P (manager f).
Proof. intros w H. refine (P_files w _ _ _ H); reflexivity. Qed.

Lemma keeps_warning (title text : string) : keeps P (warning title text).
Proof. intros w H. refine (P_files w _ _ _ H); reflexivity. Qed.

Lemma keeps_set_current_file (file : option string) : keeps P (set_current_file file).
Proof. intros w H. refine (P_files w _ _ _ H); reflexivity. Qed.

Lemma keeps_set_processing_task (t : task) : keeps P (set_processing_task t).
Proof. intros w H. refine (P_files w _ _ _ H); reflexivity. Qed.

End Files.

(** *** Cleaning up *)

Section Cleaning.

Variable os : system.

(** Cleaning up keeps what its calls keep. *)
Lemma cleaning_keeps (P : window -> Prop) (paths : list string) :
  (forall c, made_for os paths c -> keeps P (call c)) ->
  keeps P (try_except (clean_up os paths)
             (fun e => print ("Error cleaning up temporary files: " ++ e))).
Proof.
  intro Hcall.
  assert (Hexists : forall path, keeps P (os_path_exists os path)).
  { intro path. apply keeps_bind; [apply Hcall; exact I | intros k; apply keeps_ret]. }
  apply keeps_try_except.
  - unfold clean_up. apply keeps_bind; [apply keeps_lift|]. intro tmp.
    destruct (PyStr.occurs tmp _); [|apply keeps_ret].
    apply keeps_bind.
    + apply keeps_for_each. intros path Hpath.
      apply keeps_bind; [apply Hexists|]. intros [|]; [|apply keeps_ret].
      apply keeps_bind; [apply Hcall; exact Hpath|].
      intros k. apply keeps_returns_or_raises.
    + intros _. apply keeps_bind; [apply Hexists|]. intros [|]; [|apply keeps_ret].
      apply keeps_bind.
      * apply keeps_bind; [apply Hcall; exact I | intros k; apply keeps_lift].
      * intros [|name names]; [|apply keeps_ret].
        apply keeps_bind; [apply Hcall; reflexivity|].
        intros k. apply keeps_returns_or_raises.
  - intro e. apply keeps_bind; [apply Hcall; exact I | intros k; apply keeps_ret].
Qed.

(** Cleaning up returns: what its body raises is caught. *)
Lemma cleaning_returns (paths : list string) (w : window) :
  fst (try_except (clean_up os paths)
         (fun e => print ("Error cleaning up temporary files: " ++ e)) w) = Ok tt.
Proof.
  unfold try_except. destruct (clean_up os paths w) as [[[]|e] w']; reflexivity.
Qed.

(** [processing_finished], one step at a time. *)
Lemma processing_finished_eq (result_text : string) (w : window) :
  processing_finished os result_text w
  = let u := save_output_btn_setEnabled true
               (process_btn_setEnabled true
                  (progress_status_setText "Processing complete!"
                     (progress_bar_setVisible false
                        (output_text_setText (plain_text_of os) result_text
                           (ui w))))) in
    let w1 := mkWindow (current_file w) (image_paths w) (processing_task w)
                (config_manager w) u (warnings w) (os_calls w) in
    if (1 <? length (image_paths w))%nat
    then try_except (clean_up os (image_paths w))
           (fun e => print ("Error cleaning up temporary files: " ++ e)) w1
    else (Ok tt, w1).
Proof.
  cbv beta iota zeta delta [processing_finished bind widget get].
  cbn [image_paths]. destruct (1 <? length (image_paths w))%nat; reflexivity.
Qed.

End Cleaning.

(** *** What [process_file] keeps *)

Section ProcessFile.

Variable os : system.
Variable P : window -> Prop.
Variable m : moment.
Hypothesis P_files : about_files P.
Hypothesis P_makedirs : keeps P (call (Makedirs "./tmp")).
Hypothesis P_pages :
  forall pages, document m = Ok pages ->
    keeps P (set_image_paths (PDFProcessor.image_paths_of (join os) (output_dir m) pages)).
Hypothesis P_image : forall current, keeps P (set_image_paths [current]).

Lemma os_makedirs_keeps : keeps P (os_makedirs os "./tmp").
Proof.
  apply keeps_bind; [exact P_makedirs|]. intro k. apply keeps_returns_or_raises.
Qed.

Lemma process_file_keeps : keeps P (process_file os m).
Proof.
  pose proof P_files as Hf.
  unfold process_file. apply keeps_get. intros w Hw.
  destruct (current_file w) as [[|c current]|];
    [apply (keeps_warning _ Hf); exact Hw | | apply (keeps_warning _ Hf); exact Hw].
  match goal with
  | |- P (snd (?body w)) => revert w Hw; change (keeps P body)
  end.
  destruct (String.eqb (api_key m) EmptyString); [apply (keeps_warning _ Hf)|].
  do 2 (apply keeps_bind; [apply (keeps_manager _ Hf) | intros _]).
  do 7 (apply keeps_bind; [apply (keeps_widget _ Hf) | intros _]).
  apply keeps_bind.
  - destruct (_ || _).
    + apply keeps_bind; [apply (keeps_widget _ Hf) | intros _; apply os_makedirs_keeps].
    + destruct (String.eqb _ ".pdf").
      * apply keeps_bind; [apply (keeps_widget _ Hf) | intros _].
        apply keeps_bind; [apply os_makedirs_keeps | intros _].
        unfold PDFProcessor.convert_pdf_to_images. cbn [append String.eqb].
        destruct (document m) as [pages|e] eqn:Hdoc; cbn [lift].
        -- apply keeps_ret_bind. apply (P_pages pages eq_refl).
        -- apply keeps_raise_bind.
      * apply P_image.
  - intros _. apply keeps_get. intros w Hw.
    apply (keeps_set_processing_task _ Hf). exact Hw.
Qed.

End ProcessFile.

(** *** What the window removes *)

Section Safety.

Variable os : system.
Variable stamps : list string.

Lemma safe_about_files : about_files (safe os stamps).
Proof. intros w w' Hp Hc H. unfold safe. rewrite Hp, Hc. exact H. Qed.

Lemma keeps_call_safe (c : os_call) :
  harmless os stamps c -> keeps (safe os stamps) (call c).
Proof.
  intros Hc w [Hcalls Hpaths]. split; [|exact Hpaths].
  cbn [call snd os_calls]. apply Forall_app. split; [exact Hcalls|].
  constructor; [exact Hc | constructor].
Qed.

Lemma keeps_set_image_paths (paths : list string) :
  ((1 < length paths)%nat -> Forall (page_image os stamps) paths) ->
  keeps (safe os stamps) (set_image_paths paths).
Proof. intros Hp w [Hcalls _]. split; [exact Hcalls | exact Hp]. Qed.

Lemma image_paths_page_images (stamp : string) (pages : nat) :
  In stamp stamps ->
  Forall (page_image os stamps)
    (PDFProcessor.image_paths_of (join os) ("./tmp/" ++ stamp) pages).
Proof.
  intro Hin. unfold PDFProcessor.image_paths_of. apply Forall_forall.
  intros path Hpath. apply in_map_iff in Hpath. destruct Hpath as (page_num & <- & _).
  exists stamp, page_num. split; [exact Hin | reflexivity].
Qed.

Lemma browse_file_safe (file_path : string) :
  keeps (safe os stamps) (browse_file os file_path).
Proof.
  unfold browse_file. destruct (String.eqb file_path EmptyString); [apply keeps_ret|].
  apply keeps_bind; [apply keeps_set_current_file, safe_about_files|].
  intros _. apply keeps_widget, safe_about_files.
Qed.

Lemma update_progress_safe (value : Z) (message : string) :
  keeps (safe os stamps) (update_progress value message).
Proof.
  unfold update_progress. apply keeps_bind.
  - destruct (0 <=? value); [apply keeps_widget, safe_about_files | apply keeps_ret].
  - intros _. apply keeps_widget, safe_about_files.
Qed.

Lemma process_file_safe (m : moment) :
  In (timestamp m) stamps -> keeps (safe os stamps) (process_file os m).
Proof.
  intro Hin. apply (process_file_keeps os _ m safe_about_files).
  - apply keeps_call_safe. exact I.
  - intros pages _. apply keeps_set_image_paths. intros _.
    apply image_paths_page_images. exact Hin.
  - intro current. apply keeps_set_image_paths. cbn. lia.
Qed.

Lemma processing_finished_safe (result_text : string) :
  keeps (safe os stamps) (processing_finished os result_text).
Proof.
  intros w [Hcalls Hpaths]. rewrite processing_finished_eq. cbv zeta.
  destruct (1 <? length (image_paths w))%nat eqn:E; [|exact (conj Hcalls Hpaths)].
  apply Nat.ltb_lt in E. specialize (Hpaths E).
  apply cleaning_keeps; [|exact (conj Hcalls (fun _ => Hpaths))].
  intros c Hc. apply keeps_call_safe.
  destruct c as [path|path|path|path|path|text]; cbn [made_for harmless] in *;
    try exact I.
  - exact (proj1 (Forall_forall _ _) Hpaths path Hc).
  - exists (hd EmptyString (image_paths w)). split; [|exact Hc].
    destruct (image_paths w) as [|image rest]; [cbn in E; lia|].
    inversion Hpaths; assumption.
Qed.

Lemma slot_safe (e : event) :
  (forall m, e = ProcessFile m -> In (timestamp m) stamps) ->
  keeps (safe os stamps) (slot os e).
Proof.
  intro H. destruct e as [file_path|m|value message|result_text]; cbn [slot].
  - apply browse_file_safe.
  - apply process_file_safe. apply H. reflexivity.
  - apply update_progress_safe.
  - apply processing_finished_safe.
Qed.

Lemma session_safe (events : list event) :
  incl (timestamps events) stamps -> keeps (safe os stamps) (session os events).
Proof.
  induction events as [|e events IH]; intro H; cbn [session]; [apply keeps_ret|].
  apply keeps_bind.
  - apply slot_safe. intros m ->. apply H. left. reflexivity.
  - intros _. apply IH. intros x Hx. apply H.
    unfold timestamps. cbn [flat_map]. apply in_or_app. right. exact Hx.
Qed.

End Safety.

(** *** A document from the file to the cleaning, and the slots a task runs *)

Lemma bind_ok {S A B} (m : M S A) (k : A -> M S B) (s s' : S) (a : A) :
  m s = (Ok a, s') -> bind m k s = k a s'.
Proof. intro H. unfold bind. rewrite H. reflexivity. Qed.


Section Loop.
Variable os : system.
Hypothesis found : forall k, exists_reply os k = true.
Hypothesis removed : forall k, remove_reply os k = None.

End Loop.




Section CleanUp.

Variable os : system.
Variable tmp : string.
Variable paths : list string.
Hypothesis tempdir : gettempdir os = Ok tmp.



End CleanUp.

Section Finished.
Variable os : system.

Lemma processing_finished_frame (result_text : string) (w : window) :
  fst (processing_finished os result_text w) = Ok tt /\
  apart_from_calls
    (mkWindow (current_file w) (image_paths w) (processing_task w) (config_manager w)
       (save_output_btn_setEnabled true
          (process_btn_setEnabled true
             (progress_status_setText "Processing complete!"
                (progress_bar_setVisible false
                   (output_text_setText (plain_text_of os) result_text (ui w))))))
       (warnings w) (os_calls w))
    (snd (processing_finished os result_text w)).
Proof.
  rewrite processing_finished_eq. cbv zeta.
  destruct (1 <? length (image_paths w))%nat.
  - split; [apply cleaning_returns|].
    apply cleaning_keeps.
    + intros c _ w' H. exact H.
    + repeat split.
  - split; [reflexivity | repeat split].
Qed.

Lemma session_app (events events' : list event) (w : window) :
  fst (session os events w) = Ok tt ->
  session os (events ++ events') w = session os events' (snd (session os events w)).
Proof.
  revert w. induction events as [|e events IH]; intros w H; [reflexivity|].
  cbn [app session] in *. unfold bind in *.
  destruct (slot os e w) as [[[]|x] w1]; [|discriminate].
  apply IH. exact H.
Qed.

Lemma session_updates (stream : list (Z * string)) (w : window) :
  session os (map (fun p => UpdateProgress (fst p) (snd p)) stream) w
  = (Ok tt, mkWindow (current_file w) (image_paths w) (processing_task w)
              (config_manager w) (progressed stream (ui w)) (warnings w) (os_calls w)).
Proof.
  revert w. induction stream as [|[value message] stream IH]; intro w.
  - destruct w; reflexivity.
  - cbn [map session slot fst snd progressed fold_left].
    assert (E : update_progress value message w
                = (Ok tt, mkWindow (current_file w) (image_paths w) (processing_task w)
                            (config_manager w)
                            (progress_status_setText message
                               (if 0 <=? value
                                then progress_bar_setValue value (ui w) else ui w))
                            (warnings w) (os_calls w))).
    { unfold update_progress, bind. destruct (0 <=? value); reflexivity. }
    rewrite (bind_ok _ _ _ _ _ E), IH. reflexivity.
Qed.

End Finished.

Lemma bar_progressed (stream : list (Z * string)) (u : widgets) :
  progress_bar_value (progressed stream u) = bar_after stream (progress_bar_value u).
Proof.
  revert u. induction stream as [|[value message] stream IH]; intro u; [reflexivity|].
  cbn [progressed bar_after fold_left fst snd].
  change (fold_left _ stream ?x) with (progressed stream x) at 1.
  rewrite IH. f_equal. unfold progress_bar_setValue.
  destruct (0 <=? value); cbn [andb]; [|reflexivity].
  destruct (value <=? 100); reflexivity.
Qed.

Lemma last_cons {A} (x d : A) (l : list A) : last (x :: l) d = last l x.
Proof.
  revert x d. induction l as [|y l IH]; intros x d; [reflexivity|].
  change (last (x :: y :: l) d) with (last (y :: l) d). rewrite !IH. reflexivity.
Qed.

Lemma bar_after_shown (stream : list (Z * string)) (v : Z) :
  Forall (fun p => fst p = -1 \/ 0 <= fst p <= 100) stream ->
  bar_after stream v = last (Scheduler.shown stream) v.
Proof.
  intro H. revert v. induction H as [|[value message] stream Hp _ IH]; intro v;
    [reflexivity|].
  cbn [bar_after fold_left fst]. rewrite SchedulerFacts.shown_cons. cbn [fst] in *.
  change (fold_left _ stream ?x) with (bar_after stream x).
  destruct Hp as [->|Hp].
  - cbn. apply IH.
  - replace ((0 <=? value) && (value <=? 100)) with true
      by (symmetry; apply andb_true_iff; split; apply Z.leb_le; lia).
    replace (value =? -1) with false by (symmetry; apply Z.eqb_neq; lia).
    rewrite last_cons. apply IH.
Qed.

Lemma interleaved_In {A} (threads : list (list A)) (stream : list A) :
  Scheduler.interleaved threads stream ->
  forall x, In x stream -> exists l, In l threads /\ In x l.
Proof.
  induction 1 as [threads Hall | before y l after stream Hi IH]; intros x Hx;
    [destruct Hx|].
  destruct Hx as [<-|Hx].
  - exists (y :: l). split; [apply in_or_app; right; left; reflexivity | left; reflexivity].
  - destruct (IH x Hx) as (l' & Hl' & Hxl'). apply in_app_or in Hl'.
    destruct Hl' as [Hl'|[<-|Hl']].
    + exists l'. split; [apply in_or_app; left; exact Hl' | exact Hxl'].
    + exists (y :: l). split; [apply in_or_app; right; left; reflexivity | right; exact Hxl'].
    + exists l'. split; [apply in_or_app; right; right; exact Hl' | exact Hxl'].
Qed.

Section Stream.
Variable images : list string.
Variable max_retries : Z.
Variable output_format : string.
Variable load_outcome : nat -> nat -> Worker.load_result.
Variable client_outcome : nat -> nat -> Worker.reply.

Lemma stream_values (order : list nat) (stream : list (Z * string)) :
  Permutation order (seq 0 (length images)) ->
  Scheduler.progress_stream images max_retries output_format load_outcome client_outcome
    order stream ->
  Forall (fun p => fst p = -1 \/ 0 <= fst p <= 100) stream.
Proof.
  intros Hp Hs. apply Forall_forall. intros x Hx.
  destruct (interleaved_In _ _ Hs x Hx) as (l & [<-|Hl] & Hxl).
  - right. rewrite SchedulerFacts.run_eq in Hxl by exact Hp. cbn [snd Scheduler.emitted] in Hxl.
    apply in_map_iff in Hxl. destruct Hxl as ([i idx] & <- & Hi). cbn [fst snd].
    unfold Scheduler.enumerate in Hi. apply in_combine_l in Hi. apply in_seq in Hi.
    rewrite (Permutation_length Hp), length_seq in Hi.
    split.
    + apply PyFloatFacts.percent_nonneg; lia.
    + rewrite <- (PyFloatFacts.percent_full (Z.of_nat (length images))) by lia.
      apply PyFloatFacts.percent_mono; lia.
  - left. apply in_map_iff in Hl. destruct Hl as (idx & <- & _).
    pose proof (SchedulerFacts.worker_progress_sentinel images max_retries load_outcome
                  client_outcome idx) as H.
    exact (proj1 (Forall_forall _ _) H x Hxl).
Qed.

End Stream.

Lemma last_default {A} (l : list A) (d d' : A) : l <> [] -> last l d = last l d'.
Proof.
  induction l as [|x l IH]; intro H; [congruence|].
  destruct l as [|y l]; [reflexivity|]. apply IH. discriminate.
Qed.

(** *** One image, nothing removed *)

Section Quiet.

Variable os : system.

Lemma quiet_about_files : about_files quiet.
Proof. intros w w' Hp Hc H. unfold quiet. rewrite Hp, Hc. exact H. Qed.

Lemma process_file_quiet (m : moment) :
  (forall pages, document m = Ok pages -> (pages <= 1)%nat) ->
  keeps quiet (process_file os m).
Proof.
  intro Hpages. apply (process_file_keeps os _ m quiet_about_files).
  - intros w [Hcalls Hpaths]. split; [|exact Hpaths].
    cbn [call snd os_calls]. apply Forall_app. split; [exact Hcalls|].
    constructor; [reflexivity | constructor].
  - intros pages Hdoc w [Hcalls _]. split; [exact Hcalls|].
    cbn [set_image_paths snd image_paths].
    rewrite PDFProcessorFacts.image_paths_length. exact (Hpages pages Hdoc).
  - intros current w [Hcalls _]. split; [exact Hcalls | cbn; lia].
Qed.

Lemma processing_finished_quiet (result_text : string) :
  keeps quiet (processing_finished os result_text).
Proof.
  intros w [Hcalls Hpaths]. rewrite processing_finished_eq. cbv zeta.
  replace (1 <? length (image_paths w))%nat with false
    by (symmetry; apply Nat.ltb_ge; exact Hpaths).
  exact (conj Hcalls Hpaths).
Qed.

Lemma session_quiet (events : list event) :
  single_pages events -> keeps quiet (session os events).
Proof.
  induction events as [|e events IH]; intro H; cbn [session]; [apply keeps_ret|].
  apply keeps_bind.
  - destruct e as [file_path|m|value message|result_text]; cbn [slot].
    + unfold browse_file. destruct (String.eqb file_path EmptyString); [apply keeps_ret|].
      apply keeps_bind; [apply keeps_set_current_file, quiet_about_files|].
      intros _. apply keeps_widget, quiet_about_files.
    + apply process_file_quiet. intros pages Hdoc.
      exact (H m pages (or_introl eq_refl) Hdoc).
    + unfold update_progress. apply keeps_bind.
      * destruct (0 <=? value); [apply keeps_widget, quiet_about_files | apply keeps_ret].
      * intros _. apply keeps_widget, quiet_about_files.
    + apply processing_finished_quiet.
  - intros _. apply IH. intros m pages Hin. exact (H m pages (or_intror Hin)).
Qed.

End Quiet.

(** [process_file] on a presentation. *)
Lemma process_file_ppt (os : system) (m : moment) (w : window) (c : ascii)
  (current : string) :
  current_file w = Some (String c current) ->
  api_key m <> EmptyString ->
  file_ext os (String c current) = ".ppt" \/ file_ext os (String c current) = ".pptx" ->
  makedirs_reply os (length (os_calls w)) = None ->
  exists w',
    process_file os m w = (Ok tt, w') /\
    image_paths w' = image_paths w /\
    processing_task w'
    = Some (mkTask (image_paths w) (system_prompt_text m) (user_prompt_text m)
              (parallelism_value m) (retry_value m)
              (if md_checked m then "md" else "txt")) /\
    os_calls w' = (os_calls w ++ [Makedirs "./tmp"])%list.
Proof.
  intros Hfile Hkey Hext Hmk.
  apply String.eqb_neq in Hkey.
  destruct w as [file paths t cm u shown calls]. cbn [current_file os_calls] in *.
  subst file.
  unfold process_file, get, bind at 1. cbn [current_file]. rewrite Hkey.
  assert (E : String.eqb (file_ext os (String c current)) ".pptx"
              || String.eqb (file_ext os (String c current)) ".ppt" = true)
    by (destruct Hext as [-> | ->]; reflexivity).
  rewrite E.
  cbv beta iota zeta delta [bind manager widget os_makedirs call lift set_image_paths
                              set_processing_task ret get fst snd
                              current_file image_paths processing_task config_manager ui
                              warnings os_calls].
  rewrite Hmk.
  cbv beta iota zeta delta [returns_or_raises ret].
  eexists. split; [reflexivity|]. repeat split.
Qed.

End MainWindowFacts.

(** * The claims of the specification *)

(** ** The retrying worker *)

(** C3. Retry bound: with [max_retries = R >= 0], a unit whose image loads
    and whose transcriber call fails (reports failure or raises) on every
    attempt makes the worker call the transcriber exactly [R + 1] times;
    the worker then returns the failed outcome, with the error text of the
    last call. *)
Theorem retry_bound (R : Z) (load_outcome : nat -> Worker.load_result)
  (client_outcome : nat -> Worker.reply) (image_path : string) (idx : nat) :
  0 <= R ->
  (forall k, load_outcome k = Worker.Loaded) ->
  (forall k, Worker.client_error (client_outcome k) <> None) ->
  exists text s',
    Worker.process_image R load_outcome client_outcome image_path idx Worker.start
    = (Ok (false, text), s') /\
    Worker.transcriptions (Worker.log s') = (Z.to_nat R + 1)%nat /\
    Worker.client_error (client_outcome (Z.to_nat R)) = Some text.
Proof.
  intros HR Hload Hfail.
  destruct (WorkerFacts.while_loop_transcriptions R load_outcome client_outcome
              image_path (Z.of_nat idx + 1) 0 (Worker.mkFrame 0 []) Hload Hfail HR)
    as (text & s' & Hloop & Hcount & Hlast).
  exists text, s'. rewrite WorkerFacts.process_image_eq. cbn [Worker.log Worker.start].
  rewrite Hloop. cbn in Hcount, Hlast. rewrite Z.sub_0_r in Hcount, Hlast.
  auto.
Qed.

Lemma retry_bound_witness :
  exists text s',
    Worker.process_image 2 Worker.always_loaded (fun _ => Worker.ClientRaises "timeout")
      "page_001.png" 0 Worker.start
    = (Ok (false, text), s') /\
    Worker.transcriptions (Worker.log s') = 3%nat /\
    Worker.client_error (Worker.ClientRaises "timeout") = Some text.
Proof.
  apply (retry_bound 2 Worker.always_loaded (fun _ => Worker.ClientRaises "timeout")
           "page_001.png" 0).
  - lia.
  - reflexivity.
  - discriminate.
Defined.

(** C4. Back-off growth: with [max_retries = R >= 1], for a unit whose
    attempts fail as long as a retry is left (the attempt after the last
    retry may fail or succeed), the history of the worker is, for
    [k = 1 .. R] in that order, the calls of an attempt, then the progress
    notification with the sentinel [-1] whose message names the page and
    the retry [k], then at once the wait of [2^k] seconds, and after the
    last wait the calls of one more attempt. So every wait lies between
    two attempts, right after its notification, and the waits are
    [2^1, 2^2, ..., 2^R] seconds and no others. *)
Theorem backoff_growth (R : Z) (load_outcome : nat -> Worker.load_result)
  (client_outcome : nat -> Worker.reply) (image_path : string) (idx : nat) :
  1 <= R ->
  (forall k, (k < Z.to_nat R)%nat ->
             exists raised text,
               Worker.verdict_of load_outcome client_outcome k = Worker.Fails raised text) ->
  let history :=
    Worker.log (snd (Worker.process_image R load_outcome client_outcome image_path idx
                       Worker.start)) in
  history =
  (flat_map (fun k =>
               Worker.calls_of load_outcome (k - 1) image_path ++
               [Worker.Progress (-1)
                  (Worker.retry_message R
                     (Worker.raised_at load_outcome client_outcome (k - 1))
                     (Z.of_nat idx + 1) (Z.of_nat k));
                Worker.MSleep (2 ^ Z.of_nat k * 1000)])
            (seq 1 (Z.to_nat R))
   ++ Worker.calls_of load_outcome (Z.to_nat R) image_path)%list /\
  Worker.retry_path history =
  (flat_map (fun k => [Worker.Attempt; Worker.Notify (-1);
                       Worker.Wait (2 ^ Z.of_nat k * 1000)])
            (seq 1 (Z.to_nat R))
   ++ [Worker.Attempt])%list /\
  Worker.waits history = map (fun k => 2 ^ Z.of_nat k * 1000) (seq 1 (Z.to_nat R)).
Proof.
  intros HR Hfail history.
  assert (Hhistory :
            history =
            (flat_map (fun k =>
                         Worker.calls_of load_outcome (k - 1) image_path ++
                         [Worker.Progress (-1)
                            (Worker.retry_message R
                               (Worker.raised_at load_outcome client_outcome (k - 1))
                               (Z.of_nat idx + 1) (Z.of_nat k));
                          Worker.MSleep (2 ^ Z.of_nat k * 1000)])
                      (seq 1 (Z.to_nat R))
             ++ Worker.calls_of load_outcome (Z.to_nat R) image_path)%list).
  { subst history. rewrite WorkerFacts.process_image_log. cbn [Worker.log Worker.start].
    rewrite WorkerFacts.while_loop_history; cbn [Worker.retries Worker.log];
      rewrite ?Z.sub_0_r; [|lia|exact Hfail].
    cbn [app Nat.add]. f_equal.
    rewrite <- seq_shift, !flat_map_concat_map, map_map. f_equal.
    apply map_ext. intro i. unfold Worker.backoff_events.
    cbn [Nat.sub]. rewrite Nat.sub_0_r.
    replace (0 + 1 + Z.of_nat i) with (Z.of_nat (S i)) by lia. reflexivity. }
  split; [exact Hhistory|]. rewrite Hhistory. clear Hhistory history. split.
  - rewrite WorkerFacts.retry_path_app, WorkerFacts.retry_path_calls. f_equal.
    generalize (seq 1 (Z.to_nat R)). intro l.
    induction l as [|k l IH]; cbn [flat_map]; [reflexivity|].
    rewrite !WorkerFacts.retry_path_app, WorkerFacts.retry_path_calls, IH. reflexivity.
  - rewrite WorkerFacts.waits_app, WorkerFacts.waits_calls, app_nil_r.
    generalize (seq 1 (Z.to_nat R)). intro l.
    induction l as [|k l IH]; cbn [flat_map map]; [reflexivity|].
    rewrite !WorkerFacts.waits_app, WorkerFacts.waits_calls, IH. reflexivity.
Qed.

Lemma backoff_growth_witness :
  Worker.retry_path
    (Worker.log (snd (Worker.process_image 2 Worker.always_loaded
                        (fun k => if (k <? 2)%nat
                                  then Worker.Returns false (Some "rate limited")
                                  else Worker.Returns true (Some "# Page two"))
                        "page_002.png" 1 Worker.start)))
  = [Worker.Attempt; Worker.Notify (-1); Worker.Wait 2000;
     Worker.Attempt; Worker.Notify (-1); Worker.Wait 4000;
     Worker.Attempt].
Proof.
  apply (backoff_growth 2 Worker.always_loaded
           (fun k => if (k <? 2)%nat
                     then Worker.Returns false (Some "rate limited")
                     else Worker.Returns true (Some "# Page two"))
           "page_002.png" 1).
  - lia.
  - intros k Hk. exists false, (Some "rate limited").
    unfold Worker.verdict_of, Worker.always_loaded.
    destruct (Nat.ltb_spec k 2) as [_|Hge]; [reflexivity|]. cbn in Hk. lia.
Defined.

(** C5. Whatever the collaborators do on any attempt (the image fails to
    load, the transcriber raises, the transcriber reports failure), the
    worker returns an outcome and raises nothing; the outcome, the value of
    [retries] and the retry and back-off path (attempts, notified values,
    waits) are those of the run in which every raised error is instead
    reported by the transcriber as a failure with the same text. *)
Theorem worker_never_raises (R : Z) (load_outcome : nat -> Worker.load_result)
  (client_outcome : nat -> Worker.reply) (image_path : string) (idx : nat) :
  exists o s s2,
    Worker.process_image R load_outcome client_outcome image_path idx Worker.start
    = (Ok o, s) /\
    Worker.process_image R Worker.always_loaded
      (Worker.as_reported load_outcome client_outcome) image_path idx Worker.start
    = (Ok o, s2) /\
    Worker.retries s = Worker.retries s2 /\
    Worker.retry_path (Worker.log s) = Worker.retry_path (Worker.log s2).
Proof.
  destruct (WorkerFacts.while_loop_as_reported R load_outcome client_outcome image_path
              (Z.of_nat idx + 1) 0 (Worker.mkFrame 0 []) (Worker.mkFrame 0 [])
              eq_refl eq_refl) as (r & s & s2 & H1 & H2 & Hr & Hp).
  rewrite !WorkerFacts.process_image_eq. cbn [Worker.log Worker.start].
  rewrite H1, H2. destruct r as [o|]; eauto 10.
Qed.

(** C10. With [max_retries >= 0] the statement after the loop is never
    reached: the loop itself returns, at some attempt [j], either the
    transcriber's response as a success or, at the last allowed attempt
    [j = max_retries], the error text of that attempt as a failure; and
    that is what the worker returns. *)
Theorem fallback_unreachable (R : Z) (load_outcome : nat -> Worker.load_result)
  (client_outcome : nat -> Worker.reply) (image_path : string) (idx : nat) :
  0 <= R ->
  exists o s' j,
    Worker.while_loop R load_outcome client_outcome 0 image_path (Z.of_nat idx + 1)
      (Worker.mkFrame 0 []) = (Ok (Some o), s') /\
    Worker.process_image R load_outcome client_outcome image_path idx Worker.start
    = (Ok o, s') /\
    Worker.attempts (Worker.log s') = S j /\
    ((o = (true, snd o) /\
      Worker.verdict_of load_outcome client_outcome j = Worker.Succeeds (snd o)) \/
     (o = (false, snd o) /\ Z.of_nat j = R /\
      exists raised,
        Worker.verdict_of load_outcome client_outcome j = Worker.Fails raised (snd o))).
Proof.
  intro HR.
  destruct (WorkerFacts.while_loop_returns R load_outcome client_outcome image_path
              (Z.of_nat idx + 1) 0 (Worker.mkFrame 0 []) HR)
    as (o & s' & j & Hloop & _ & Hatt & _ & Hend).
  exists o, s', j. rewrite WorkerFacts.process_image_eq. cbn [Worker.log Worker.start].
  rewrite Hloop. cbn in Hatt. rewrite Nat.sub_0_r in Hatt, Hend.
  repeat split; [lia|].
  destruct Hend as [Hs|(Ho & Hr & Hf)]; [left; exact Hs|].
  right. repeat split; [exact Ho | cbn in Hr; lia | exact Hf].
Qed.

Lemma fallback_unreachable_witness :
  exists o s' j,
    Worker.while_loop 0 Worker.always_loaded (fun _ => Worker.Returns true (Some "# Title"))
      0 "page_001.png" (Z.of_nat 0 + 1) (Worker.mkFrame 0 []) = (Ok (Some o), s') /\
    Worker.process_image 0 Worker.always_loaded (fun _ => Worker.Returns true (Some "# Title"))
      "page_001.png" 0 Worker.start = (Ok o, s') /\
    Worker.attempts (Worker.log s') = S j /\
    ((o = (true, snd o) /\
      Worker.verdict_of Worker.always_loaded (fun _ => Worker.Returns true (Some "# Title")) j
      = Worker.Succeeds (snd o)) \/
     (o = (false, snd o) /\ Z.of_nat j = 0 /\
      exists raised,
        Worker.verdict_of Worker.always_loaded (fun _ => Worker.Returns true (Some "# Title")) j
        = Worker.Fails raised (snd o))).
Proof.
  apply (fallback_unreachable 0 Worker.always_loaded
           (fun _ => Worker.Returns true (Some "# Title")) "page_001.png" 0).
  lia.
Defined.

(** ** The scheduler *)

(** C1. Order preservation: for every list of pages, every behaviour of
    the collaborators and every order in which the workers complete, the
    results handed to the formatter are sorted ascending by index and hold
    exactly the pages [0 .. N-1] in that order; what [run] ends with is
    what the formatter makes of them, and it and the results are those of
    the run in which the workers complete in page order. The final text is
    emitted when the successes carry a text, and then only. *)
Theorem order_preservation (images : list string) (R : Z) (output_format : string)
  (load_outcome : nat -> nat -> Worker.load_result)
  (client_outcome : nat -> nat -> Worker.reply) (order : list nat) :
  Permutation order (seq 0 (length images)) ->
  exists final st,
    Scheduler.run images R output_format load_outcome client_outcome order
    = (final, st) /\
    StronglySorted lt (map idx (Scheduler.results st)) /\
    map idx (Scheduler.results st) = seq 0 (length images) /\
    final = Formatter.format_results output_format (Scheduler.results st) /\
    (exists st',
        Scheduler.run images R output_format load_outcome client_outcome
          (seq 0 (length images)) = (final, st') /\
        Scheduler.results st' = Scheduler.results st) /\
    (Formatter.successes_carry_text (Scheduler.results st) <->
     exists final_text, final = Ok final_text).
Proof.
  intro Hp. rewrite SchedulerFacts.run_eq by exact Hp.
  rewrite SchedulerFacts.run_eq by reflexivity.
  eexists _, _. split; [reflexivity|]. cbn [Scheduler.results].
  assert (Hidx : map idx
                   (map (Scheduler.entry_of
                           (fun i => fst (Scheduler.submit images R load_outcome
                                            client_outcome i)))
                        (seq 0 (length images))) = seq 0 (length images)).
  { rewrite map_map.
    rewrite (map_ext _ (fun i => i)) by (intro i; apply SchedulerFacts.idx_entry_of).
    apply map_id. }
  rewrite Hidx. split; [apply SchedulerFacts.seq_ascending|].
  split; [reflexivity|]. split; [reflexivity|].
  split; [eexists; split; reflexivity|].
  apply FormatterFacts.format_results_ok.
Qed.

Lemma order_preservation_witness :
  exists final st,
    Scheduler.run ["page_001.png"; "page_002.png"; "page_003.png"] 1 "md"
      (fun _ => Worker.always_loaded)
      (fun i _ => Worker.Returns true (Some (str_of_Z (Z.of_nat i))))
      [2; 0; 1]%nat
    = (final, st) /\
    StronglySorted lt (map idx (Scheduler.results st)) /\
    map idx (Scheduler.results st) = [0; 1; 2]%nat /\
    final = Formatter.format_results "md" (Scheduler.results st) /\
    (exists st',
        Scheduler.run ["page_001.png"; "page_002.png"; "page_003.png"] 1 "md"
          (fun _ => Worker.always_loaded)
          (fun i _ => Worker.Returns true (Some (str_of_Z (Z.of_nat i)))) [0; 1; 2]%nat
        = (final, st') /\
        Scheduler.results st' = Scheduler.results st) /\
    (Formatter.successes_carry_text (Scheduler.results st) <->
     exists final_text, final = Ok final_text).
Proof.
  apply (order_preservation ["page_001.png"; "page_002.png"; "page_003.png"] 1 "md"
           (fun _ => Worker.always_loaded)
           (fun i _ => Worker.Returns true (Some (str_of_Z (Z.of_nat i)))) [2; 0; 1]%nat).
  cbn. apply (Permutation_cons_app [0; 1]%nat [] 2%nat). reflexivity.
Defined.

(** C2. No outcome is lost or duplicated: for every batch, whatever the
    futures hold (a success, with a text or with [None], a failure, or an
    exception of the worker), the loop over the completed futures ends
    without raising and has collected exactly one tuple per submitted
    page, so the indices collected are those submitted, each once; the
    sort keeps the tuples, and the results [run] hands to the formatter
    hold the indices [0 .. N-1], each once. *)
Theorem outcomes_match_units (n_images : nat) (output_format : string)
  (future : nat -> result outcome) (order : list nat) :
  Permutation order (seq 0 n_images) ->
  exists collected,
    Scheduler.as_completed_loop n_images future 0 order Scheduler.nothing
    = (Ok tt, collected) /\
    Permutation (map idx (Scheduler.results collected)) (seq 0 n_images) /\
    NoDup (map idx (Scheduler.results collected)) /\
    length (Scheduler.results collected) = n_images /\
    Permutation
      (Scheduler.results
         (snd (Scheduler.run_from n_images output_format future order Scheduler.nothing)))
      (Scheduler.results collected) /\
    map idx
      (Scheduler.results
         (snd (Scheduler.run_from n_images output_format future order Scheduler.nothing)))
    = seq 0 n_images.
Proof.
  intro Hp.
  assert (Hloop : Scheduler.as_completed_loop n_images future 0 order Scheduler.nothing =
                  (Ok tt, Scheduler.mkFrame (map (Scheduler.entry_of future) order)
                            (Scheduler.emissions_from n_images future 0 order))).
  { destruct n_images as [|n] eqn:En.
    - cbn in Hp. apply Permutation_sym, Permutation_nil in Hp. subst order. reflexivity.
    - rewrite <- En in *. rewrite SchedulerFacts.as_completed_loop_eq by lia. reflexivity. }
  assert (Hidx : forall l, map idx (map (Scheduler.entry_of future) l) = l).
  { intro l. rewrite map_map.
    rewrite (map_ext _ (fun i => i)) by (intro i; apply SchedulerFacts.idx_entry_of).
    apply map_id. }
  rewrite Hloop, (SchedulerFacts.run_from_eq n_images output_format future order Hp).
  eexists. split; [reflexivity|]. cbn [Scheduler.results snd].
  rewrite !Hidx, length_map. repeat split.
  - exact Hp.
  - apply (Permutation_NoDup (Permutation_sym Hp)), seq_NoDup.
  - rewrite (Permutation_length Hp). apply length_seq.
  - apply Permutation_map, Permutation_sym, Hp.
Qed.

Lemma outcomes_match_units_witness :
  exists collected,
    Scheduler.as_completed_loop 3
      (fun i => match i with
                | 0%nat => Ok (true, None)
                | 1%nat => Raised "worker died"
                | _ => Ok (false, Some "quota exceeded")
                end)
      0 [1; 2; 0]%nat Scheduler.nothing
    = (Ok tt, collected) /\
    Permutation (map idx (Scheduler.results collected)) [0; 1; 2]%nat /\
    NoDup (map idx (Scheduler.results collected)) /\
    length (Scheduler.results collected) = 3%nat /\
    Permutation
      (Scheduler.results
         (snd (Scheduler.run_from 3 "txt"
                 (fun i => match i with
                           | 0%nat => Ok (true, None)
                           | 1%nat => Raised "worker died"
                           | _ => Ok (false, Some "quota exceeded")
                           end)
                 [1; 2; 0]%nat Scheduler.nothing)))
      (Scheduler.results collected) /\
    map idx
      (Scheduler.results
         (snd (Scheduler.run_from 3 "txt"
                 (fun i => match i with
                           | 0%nat => Ok (true, None)
                           | 1%nat => Raised "worker died"
                           | _ => Ok (false, Some "quota exceeded")
                           end)
                 [1; 2; 0]%nat Scheduler.nothing)))
    = [0; 1; 2]%nat.
Proof.
  apply (outcomes_match_units 3 "txt"
           (fun i => match i with
                     | 0%nat => Ok (true, None)
                     | 1%nat => Raised "worker died"
                     | _ => Ok (false, Some "quota exceeded")
                     end) [1; 2; 0]%nat).
  cbn. apply Permutation_sym.
  apply (Permutation_cons_app [1; 2]%nat [] 0%nat). reflexivity.
Defined.

(** C6. Empty batch: with no page, the results are empty, the formatter
    gives the empty string, nothing is emitted on the progress signal by
    any thread, and [run] ends without raising (no division by zero). *)
Theorem empty_batch (R : Z) (output_format : string)
  (load_outcome : nat -> nat -> Worker.load_result)
  (client_outcome : nat -> nat -> Worker.reply) (order : list nat) :
  Permutation order (seq 0 (length (@nil string))) ->
  Scheduler.run [] R output_format load_outcome client_outcome order
  = (Ok EmptyString, Scheduler.mkFrame [] []) /\
  Formatter.format_results output_format [] = Ok EmptyString /\
  forall stream,
    Scheduler.progress_stream [] R output_format load_outcome client_outcome order stream ->
    stream = [].
Proof.
  intro Hp. cbn in Hp. apply Permutation_sym, Permutation_nil in Hp. subst order.
  repeat split.
  intros stream Hs. apply SchedulerFacts.interleaved_nil. exact Hs.
Qed.

Lemma empty_batch_witness :
  Scheduler.run [] 3 "md" (fun _ => Worker.always_loaded)
    (fun _ _ => Worker.Returns true (Some "unused")) []
  = (Ok EmptyString, Scheduler.mkFrame [] []) /\
  Formatter.format_results "md" [] = Ok EmptyString /\
  forall stream,
    Scheduler.progress_stream [] 3 "md" (fun _ => Worker.always_loaded)
      (fun _ _ => Worker.Returns true (Some "unused")) [] stream ->
    stream = [].
Proof.
  apply (empty_batch 3 "md" (fun _ => Worker.always_loaded)
           (fun _ _ => Worker.Returns true (Some "unused")) []).
  apply perm_nil.
Defined.

(** C7, as the specification states it, fails: after the second of three
    outcomes the scheduler notifies 66, and [round(2 / 3 * 100)] is 67. *)
Lemma progress_rounding_counterexample :
  ~ Scheduler.emits_rounded_percent
      ["page_001.png"; "page_002.png"; "page_003.png"] 3 "md"
      (fun _ => Worker.always_loaded) (fun _ _ => Worker.Returns true (Some "text"))
      [0; 1; 2]%nat.
Proof.
  intro H. specialize (H 1%nat 66 "Processed page 2/3" eq_refl).
  vm_compute in H. discriminate H.
Qed.

(** C7, amended. After the [k]-th outcome arrives out of [N], the scheduler
    emits one notification whose value is [int(k / N * 100)], the integer
    part of the double-precision product (truncation, not rounding), with
    the message "Processed page p/N", [p] being the 1-based number of the
    page whose future completed. *)
Theorem progress_event_truncates (images : list string) (R : Z) (output_format : string)
  (load_outcome : nat -> nat -> Worker.load_result)
  (client_outcome : nat -> nat -> Worker.reply) (order : list nat) :
  Permutation order (seq 0 (length images)) ->
  let N := Z.of_nat (length images) in
  Scheduler.emitted
    (snd (Scheduler.run images R output_format load_outcome client_outcome order)) =
  map (fun p =>
         (PyFloat.percent (Z.of_nat (fst p) + 1) N,
          "Processed page " ++ str_of_Z (Z.of_nat (snd p) + 1) ++ "/" ++ str_of_Z N))
      (Scheduler.enumerate order) /\
  forall k,
    1 <= k <= N ->
    (inject_Z (PyFloat.percent k N) <= PyFloat.float_mul (PyFloat.quotient k N) 100)%Q /\
    (PyFloat.float_mul (PyFloat.quotient k N) 100 < inject_Z (PyFloat.percent k N + 1))%Q.
Proof.
  intros Hp N. split.
  - rewrite SchedulerFacts.run_eq by exact Hp. reflexivity.
  - intros k Hk. apply SchedulerFacts.percent_truncates; lia.
Qed.

Lemma progress_event_truncates_witness :
  Scheduler.emitted
    (snd (Scheduler.run ["page_001.png"; "page_002.png"; "page_003.png"] 3 "md"
            (fun _ => Worker.always_loaded) (fun _ _ => Worker.Returns true (Some "text"))
            [2; 0; 1]%nat)) =
  [(33, "Processed page 3/3"); (66, "Processed page 1/3"); (100, "Processed page 2/3")].
Proof.
  apply (progress_event_truncates ["page_001.png"; "page_002.png"; "page_003.png"] 3 "md"
           (fun _ => Worker.always_loaded) (fun _ _ => Worker.Returns true (Some "text"))
           [2; 0; 1]%nat).
  cbn. apply (Permutation_cons_app [0; 1]%nat [] 2%nat). reflexivity.
Defined.

(** C8. Progress monotonicity: over a complete run on a batch that is not
    empty, whatever the order in which the futures complete and however
    the emissions of the scheduler and of the workers are merged, the
    values other than the sentinel never decrease and the last one is
    100. *)
Theorem progress_monotone (images : list string) (R : Z) (output_format : string)
  (load_outcome : nat -> nat -> Worker.load_result)
  (client_outcome : nat -> nat -> Worker.reply) (order : list nat)
  (stream : list (Z * string)) :
  images <> [] ->
  Permutation order (seq 0 (length images)) ->
  Scheduler.progress_stream images R output_format load_outcome client_outcome order stream ->
  StronglySorted Z.le (Scheduler.shown stream) /\
  last (Scheduler.shown stream) 0 = 100.
Proof.
  intros Hne Hp Hs.
  assert (Hn : (0 < length images)%nat) by (destruct images; [congruence | cbn; lia]).
  rewrite (SchedulerFacts.shown_stream images R output_format load_outcome client_outcome
             order stream Hn Hp Hs).
  split.
  - apply SchedulerFacts.percents_sorted. exact Hn.
  - apply SchedulerFacts.last_percent. exact Hn.
Qed.

Lemma progress_monotone_witness :
  let stream := [(-1, "Retrying page 2 (attempt 1/1)...");
                 (50, "Processed page 1/2");
                 (100, "Processed page 2/2")] in
  StronglySorted Z.le (Scheduler.shown stream) /\
  last (Scheduler.shown stream) 0 = 100.
Proof.
  apply (progress_monotone ["page_001.png"; "page_002.png"] 1 "md"
           (fun _ => Worker.always_loaded)
           (fun i k => if ((i =? 1) && (k =? 0))%nat
                       then Worker.Returns false (Some "busy")
                       else Worker.Returns true (Some "text"))
           [0; 1]%nat).
  - discriminate.
  - reflexivity.
  - unfold Scheduler.progress_stream. vm_compute.
    apply (Scheduler.interleaved_next [_; []] _ [] []).
    apply (Scheduler.interleaved_next [] _ [_] [[]; []]).
    apply (Scheduler.interleaved_next [] _ [] [[]; []]).
    apply Scheduler.interleaved_done. repeat constructor.
Defined.

(** ** The formatter *)




(** ** Further properties of the code *)

(** A success is returned at once: when the first attempt succeeds the
    worker makes one call of each collaborator, no notification, no wait,
    and returns the response. *)
Theorem success_returns_immediately (R : Z) (load_outcome : nat -> Worker.load_result)
  (client_outcome : nat -> Worker.reply) (image_path : string) (idx : nat)
  (response : option string) :
  0 <= R ->
  load_outcome 0%nat = Worker.Loaded ->
  client_outcome 0%nat = Worker.Returns true response ->
  Worker.process_image R load_outcome client_outcome image_path idx Worker.start
  = (Ok (true, response),
     Worker.mkFrame 0 [Worker.LoadImage image_path; Worker.Transcribe]).
Proof.
  intros HR Hload Hclient.
  rewrite WorkerFacts.process_image_eq, WorkerFacts.while_loop_step.
  cbn [Worker.retries Worker.log Worker.start].
  destruct (Z.leb_spec 0 R); [|lia].
  rewrite WorkerFacts.attempt_verdict.
  unfold Worker.verdict_of, Worker.calls_of. rewrite Hload, Hclient. reflexivity.
Qed.

Lemma success_returns_immediately_witness :
  Worker.process_image 3 Worker.always_loaded (fun _ => Worker.Returns true (Some "# Title"))
    "page_001.png" 0 Worker.start
  = (Ok (true, Some "# Title"),
     Worker.mkFrame 0 [Worker.LoadImage "page_001.png"; Worker.Transcribe]).
Proof.
  apply (success_returns_immediately 3 Worker.always_loaded
           (fun _ => Worker.Returns true (Some "# Title")) "page_001.png" 0
           (Some "# Title")).
  - lia.
  - reflexivity.
  - reflexivity.
Defined.

(** With a negative [max_retries] the loop is not entered: the worker calls
    no collaborator and returns the failure of the statement after the
    loop. *)
Theorem negative_max_retries_reaches_fallback (R : Z)
  (load_outcome : nat -> Worker.load_result) (client_outcome : nat -> Worker.reply)
  (image_path : string) (idx : nat) :
  R < 0 ->
  Worker.process_image R load_outcome client_outcome image_path idx Worker.start
  = (Ok (false, Some "Maximum retries exceeded"), Worker.start).
Proof.
  intro H. rewrite WorkerFacts.process_image_eq, WorkerFacts.while_loop_step.
  cbn [Worker.retries Worker.log Worker.start].
  destruct (Z.leb_spec 0 R); [lia | reflexivity].
Qed.

Lemma negative_max_retries_reaches_fallback_witness :
  Worker.process_image (-1) Worker.always_loaded (fun _ => Worker.Returns true (Some "# Title"))
    "page_001.png" 0 Worker.start
  = (Ok (false, Some "Maximum retries exceeded"), Worker.start).
Proof.
  apply (negative_max_retries_reaches_fallback (-1) Worker.always_loaded
           (fun _ => Worker.Returns true (Some "# Title")) "page_001.png" 0).
  lia.
Defined.

(** Failure isolation: when every attempt on page [j] fails and the first
    attempt on every other page succeeds, the results of the run hold one
    tuple for every page, in page order, which is a failure for page [j]
    and a success for every other page. *)
Theorem failure_isolation (images : list string) (R : Z) (output_format : string)
  (load_outcome : nat -> nat -> Worker.load_result)
  (client_outcome : nat -> nat -> Worker.reply) (order : list nat) (j : nat) :
  0 <= R ->
  Permutation order (seq 0 (length images)) ->
  (forall k, exists raised text,
      Worker.verdict_of (load_outcome j) (client_outcome j) k = Worker.Fails raised text) ->
  (forall i, i <> j ->
             exists response,
               Worker.verdict_of (load_outcome i) (client_outcome i) 0
               = Worker.Succeeds response) ->
  map idx
    (Scheduler.results
       (snd (Scheduler.run images R output_format load_outcome client_outcome order)))
  = seq 0 (length images) /\
  Forall (fun e => success e = negb (idx e =? j)%nat)
    (Scheduler.results
       (snd (Scheduler.run images R output_format load_outcome client_outcome order))).
Proof.
  intros HR Hp Hfail Hsucc.
  rewrite SchedulerFacts.run_eq by exact Hp. cbn [snd Scheduler.results]. split.
  { rewrite map_map.
    rewrite (map_ext _ (fun i => i)) by (intro i; apply SchedulerFacts.idx_entry_of).
    apply map_id. }
  apply Forall_forall. intros e He. apply in_map_iff in He. destruct He as (i & <- & _).
  unfold Scheduler.entry_of, Scheduler.submit.
  rewrite WorkerFacts.process_image_eq. cbn [Worker.log Worker.start].
  destruct (WorkerFacts.while_loop_returns R (load_outcome i) (client_outcome i)
              (nth i images EmptyString) (Z.of_nat i + 1) 0 (Worker.mkFrame 0 []) HR)
    as (o & s' & a & -> & _ & _ & Hbefore & Hend).
  destruct o as [ok text']. cbn [fst snd idx success] in *.
  destruct (Nat.eqb_spec i j) as [->|Hne]; cbn [negb].
  - destruct Hend as [[_ Hs]|[Ho _]].
    + destruct (Hfail a) as (raised & t & Hf). congruence.
    + congruence.
  - destruct (Hsucc i Hne) as (response & Hs0).
    destruct Hend as [[Ho _]|[_ [_ [raised Hf]]]]; [congruence|].
    destruct a as [|a].
    + congruence.
    + destruct (Hbefore 0%nat ltac:(lia)) as (raised' & t & Hf0). congruence.
Qed.

Lemma failure_isolation_witness :
  map idx
    (Scheduler.results
       (snd (Scheduler.run ["page_001.png"; "page_002.png"; "page_003.png"] 1 "md"
               (fun _ => Worker.always_loaded)
               (fun i _ => if (i =? 1)%nat then Worker.ClientRaises "connection reset"
                           else Worker.Returns true (Some "text"))
               [2; 1; 0]%nat)))
  = [0; 1; 2]%nat /\
  Forall (fun e => success e = negb (idx e =? 1)%nat)
    (Scheduler.results
       (snd (Scheduler.run ["page_001.png"; "page_002.png"; "page_003.png"] 1 "md"
               (fun _ => Worker.always_loaded)
               (fun i _ => if (i =? 1)%nat then Worker.ClientRaises "connection reset"
                           else Worker.Returns true (Some "text"))
               [2; 1; 0]%nat))).
Proof.
  apply (failure_isolation ["page_001.png"; "page_002.png"; "page_003.png"] 1 "md"
           (fun _ => Worker.always_loaded)
           (fun i _ => if (i =? 1)%nat then Worker.ClientRaises "connection reset"
                       else Worker.Returns true (Some "text"))
           [2; 1; 0]%nat 1%nat).
  - lia.
  - cbn. apply (Permutation_cons_app [0; 1]%nat [] 2%nat). apply perm_swap.
  - intro k. exists true, (Some "connection reset"). reflexivity.
  - intros i Hi. exists (Some "text"). unfold Worker.verdict_of, Worker.always_loaded.
    destruct (Nat.eqb_spec i 1) as [E|_]; [contradiction | reflexivity].
Defined.

(** The percentage is computed in double precision and then truncated, so
    it can fall below the exact quotient: after 29 of 100 pages the
    scheduler notifies 28. *)
Theorem percent_below_exact_quotient :
  Scheduler.collect 100 (fun _ => Ok (true, Some "text")) 28 7 Scheduler.nothing
  = (Ok tt, Scheduler.mkFrame [mkEntry 7 true (Some "text") 8]
              [(28, "Processed page 8/100")]).
Proof. vm_compute. reflexivity. Qed.

(** ** A success without a text *)

(** A success without a text loses the batch: when the worker of one page
    returns [(True, None)], as it does when the transcriber passes on a
    message that the service sent without content, [str.join] raises in
    [format_results], outside any [try]: [run] ends with the [TypeError]
    and emits no final text, whatever the other pages gave and whatever
    the order of completion. *)
Theorem none_content_aborts_run (images : list string) (R : Z) (output_format : string)
  (load_outcome : nat -> nat -> Worker.load_result)
  (client_outcome : nat -> nat -> Worker.reply) (order : list nat) (j : nat) :
  Permutation order (seq 0 (length images)) ->
  (j < length images)%nat ->
  fst (Scheduler.submit images R load_outcome client_outcome j) = Ok (true, None) ->
  exists e,
    fst (Scheduler.run images R output_format load_outcome client_outcome order)
    = Raised e.
Proof.
  intros Hp Hj Hnone. rewrite SchedulerFacts.run_eq by exact Hp. cbn [fst].
  apply FormatterFacts.format_results_raises. intro Hc.
  unfold Formatter.successes_carry_text in Hc. rewrite Forall_forall in Hc.
  apply (Hc (Scheduler.entry_of
               (fun i => fst (Scheduler.submit images R load_outcome client_outcome i)) j)).
  - apply in_map, in_seq. lia.
  - unfold Scheduler.entry_of. rewrite Hnone. reflexivity.
  - unfold Scheduler.entry_of. rewrite Hnone. reflexivity.
Qed.

Lemma none_content_aborts_run_witness :
  exists e,
    fst (Scheduler.run ["page_001.png"; "page_002.png"] 3 "md"
           (fun _ => Worker.always_loaded)
           (fun i _ => if (i =? 1)%nat
                       then OpenAIClient.as_reply (OpenAIClient.mkClient 1000 false false)
                              (Raised "not asked for") (Ok [None])
                       else Worker.Returns true (Some "# Page one"))
           [1; 0]%nat)
    = Raised e.
Proof.
  apply (none_content_aborts_run ["page_001.png"; "page_002.png"] 3 "md"
           (fun _ => Worker.always_loaded)
           (fun i _ => if (i =? 1)%nat
                       then OpenAIClient.as_reply (OpenAIClient.mkClient 1000 false false)
                              (Raised "not asked for") (Ok [None])
                       else Worker.Returns true (Some "# Page one"))
           [1; 0]%nat 1%nat).
  - apply perm_swap.
  - cbn. lia.
  - vm_compute. reflexivity.
Defined.

(** ** The values of the progress *)

(** What a run emits on [progress_updated] is the sentinel or a
    percentage: in every merge of the emissions of the scheduler and of
    the workers, every value is -1 or lies between 0 and 100. *)
Theorem progress_values_in_range (images : list string) (R : Z) (output_format : string)
  (load_outcome : nat -> nat -> Worker.load_result)
  (client_outcome : nat -> nat -> Worker.reply) (order : list nat)
  (stream : list (Z * string)) :
  Permutation order (seq 0 (length images)) ->
  Scheduler.progress_stream images R output_format load_outcome client_outcome order stream ->
  Forall (fun emission => fst emission = -1 \/ 0 <= fst emission <= 100) stream.
Proof. apply MainWindowFacts.stream_values. Qed.

Lemma progress_values_in_range_witness :
  Forall (fun emission => fst emission = -1 \/ 0 <= fst emission <= 100)
    [(-1, "Retrying page 2 (attempt 1/1)...");
     (50, "Processed page 1/2");
     (100, "Processed page 2/2")].
Proof.
  apply (progress_values_in_range ["page_001.png"; "page_002.png"] 1 "md"
           (fun _ => Worker.always_loaded)
           (fun i k => if ((i =? 1) && (k =? 0))%nat
                       then Worker.Returns false (Some "busy")
                       else Worker.Returns true (Some "text"))
           [0; 1]%nat).
  - reflexivity.
  - unfold Scheduler.progress_stream. vm_compute.
    apply (Scheduler.interleaved_next [_; []] _ [] []).
    apply (Scheduler.interleaved_next [] _ [_] [[]; []]).
    apply (Scheduler.interleaved_next [] _ [] [[]; []]).
    apply Scheduler.interleaved_done. repeat constructor.
Defined.

(** ** The transcriber *)

(** With [repair_formula_tag] set, a text returned as a success holds none
    of the delimiters backslash-parenthesis and backslash-bracket, in
    either mode. *)
Theorem repaired_text_has_no_delimiter (self : OpenAIClient.client)
  (create_stream : result OpenAIClient.streaming) (create : result OpenAIClient.choices)
  (text : string) :
  OpenAIClient.repair_formula_tag self = true ->
  OpenAIClient.process_image self create_stream create = (true, Some text) ->
  Forall (fun p => PyStr.occurs p text = false) OpenAIClient.delimiters.
Proof.
  intros Hrepair. unfold OpenAIClient.process_image, OpenAIClient.streamed,
    OpenAIClient.completed.
  rewrite Hrepair.
  destruct (OpenAIClient.stream self).
  - destruct create_stream as [completion|e]; [|discriminate].
    destruct (OpenAIClient.iterate _ _) as [message_content|e]; [|discriminate].
    destruct (OpenAIClient.broken completion); [discriminate|].
    intros [= <-]. apply OpenAIClientFacts.repair_clean.
  - destruct create as [completion|e]; [|discriminate].
    destruct (OpenAIClient.first_choice completion) as [[content|]|e]; try discriminate.
    intros [= <-]. apply OpenAIClientFacts.repair_clean.
Qed.

Lemma repaired_text_has_no_delimiter_witness :
  Forall (fun p => PyStr.occurs p "an inline $x^2$ and a display $$y$$" = false)
    OpenAIClient.delimiters.
Proof.
  apply (repaired_text_has_no_delimiter
           (OpenAIClient.mkClient 0 true true)
           (Ok (OpenAIClient.mkStreaming
                  [[Some "an inline \(x^2"]; [None]; [Some "\) and a display \[y\]"]]
                  None))
           (Raised "unused")).
  - reflexivity.
  - reflexivity.
Defined.

(** Repairing a repaired text changes nothing. *)
Theorem repair_idempotent (message_content : string) :
  OpenAIClient.repair (OpenAIClient.repair message_content)
  = OpenAIClient.repair message_content.
Proof.
  apply OpenAIClientFacts.repair_absent, OpenAIClientFacts.repair_clean.
Qed.

(** A streamed answer that holds no backslash is returned as delivered,
    the chunks' contents one after the other, whether or not
    [repair_formula_tag] is set. *)
Theorem plain_stream_returned_verbatim (self : OpenAIClient.client)
  (completion : OpenAIClient.streaming) (create : result OpenAIClient.choices) :
  OpenAIClient.stream self = true ->
  Forall (fun chunk => chunk <> []) (OpenAIClient.chunks completion) ->
  OpenAIClient.broken completion = None ->
  PyStr.has_char "\" (OpenAIClient.delivered (OpenAIClient.chunks completion)) = false ->
  OpenAIClient.process_image self (Ok completion) create
  = (true, Some (OpenAIClient.delivered (OpenAIClient.chunks completion))).
Proof.
  intros Hstream Hchunks Hbroken Hplain.
  unfold OpenAIClient.process_image, OpenAIClient.streamed.
  rewrite Hstream, (OpenAIClientFacts.iterate_delivered _ _ Hchunks), Hbroken.
  cbn [append]. destruct (OpenAIClient.repair_formula_tag self); [|reflexivity].
  rewrite OpenAIClientFacts.repair_absent; [reflexivity|].
  unfold OpenAIClient.delimiters.
  repeat constructor; apply OpenAIClientFacts.occurs_without_first; exact Hplain.
Qed.

Lemma plain_stream_returned_verbatim_witness :
  OpenAIClient.process_image (OpenAIClient.mkClient 1000 true true)
    (Ok (OpenAIClient.mkStreaming [[Some "# Ti"]; [None; Some "x"]; [Some "tle"]] None))
    (Raised "unused")
  = (true, Some "# Title").
Proof.
  apply (plain_stream_returned_verbatim (OpenAIClient.mkClient 1000 true true)
           (OpenAIClient.mkStreaming [[Some "# Ti"]; [None; Some "x"]; [Some "tle"]] None)
           (Raised "unused")).
  - reflexivity.
  - repeat constructor; discriminate.
  - reflexivity.
  - reflexivity.
Defined.

(** The two modes agree: a stream that delivers chunks which all hold a
    choice and that does not break gives the same pair as a completion
    whose first choice holds the delivered text. *)
Theorem streaming_agrees_with_completion (max_tokens : Z) (repair_formula_tag : bool)
  (completion : OpenAIClient.streaming) (others : OpenAIClient.choices)
  (unused_stream : result OpenAIClient.streaming)
  (unused_completion : result OpenAIClient.choices) :
  Forall (fun chunk => chunk <> []) (OpenAIClient.chunks completion) ->
  OpenAIClient.broken completion = None ->
  OpenAIClient.process_image (OpenAIClient.mkClient max_tokens true repair_formula_tag)
    (Ok completion) unused_completion
  = OpenAIClient.process_image (OpenAIClient.mkClient max_tokens false repair_formula_tag)
      unused_stream
      (Ok (Some (OpenAIClient.delivered (OpenAIClient.chunks completion)) :: others)).
Proof.
  intros Hchunks Hbroken.
  unfold OpenAIClient.process_image, OpenAIClient.streamed, OpenAIClient.completed.
  cbn [OpenAIClient.stream OpenAIClient.repair_formula_tag OpenAIClient.first_choice].
  rewrite (OpenAIClientFacts.iterate_delivered _ _ Hchunks), Hbroken. cbn [append].
  destruct repair_formula_tag; reflexivity.
Qed.

Lemma streaming_agrees_with_completion_witness :
  OpenAIClient.process_image (OpenAIClient.mkClient 0 true true)
    (Ok (OpenAIClient.mkStreaming [[Some "a \("]; [Some "b\)"]] None)) (Raised "unused")
  = OpenAIClient.process_image (OpenAIClient.mkClient 0 false true)
      (Raised "unused") (Ok [Some "a \(b\)"]).
Proof.
  apply (streaming_agrees_with_completion 0 true
           (OpenAIClient.mkStreaming [[Some "a \("]; [Some "b\)"]] None) []
           (Raised "unused") (Raised "unused")).
  - repeat constructor; discriminate.
  - reflexivity.
Defined.

(** What the transcriber returns, in full. It returns a success with
    [response] exactly when the service delivers: in streaming mode, the
    call returns, every chunk holds a choice and the stream does not break,
    and [response] is the delivered text, repaired if it is to be; in
    completion mode, the call returns a completion with a choice, and
    [response] is the content of the first choice, which is a text that is
    repaired if it is to be, and may be [None] if not. It returns a
    failure exactly when the body of the [try] raises, and then with
    [str(e)] for the exception raised: that of the call, the [IndexError]
    of a chunk or completion without a choice, the exception that breaks
    the stream, or the [AttributeError] of [None.replace]. Whatever was
    delivered before a failure is dropped. *)
Theorem client_success (self : OpenAIClient.client)
  (create_stream : result OpenAIClient.streaming) (create : result OpenAIClient.choices) :
  (forall response,
      OpenAIClient.process_image self create_stream create = (true, response) <->
      if OpenAIClient.stream self
      then exists completion,
          create_stream = Ok completion /\
          Forall (fun chunk => chunk <> []) (OpenAIClient.chunks completion) /\
          OpenAIClient.broken completion = None /\
          response
          = Some (if OpenAIClient.repair_formula_tag self
                  then OpenAIClient.repair
                         (OpenAIClient.delivered (OpenAIClient.chunks completion))
                  else OpenAIClient.delivered (OpenAIClient.chunks completion))
      else exists content others,
          create = Ok (content :: others) /\
          if OpenAIClient.repair_formula_tag self
          then exists text,
              content = Some text /\ response = Some (OpenAIClient.repair text)
          else response = content) /\
  (forall response,
      OpenAIClient.process_image self create_stream create = (false, response) <->
      exists e,
        response = Some e /\
        if OpenAIClient.stream self
        then create_stream = Raised e \/
             exists completion,
               create_stream = Ok completion /\
               ((Exists (fun chunk => chunk = []) (OpenAIClient.chunks completion) /\
                 e = "list index out of range") \/
                (Forall (fun chunk => chunk <> []) (OpenAIClient.chunks completion) /\
                 OpenAIClient.broken completion = Some e))
        else create = Raised e \/
             (create = Ok [] /\ e = "list index out of range") \/
             exists others,
               create = Ok (None :: others) /\
               OpenAIClient.repair_formula_tag self = true /\
               e = "'NoneType' object has no attribute 'replace'").
Proof.
  unfold OpenAIClient.process_image, OpenAIClient.streamed, OpenAIClient.completed.
  destruct (OpenAIClient.stream self).
  - split; intro response; split.
    + destruct create_stream as [completion|e]; [|discriminate].
      destruct (OpenAIClient.iterate _ _) as [text|e] eqn:E; [|discriminate].
      destruct (OpenAIClient.broken completion) eqn:Hb; [discriminate|].
      intros [= <-]. exists completion.
      pose proof (OpenAIClientFacts.iterate_ok _ _ _ E) as Hall.
      rewrite (OpenAIClientFacts.iterate_delivered _ _ Hall) in E.
      injection E as <-. auto.
    + intros (completion & -> & Hall & Hb & ->).
      rewrite (OpenAIClientFacts.iterate_delivered _ _ Hall), Hb. reflexivity.
    + destruct create_stream as [completion|e]; [|intros [= <-]; eauto].
      destruct (OpenAIClient.iterate _ _) as [text|e] eqn:E.
      * destruct (OpenAIClient.broken completion) as [e|] eqn:Hb; [|discriminate].
        intros [= <-]. exists e. split; [reflexivity|]. right. exists completion.
        split; [reflexivity|]. right. split; [|exact Hb].
        eapply OpenAIClientFacts.iterate_ok. exact E.
      * intros [= <-]. exists e. split; [reflexivity|]. right. exists completion.
        split; [reflexivity|]. left.
        eapply OpenAIClientFacts.iterate_raised. exact E.
    + intros (e & -> & [->|(completion & -> & [[Hex ->]|[Hall Hb]])]).
      * reflexivity.
      * rewrite (OpenAIClientFacts.iterate_raises _ _ Hex). reflexivity.
      * rewrite (OpenAIClientFacts.iterate_delivered _ _ Hall), Hb. reflexivity.
  - split; intro response; split.
    + destruct create as [[|content others]|e]; [discriminate | | discriminate].
      cbn [OpenAIClient.first_choice]. intro H. exists content, others.
      split; [reflexivity|].
      destruct (OpenAIClient.repair_formula_tag self).
      * destruct content as [text|]; [|discriminate].
        injection H as <-. eauto.
      * injection H as <-. reflexivity.
    + intros (content & others & -> & H). cbn [OpenAIClient.first_choice].
      destruct (OpenAIClient.repair_formula_tag self).
      * destruct H as (text & -> & ->). reflexivity.
      * subst response. reflexivity.
    + destruct create as [[|content others]|e]; cbn [OpenAIClient.first_choice].
      * intros [= <-]. eexists. split; [reflexivity|]. right. left. auto.
      * destruct (OpenAIClient.repair_formula_tag self) eqn:Hr; [|discriminate].
        destruct content as [text|]; [discriminate|].
        intros [= <-]. eexists. split; [reflexivity|]. right. right. eauto.
      * intros [= <-]. eauto.
    + intros (e & -> & [->|[[-> ->]|(others & -> & -> & ->)]]); reflexivity.
Qed.

(** ** The configuration *)

(** An assistant saved under a plain name loads as the two prompts it was
    saved with and is listed under that name; the other assistants and the
    configuration are as they were. *)
Theorem saved_assistant_loads (name : string) (system_prompt user_prompt : json)
  (st : ConfigManager.state) :
  ConfigManager.plain name ->
  let st' := ConfigManager.save_assistant name system_prompt user_prompt st in
  ConfigManager.load_assistant name st'
  = Some [("system_prompt", system_prompt); ("user_prompt", user_prompt)] /\
  In name (ConfigManager.get_assistants st') /\
  (forall other, other <> name ->
     ConfigManager.load_assistant other st' = ConfigManager.load_assistant other st) /\
  ConfigManager.config st' = ConfigManager.config st.
Proof.
  intros Hplain st'. unfold st'.
  pose proof (ConfigManagerFacts.load_save_same name system_prompt user_prompt st) as Hload.
  split; [exact Hload|]. split; [|split; [|reflexivity]].
  - apply (ConfigManagerFacts.loaded_listed _ _ Hplain). rewrite Hload. discriminate.
  - intros other Hne. apply (ConfigManagerFacts.load_save_other _ _ _ _ _ Hne).
Qed.

Lemma saved_assistant_loads_witness :
  ConfigManager.load_assistant "math"
    (ConfigManager.save_assistant "math" (JString "You transcribe.") (JString "Go.")
       (ConfigManager.init []))
  = Some [("system_prompt", JString "You transcribe."); ("user_prompt", JString "Go.")].
Proof.
  apply (saved_assistant_loads "math" (JString "You transcribe.") (JString "Go.")
           (ConfigManager.init [])).
  split; reflexivity.
Defined.

(** [delete_assistant] returns [True] exactly when the assistant loads;
    afterwards it does not load, and the other assistants and the
    configuration are as they were. *)
Theorem deleted_assistant_is_gone (name : string) (st : ConfigManager.state) :
  PyStr.has_char "/" name = false ->
  let st' := snd (ConfigManager.delete_assistant name st) in
  (fst (ConfigManager.delete_assistant name st) = true <->
   ConfigManager.load_assistant name st <> None) /\
  ConfigManager.load_assistant name st' = None /\
  (forall other, other <> name ->
     ConfigManager.load_assistant other st' = ConfigManager.load_assistant other st) /\
  ConfigManager.config st' = ConfigManager.config st.
Proof.
  intros _ st'. unfold st'. split; [|split; [|split]].
  - rewrite <- ConfigManagerFacts.exists_load. unfold ConfigManager.delete_assistant.
    destruct (Disk.path_exists _ _); cbn [fst]; split; congruence.
  - apply ConfigManagerFacts.load_delete_same.
  - intros other Hne. apply (ConfigManagerFacts.load_delete_other _ _ _ Hne).
  - apply ConfigManagerFacts.config_delete.
Qed.

Lemma deleted_assistant_is_gone_witness :
  ConfigManager.load_assistant "math"
    (snd (ConfigManager.delete_assistant "math"
            (ConfigManager.save_assistant "math" (JString "a") (JString "b")
               (ConfigManager.init []))))
  = None.
Proof.
  apply (deleted_assistant_is_gone "math"
           (ConfigManager.save_assistant "math" (JString "a") (JString "b")
              (ConfigManager.init []))).
  reflexivity.
Defined.

(** What the calls of a [ConfigManager] leave on the disk is what a new
    [ConfigManager] starts from: after any calls, creating one afresh
    gives the same configuration and leaves the disk as it is. *)
Theorem settings_survive_restart (disk : Disk.disk) (calls : list ConfigManager.call) :
  Forall ConfigManager.names_file calls ->
  let st := ConfigManager.performed calls (ConfigManager.init disk) in
  ConfigManager.init (ConfigManager.files st) = st.
Proof.
  intros _ st. apply ConfigManagerFacts.init_saved.
  apply ConfigManagerFacts.saved_performed, ConfigManagerFacts.saved_init.
Qed.

Lemma settings_survive_restart_witness :
  ConfigManager.init
    (ConfigManager.files
       (ConfigManager.performed
          [ConfigManager.SaveAssistant "math" (JString "a") (JString "b");
           ConfigManager.SetLastAssistant "math";
           ConfigManager.SetOutputFormat "txt";
           ConfigManager.DeleteAssistant "old"]
          (ConfigManager.init [])))
  = ConfigManager.performed
      [ConfigManager.SaveAssistant "math" (JString "a") (JString "b");
       ConfigManager.SetLastAssistant "math";
       ConfigManager.SetOutputFormat "txt";
       ConfigManager.DeleteAssistant "old"]
      (ConfigManager.init []).
Proof.
  apply (settings_survive_restart []
           [ConfigManager.SaveAssistant "math" (JString "a") (JString "b");
            ConfigManager.SetLastAssistant "math";
            ConfigManager.SetOutputFormat "txt";
            ConfigManager.DeleteAssistant "old"]).
  repeat constructor.
Defined.

(** A name that is listed need not load: [get_assistants] removes every
    [.json] of a file name, not only the last. After an assistant is saved
    as [name.json], with no assistant [name], the list holds [name], and
    [name] does not load. *)
Theorem listed_assistant_may_not_load (name : string)
  (system_prompt user_prompt : json) (st : ConfigManager.state) :
  ConfigManager.plain name ->
  ConfigManager.load_assistant name st = None ->
  let st' := ConfigManager.save_assistant (name ++ ".json") system_prompt user_prompt st in
  In name (ConfigManager.get_assistants st') /\
  ConfigManager.load_assistant name st' = None.
Proof.
  intros [Hslash Hjson] Hnone st'. unfold st'. split.
  - unfold ConfigManager.get_assistants. apply in_map_iff.
    exists ((name ++ ".json") ++ ".json").
    split; [exact (ConfigManagerFacts.listed_twice name Hjson)|].
    apply filter_In. split; [|apply ConfigManagerFacts.endswith_app].
    apply DiskFacts.listdir_In. split.
    + rewrite !ConfigManagerFacts.has_char_app, Hslash. reflexivity.
    + pose proof (ConfigManagerFacts.load_save_same (name ++ ".json")
                    system_prompt user_prompt st) as H.
      rewrite ConfigManagerFacts.load_read in H.
      unfold ConfigManager.assistant_path in H. rewrite H. discriminate.
  - rewrite ConfigManagerFacts.load_save_other; [exact Hnone|].
    intro H. apply (f_equal String.length) in H.
    rewrite ConfigManagerFacts.length_append in H. cbn in H. lia.
Qed.

Lemma listed_assistant_may_not_load_witness :
  In "math"
    (ConfigManager.get_assistants
       (ConfigManager.save_assistant "math.json" (JString "a") (JString "b")
          (ConfigManager.init []))) /\
  ConfigManager.load_assistant "math"
    (ConfigManager.save_assistant "math.json" (JString "a") (JString "b")
       (ConfigManager.init []))
  = None.
Proof.
  apply (listed_assistant_may_not_load "math" (JString "a") (JString "b")
           (ConfigManager.init [])).
  - split; reflexivity.
  - reflexivity.
Defined.

(** ** The dialog of the assistants *)

(** Renaming moves the assistant: when the new name is typed and accepted,
    differs from the old one and is not listed, and the old name loads as
    a dict that is not empty, then afterwards the new name loads as the
    two prompts of the old one, the old name does not load, the other
    assistants are as they were, the assistant remembered as the last one
    follows the renaming, and the list shows the assistants of the
    disk. *)
Theorem rename_moves_assistant (self : AssistantManager.dialog)
  (current_name new_name : string) (assistant : dict) :
  PyStr.has_char "/" current_name = false ->
  PyStr.has_char "/" new_name = false ->
  new_name <> EmptyString ->
  new_name <> current_name ->
  ~ In new_name (ConfigManager.get_assistants (AssistantManager.config_manager self)) ->
  ConfigManager.load_assistant current_name (AssistantManager.config_manager self)
  = Some assistant ->
  assistant <> [] ->
  let self' := AssistantManager.rename_assistant (Some current_name) (new_name, true) self in
  let manager' := AssistantManager.config_manager self' in
  ConfigManager.load_assistant new_name manager'
  = Some [("system_prompt", fst (AssistantManager.prompts assistant));
          ("user_prompt", snd (AssistantManager.prompts assistant))] /\
  ConfigManager.load_assistant current_name manager' = None /\
  (forall other, other <> new_name -> other <> current_name ->
     ConfigManager.load_assistant other manager'
     = ConfigManager.load_assistant other (AssistantManager.config_manager self)) /\
  (ConfigManager.get_last_assistant (AssistantManager.config_manager self)
   = JString current_name ->
   ConfigManager.get_last_assistant manager' = JString new_name) /\
  AssistantManager.assistant_list self' = ConfigManager.get_assistants manager'.
Proof.
  intros _ _ Hempty Hne Hnew Hload Hdict self' manager'.
  assert (E : self' = AssistantManager.populate_assistant_list
                (AssistantManager.mkDialog
                   (AssistantManager.renamed current_name new_name assistant
                      (AssistantManager.config_manager self))
                   (AssistantManager.assistant_list self)
                   (AssistantManager.warnings self))).
  { unfold self', AssistantManager.rename_assistant.
    rewrite (proj2 (AssistantManagerFacts.rename_guard new_name current_name true));
      [|repeat split; assumption].
    destruct (AssistantManager.member new_name _) eqn:M;
      [apply AssistantManagerFacts.member_In in M; contradiction|].
    rewrite Hload. destruct assistant as [|e assistant]; [congruence|]. reflexivity. }
  unfold manager'. rewrite E.
  cbn [AssistantManager.populate_assistant_list AssistantManager.config_manager
         AssistantManager.assistant_list].
  repeat split.
  - rewrite (AssistantManagerFacts.load_renamed _ _ _ _ _ Hne), String.eqb_refl.
    apply String.eqb_neq in Hne. rewrite Hne. reflexivity.
  - rewrite (AssistantManagerFacts.load_renamed _ _ _ _ _ Hne), String.eqb_refl.
    reflexivity.
  - intros other Hn Hc.
    rewrite (AssistantManagerFacts.load_renamed _ _ _ _ _ Hne).
    apply String.eqb_neq in Hn, Hc. rewrite Hn, Hc. reflexivity.
  - intro Hlast. rewrite AssistantManagerFacts.last_renamed, Hlast.
    cbn [PyDict.is_text]. rewrite String.eqb_refl. reflexivity.
Qed.

Lemma rename_moves_assistant_witness :
  ConfigManager.load_assistant "algebra"
    (AssistantManager.config_manager
       (AssistantManager.rename_assistant (Some "math") ("algebra", true)
          (AssistantManager.open
             (ConfigManager.set_last_assistant "math"
                (ConfigManager.save_assistant "math" (JString "a") (JString "b")
                   (ConfigManager.init []))))))
  = Some [("system_prompt", JString "a"); ("user_prompt", JString "b")].
Proof.
  apply (rename_moves_assistant
           (AssistantManager.open
              (ConfigManager.set_last_assistant "math"
                 (ConfigManager.save_assistant "math" (JString "a") (JString "b")
                    (ConfigManager.init []))))
           "math" "algebra"
           [("system_prompt", JString "a"); ("user_prompt", JString "b")]).
  - reflexivity.
  - reflexivity.
  - discriminate.
  - discriminate.
  - vm_compute. intros [H|[]]. discriminate H.
  - reflexivity.
  - discriminate.
Defined.

(** Renaming and cloning overwrite no assistant: when the name typed is
    plain and an assistant of that name loads, neither changes the
    configuration or the disk. *)
Theorem existing_assistant_not_overwritten (self : AssistantManager.dialog)
  (current_item : option string) (new_name : string) (ok : bool) :
  ConfigManager.plain new_name ->
  ConfigManager.load_assistant new_name (AssistantManager.config_manager self) <> None ->
  AssistantManager.config_manager
    (AssistantManager.rename_assistant current_item (new_name, ok) self)
  = AssistantManager.config_manager self /\
  AssistantManager.config_manager
    (AssistantManager.clone_assistant current_item (new_name, ok) self)
  = AssistantManager.config_manager self.
Proof.
  intros Hplain Hload.
  pose proof (ConfigManagerFacts.loaded_listed _ _ Hplain Hload) as Hin.
  apply AssistantManagerFacts.member_In in Hin.
  unfold AssistantManager.rename_assistant, AssistantManager.clone_assistant.
  rewrite Hin. destruct current_item as [current_name|]; [|split; reflexivity].
  split.
  - destruct (_ && _ && _); reflexivity.
  - destruct (_ && _); reflexivity.
Qed.

Lemma existing_assistant_not_overwritten_witness :
  AssistantManager.config_manager
    (AssistantManager.clone_assistant (Some "math") ("math", true)
       (AssistantManager.open
          (ConfigManager.save_assistant "math" (JString "a") (JString "b")
             (ConfigManager.init []))))
  = ConfigManager.save_assistant "math" (JString "a") (JString "b")
      (ConfigManager.init []).
Proof.
  apply (existing_assistant_not_overwritten
           (AssistantManager.open
              (ConfigManager.save_assistant "math" (JString "a") (JString "b")
                 (ConfigManager.init [])))
           (Some "math") "math" true).
  - split; reflexivity.
  - discriminate.
Defined.

(** The assistant remembered as the last one stays loadable: if it loads
    when the dialog opens, it loads after whatever the user does in the
    dialog with names that are names of files, renaming and deleting
    included. *)
Theorem last_assistant_stays_loadable (actions : list AssistantManager.action)
  (self : AssistantManager.dialog) :
  AssistantManager.well_named actions ->
  AssistantManager.last_assistant_loads (AssistantManager.config_manager self) ->
  AssistantManager.last_assistant_loads
    (AssistantManager.config_manager (AssistantManager.session actions self)).
Proof.
  intros _. revert self.
  induction actions as [|a actions IH]; intros self H; [exact H|].
  apply (IH (AssistantManager.clicked a self)).
  exact (AssistantManagerFacts.outcome_keeps_last _ _
           (AssistantManagerFacts.clicked_outcome a self) H).
Qed.

Lemma last_assistant_stays_loadable_witness :
  AssistantManager.last_assistant_loads
    (AssistantManager.config_manager
       (AssistantManager.session
          [AssistantManager.Clone (Some "math") ("math - Copy", true);
           AssistantManager.Rename (Some "math") ("algebra", true);
           AssistantManager.Delete (Some "math - Copy") true]
          (AssistantManager.open
             (ConfigManager.set_last_assistant "math"
                (ConfigManager.save_assistant "math" (JString "a") (JString "b")
                   (ConfigManager.init [])))))).
Proof.
  apply (last_assistant_stays_loadable
           [AssistantManager.Clone (Some "math") ("math - Copy", true);
            AssistantManager.Rename (Some "math") ("algebra", true);
            AssistantManager.Delete (Some "math - Copy") true]).
  - repeat constructor.
  - intros name H _. vm_compute in H. injection H as <-. vm_compute. discriminate.
Defined.

(** The list of the dialog shows the assistants of the disk, as
    [get_assistants] lists them, after whatever the user does with names
    that are names of files. *)
Theorem assistant_list_shows_disk (manager : ConfigManager.state)
  (actions : list AssistantManager.action) :
  AssistantManager.well_named actions ->
  AssistantManager.assistant_list
    (AssistantManager.session actions (AssistantManager.open manager))
  = ConfigManager.get_assistants
      (AssistantManager.config_manager
         (AssistantManager.session actions (AssistantManager.open manager))).
Proof.
  intros _.
  assert (H : forall self,
             AssistantManager.assistant_list self
             = ConfigManager.get_assistants (AssistantManager.config_manager self) ->
             AssistantManager.assistant_list (AssistantManager.session actions self)
             = ConfigManager.get_assistants
                 (AssistantManager.config_manager
                    (AssistantManager.session actions self))).
  { induction actions as [|a actions IH]; intros self H; [exact H|].
    apply (IH (AssistantManager.clicked a self)).
    apply AssistantManagerFacts.clicked_in_sync. exact H. }
  apply H. reflexivity.
Qed.

Lemma assistant_list_shows_disk_witness :
  AssistantManager.assistant_list
    (AssistantManager.session
       [AssistantManager.Clone (Some "math") ("math - Copy", true);
        AssistantManager.Rename (Some "math") ("algebra", true)]
       (AssistantManager.open
          (ConfigManager.save_assistant "math" (JString "a") (JString "b")
             (ConfigManager.init []))))
  = ConfigManager.get_assistants
      (AssistantManager.config_manager
         (AssistantManager.session
            [AssistantManager.Clone (Some "math") ("math - Copy", true);
             AssistantManager.Rename (Some "math") ("algebra", true)]
            (AssistantManager.open
               (ConfigManager.save_assistant "math" (JString "a") (JString "b")
                  (ConfigManager.init []))))).
Proof.
  apply (assistant_list_shows_disk
           (ConfigManager.save_assistant "math" (JString "a") (JString "b")
              (ConfigManager.init []))
           [AssistantManager.Clone (Some "math") ("math - Copy", true);
            AssistantManager.Rename (Some "math") ("algebra", true)]).
  repeat constructor.
Defined.

(** ** The pages of a document *)

(** No page image overwrites another: when the conversion returns, it
    returns one path for every page of the document, and the paths differ
    from one another, provided [os.path.join] keeps relative names
    apart. The number in a name is padded to three digits and longer from
    page 1000 on. *)
Theorem page_images_distinct (join : string -> string -> string) (mkdtemp : string)
  (document : result nat) (output_dir : string) (image_paths : list string) :
  (forall d a b, prefix "/" a = false -> prefix "/" b = false ->
                 join d a = join d b -> a = b) ->
  PDFProcessor.convert_pdf_to_images join mkdtemp document output_dir = Ok image_paths ->
  NoDup image_paths /\
  document = Ok (length image_paths).
Proof.
  intros Hjoin. unfold PDFProcessor.convert_pdf_to_images.
  destruct document as [pages|e]; [|discriminate]. intros [= <-]. split.
  - apply PDFProcessorFacts.image_paths_NoDup. exact Hjoin.
  - rewrite PDFProcessorFacts.image_paths_length. reflexivity.
Qed.

Lemma page_images_distinct_witness :
  NoDup ["./tmp/x/page_001.png"; "./tmp/x/page_002.png"; "./tmp/x/page_003.png"] /\
  @Ok nat 3%nat
  = Ok (length ["./tmp/x/page_001.png"; "./tmp/x/page_002.png"; "./tmp/x/page_003.png"]).
Proof.
  apply (page_images_distinct PosixPath.join "/tmp/tmpdir" (Ok 3%nat) "./tmp/x").
  - exact PDFProcessorFacts.posix_join_relative.
  - reflexivity.
Defined.

(** ** The window *)

(** The window removes nothing but what it has made: whatever slots are
    called, with whatever the operating system replies, every file that
    [processing_finished] removes is a page image in the directory that a
    call of [process_file] has had a document converted into, and every
    directory it removes is the directory of such an image. The file the
    user has selected is removed only if it is such an image. *)
Theorem only_page_images_removed (os : MainWindow.system) (cm : ConfigManager.state)
  (events : list MainWindow.event) :
  Forall (MainWindow.harmless os (MainWindow.timestamps events))
    (MainWindow.os_calls (snd (MainWindow.session os events (MainWindow.initial cm)))).
Proof.
  apply (MainWindowFacts.session_safe os (MainWindow.timestamps events) events).
  - apply incl_refl.
  - split; [constructor|]. cbn. lia.
Qed.

(** [processing_finished] always returns, whatever the operating system
    does while the images are cleaned up, and leaves the window ready: the
    result handed to the output widget, which holds what Qt makes of it
    (the result itself only when Qt takes it for plain text), the progress
    bar hidden, the status at "Processing complete!" and both buttons
    enabled; the value of the progress bar, the paths of the images, the
    file and the configuration are as they were. *)
Theorem processing_finished_always_returns (os : MainWindow.system)
  (result_text : string) (w : MainWindow.window) :
  let out := MainWindow.processing_finished os result_text w in
  fst out = Ok tt /\
  MainWindow.output_text (MainWindow.ui (snd out))
  = MainWindow.plain_text_of os result_text /\
  MainWindow.progress_bar_visible (MainWindow.ui (snd out)) = false /\
  MainWindow.progress_status_text (MainWindow.ui (snd out)) = "Processing complete!" /\
  MainWindow.process_btn_enabled (MainWindow.ui (snd out)) = true /\
  MainWindow.save_output_btn_enabled (MainWindow.ui (snd out)) = true /\
  MainWindow.progress_bar_value (MainWindow.ui (snd out))
  = MainWindow.progress_bar_value (MainWindow.ui w) /\
  MainWindow.image_paths (snd out) = MainWindow.image_paths w /\
  MainWindow.current_file (snd out) = MainWindow.current_file w /\
  MainWindow.config_manager (snd out) = MainWindow.config_manager w.
Proof.
  intro out. unfold out.
  destruct (MainWindowFacts.processing_finished_frame os result_text w)
    as (Hr & Hfile & Hpaths & _ & Hcm & Hui & _).
  rewrite Hui, Hpaths, Hfile, Hcm. repeat split. exact Hr.
Qed.



(** The slots that a task makes the window run leave it ready: for a
    batch that is not empty and a run that ends with a final text,
    whatever the order in which the pages complete and however the
    emissions of the threads are merged, once [update_progress] has run
    for every emission and [processing_finished] for the final text, no
    slot has raised, the progress bar stands at 100 and is hidden, the
    status reads "Processing complete!", the output widget holds what Qt
    makes of the final text and both buttons are enabled. *)
Theorem window_after_task (os : MainWindow.system) (w : MainWindow.window)
  (t : MainWindow.task)
  (load_outcome : nat -> nat -> Worker.load_result)
  (client_outcome : nat -> nat -> Worker.reply)
  (order : list nat) (stream : list (Z * string)) (final_text : string) :
  MainWindow.processing_task w = Some t ->
  MainWindow.images t <> [] ->
  Permutation order (seq 0 (length (MainWindow.images t))) ->
  Scheduler.progress_stream (MainWindow.images t) (MainWindow.max_retries t)
    (MainWindow.output_format t) load_outcome client_outcome order stream ->
  fst (Scheduler.run (MainWindow.images t) (MainWindow.max_retries t)
         (MainWindow.output_format t) load_outcome client_outcome order)
  = Ok final_text ->
  let out := MainWindow.session os (MainWindow.delivered stream final_text) w in
  fst out = Ok tt /\
  MainWindow.progress_bar_value (MainWindow.ui (snd out)) = 100 /\
  MainWindow.progress_bar_visible (MainWindow.ui (snd out)) = false /\
  MainWindow.progress_status_text (MainWindow.ui (snd out)) = "Processing complete!" /\
  MainWindow.output_text (MainWindow.ui (snd out))
  = MainWindow.plain_text_of os final_text /\
  MainWindow.process_btn_enabled (MainWindow.ui (snd out)) = true /\
  MainWindow.save_output_btn_enabled (MainWindow.ui (snd out)) = true.
Proof.
  intros _ Himages Hp Hs _ out. unfold out, MainWindow.delivered. clear out.
  rewrite MainWindowFacts.session_app
    by (rewrite MainWindowFacts.session_updates; reflexivity).
  rewrite MainWindowFacts.session_updates. cbn [snd MainWindow.session MainWindow.slot].
  set (w1 := MainWindow.mkWindow _ _ _ _ _ _ _).
  destruct (MainWindowFacts.processing_finished_frame os final_text w1)
    as (Hr & _ & _ & _ & _ & Hui & _).
  unfold bind. destruct (MainWindow.processing_finished os final_text w1) as [r w2].
  cbn [fst snd] in *. subst r. cbn [ret fst snd]. rewrite Hui.
  split; [reflexivity|]. split; [|repeat split].
  cbn [w1 MainWindow.ui].
  change (MainWindow.progress_bar_value (MainWindow.progressed stream (MainWindow.ui w))
          = 100).
  rewrite MainWindowFacts.bar_progressed.
  rewrite (MainWindowFacts.bar_after_shown _ _
             (MainWindowFacts.stream_values _ _ _ _ _ _ _ Hp Hs)).
  assert (Hn : (0 < length (MainWindow.images t))%nat).
  { destruct (MainWindow.images t); [congruence | cbn; lia]. }
  rewrite (SchedulerFacts.shown_stream _ _ _ _ _ _ _ Hn Hp Hs).
  rewrite (MainWindowFacts.last_default _ _ 0).
  - apply SchedulerFacts.last_percent. exact Hn.
  - destruct (length (MainWindow.images t)); [lia | discriminate].
Qed.

Lemma window_after_task_witness :
  MainWindow.progress_bar_value
    (MainWindow.ui
       (snd (MainWindow.session MainWindow.posix
               (MainWindow.delivered [(100, "Processed page 1/1")] "text")
               (snd (MainWindow.session MainWindow.posix
                       [MainWindow.BrowseFile "scan.png";
                        MainWindow.ProcessFile
                          (MainWindow.mkMoment "sk-key" "system" "user" 3 3 true
                             "20240101120000" (Raised "not a document"))]
                       (MainWindow.initial (ConfigManager.init [])))))))
  = 100.
Proof.
  refine (proj1 (proj2 (window_after_task MainWindow.posix
                          (snd (MainWindow.session MainWindow.posix
                                  [MainWindow.BrowseFile "scan.png";
                                   MainWindow.ProcessFile
                                     (MainWindow.mkMoment "sk-key" "system" "user" 3 3
                                        true "20240101120000"
                                        (Raised "not a document"))]
                                  (MainWindow.initial (ConfigManager.init []))))
                          (MainWindow.mkTask ["scan.png"] "system" "user" 3 3 "md")
                          (fun _ _ => Worker.Loaded)
                          (fun _ _ => Worker.Returns true (Some "text"))
                          [0%nat] [(100, "Processed page 1/1")] "text" _ _ _ _ _))).
  - reflexivity.
  - discriminate.
  - reflexivity.
  - unfold Scheduler.progress_stream. vm_compute.
    apply (Scheduler.interleaved_next [] _ [] [[]]).
    apply Scheduler.interleaved_done. repeat constructor.
  - vm_compute. reflexivity.
Defined.

(** One image is never cleaned up after: as long as every document
    converted has one page at most, the window removes no file and no
    directory, whatever slots are called and whatever the temporary
    directory is. The image of a document of one page stays in
    [./tmp/<timestamp>]. *)
Theorem single_page_images_are_left (os : MainWindow.system) (cm : ConfigManager.state)
  (events : list MainWindow.event) :
  MainWindow.single_pages events ->
  Forall (fun c => MainWindow.removes c = false)
    (MainWindow.os_calls (snd (MainWindow.session os events (MainWindow.initial cm)))).
Proof.
  intro H. apply (MainWindowFacts.session_quiet os events H).
  split; [constructor | cbn; lia].
Qed.

Lemma single_page_images_are_left_witness :
  Forall (fun c => MainWindow.removes c = false)
    (MainWindow.os_calls
       (snd (MainWindow.session MainWindow.posix
               [MainWindow.BrowseFile "scans/Report.PDF";
                MainWindow.ProcessFile
                  (MainWindow.mkMoment "sk-key" "system" "user" 3 3 true
                     "20240101120000" (Ok 1%nat));
                MainWindow.ProcessingFinished "text"]
               (MainWindow.initial (ConfigManager.init []))))).
Proof.
  apply (single_page_images_are_left MainWindow.posix (ConfigManager.init [])
           [MainWindow.BrowseFile "scans/Report.PDF";
            MainWindow.ProcessFile
              (MainWindow.mkMoment "sk-key" "system" "user" 3 3 true
                 "20240101120000" (Ok 1%nat));
            MainWindow.ProcessingFinished "text"]).
  intros m pages [H|[H|[H|[]]]]; try discriminate H.
  injection H as <-. cbn. intros [= <-]. lia.
Defined.

(** A presentation is not converted: for a file whose extension is [.ppt]
    or [.pptx], [process_file] leaves [image_paths] as it was and starts
    the task on it, that is on the images of the file processed before,
    or on none in a window that has processed no file. *)
Theorem presentation_processes_previous_images (os : MainWindow.system)
  (m : MainWindow.moment) (w : MainWindow.window) (current : string) :
  MainWindow.current_file w = Some current ->
  current <> EmptyString ->
  MainWindow.api_key m <> EmptyString ->
  MainWindow.file_ext os current = ".ppt" \/ MainWindow.file_ext os current = ".pptx" ->
  MainWindow.makedirs_reply os (length (MainWindow.os_calls w)) = None ->
  let out := MainWindow.process_file os m w in
  fst out = Ok tt /\
  MainWindow.image_paths (snd out) = MainWindow.image_paths w /\
  option_map MainWindow.images (MainWindow.processing_task (snd out))
  = Some (MainWindow.image_paths w).
Proof.
  intros Hfile Hcurrent Hkey Hext Hmk out. unfold out.
  destruct current as [|c current]; [congruence|].
  destruct (MainWindowFacts.process_file_ppt os m w c current Hfile Hkey Hext Hmk)
    as (w' & -> & Hpaths & Htask & _).
  cbn [fst snd]. rewrite Htask. repeat split. exact Hpaths.
Qed.

Lemma presentation_processes_previous_images_witness :
  option_map MainWindow.images
    (MainWindow.processing_task
       (snd (MainWindow.process_file MainWindow.posix
               (MainWindow.mkMoment "sk-key" "system" "user" 3 3 true
                  "20240101120000" (Raised "not a document"))
               (snd (MainWindow.browse_file MainWindow.posix "slides/Talk.pptx"
                       (MainWindow.initial (ConfigManager.init [])))))))
  = Some [].
Proof.
  apply (presentation_processes_previous_images MainWindow.posix
           (MainWindow.mkMoment "sk-key" "system" "user" 3 3 true
              "20240101120000" (Raised "not a document"))
           (snd (MainWindow.browse_file MainWindow.posix "slides/Talk.pptx"
                   (MainWindow.initial (ConfigManager.init []))))
           "slides/Talk.pptx").
  - reflexivity.
  - discriminate.
  - discriminate.
  - right. reflexivity.
  - reflexivity.
Defined.
